(** * Smart garbage collection: a shallow embedding of [garbageCollector.py]

    The simulation has three kinds of agents (buildings, trucks and one
    disposal site) living on a Mesa [MultiGrid] and activated by a Mesa
    [RandomActivation] scheduler.  Python objects are mutable and shared:
    a truck's [target] is a reference to a building object of the schedule.
    The embedding keeps one store, the [Model] record, whose lists hold the
    agents in registration order; a reference to a building is its index
    in that list.

    Amounts of trash are Python floats (the generation rate is drawn with
    [random.uniform]).  A float is a rational: amounts are embedded in
    [Q], and every comparison is the one the code makes.  The first part
    of the development adds amounts exactly; where the rounding of the
    additions decides a property (conservation, truck accounting) the
    program is given again with the rounding written out ([Rounded]), and
    [binary64] is the rounding of Python's floats. *)

From stdpp Require Import base list.
From Stdlib Require Import ZArith QArith Qround Qabs Qpower Lqa Lia.
From Stdlib Require Import Permutation Sorted.

Open Scope Q_scope.

(** ** Numbers and positions *)

Definition Qlt_bool (x y : Q) : bool := negb (Qle_bool y x).

Definition Qsum (l : list Q) : Q := fold_right Qplus 0 l.

(** A grid cell [(x, y)]. *)
Definition Pos : Type := (Z * Z)%type.

Definition pos_eqb (p q : Pos) : bool :=
  (Z.eqb (fst p) (fst q) && Z.eqb (snd p) (snd q))%bool.

(** ** The random source

  Python's [random.Random]: every draw is derived from [random()], a
  number in the half-open interval from 0 to 1.  The source is an
  explicit list of the numbers still to be drawn (an exhausted list
  keeps answering 0); a draw keeps the fractional part, so that every
  list is a legal source. *)

Definition Rng : Type := list Q.

Definition frac (u : Q) : Q := u - inject_Z (Qfloor u).

Definition random (r : Rng) : Q * Rng :=
  match r with
  | [] => (0, [])
  | u :: r' => (frac u, r')
  end.

(** [random.uniform(a, b)] is [a + (b - a) * random()]. *)
Definition uniform (a b : Q) (r : Rng) : Q * Rng :=
  let '(u, r') := random r in (a + (b - a) * u, r').

(** [randrange(n)]: an index below [n]. *)
Definition randrange (n : Z) (r : Rng) : Z * Rng :=
  let '(u, r') := random r in (Qfloor (u * inject_Z n), r').

(** [random.randint(a, b)], both ends included. *)
Definition randint (a b : Z) (r : Rng) : Z * Rng :=
  let '(k, r') := randrange (b - a + 1) r in ((a + k)%Z, r').

(** [random.choice(seq)] on a non-empty sequence. *)
Definition choice {A : Type} (d : A) (l : list A) (r : Rng) : A * Rng :=
  let '(k, r') := randrange (Z.of_nat (length l)) r in
  (nth (Z.to_nat k) l d, r').

(** [random.shuffle(x)]: the Fisher-Yates loop
  [for i in reversed(range(1, len(x))): j = randbelow(i + 1);
   x[i], x[j] = x[j], x[i]]. *)
Definition swap {A : Type} (i j : nat) (l : list A) : list A :=
  match l !! i, l !! j with
  | Some a, Some b => <[j := a]> (<[i := b]> l)
  | _, _ => l
  end.

Fixpoint shuffle_from {A : Type} (i : nat) (l : list A) (r : Rng) : list A * Rng :=
  match i with
  | O => (l, r)
  | S i' =>
    let '(j, r') := randrange (Z.of_nat (S i)) r in
    shuffle_from i' (swap i (Z.to_nat j) l) r'
  end.

Definition shuffle {A : Type} (l : list A) (r : Rng) : list A * Rng :=
  shuffle_from (length l - 1) l r.

(** ** Buildings *)

Module BuildingAgent.

Record t : Type := mk {
  unique_id : nat;
  pos : Pos;
  trash_level : Q;
  capacity : Q;
  trash_generation_rate : Q;
  pickup_requested : bool;
  total_trash_generated : Q;
  pickup_wait_time : Z
}.

(** The constructor, followed by the [place_agent] that fixes [pos]. *)
Definition __init__ (uid : nat) (p : Pos) (rate cap : Q) : t :=
  {| unique_id := uid; pos := p;
     trash_level := 0; capacity := cap; trash_generation_rate := rate;
     pickup_requested := false; total_trash_generated := 0;
     pickup_wait_time := 0 |}.

(** [if self.trash_level < self.capacity: ...] *)
Definition generate (b : t) : t :=
  if Qlt_bool (trash_level b) (capacity b) then
    {| unique_id := unique_id b; pos := pos b;
       trash_level := trash_level b + trash_generation_rate b;
       capacity := capacity b;
       trash_generation_rate := trash_generation_rate b;
       pickup_requested := pickup_requested b;
       total_trash_generated := total_trash_generated b + trash_generation_rate b;
       pickup_wait_time := pickup_wait_time b |}
  else b.

(** [if self.trash_level >= self.capacity * 0.8 and not self.pickup_requested: ...] *)
Definition raise_request (b : t) : t :=
  if (Qle_bool (capacity b * 0.8) (trash_level b) && negb (pickup_requested b))%bool then
    {| unique_id := unique_id b; pos := pos b;
       trash_level := trash_level b; capacity := capacity b;
       trash_generation_rate := trash_generation_rate b;
       pickup_requested := true;
       total_trash_generated := total_trash_generated b;
       pickup_wait_time := 0 |}
  else b.

(** [if self.pickup_requested: self.pickup_wait_time += 1] *)
Definition count_wait (b : t) : t :=
  if pickup_requested b then
    {| unique_id := unique_id b; pos := pos b;
       trash_level := trash_level b; capacity := capacity b;
       trash_generation_rate := trash_generation_rate b;
       pickup_requested := pickup_requested b;
       total_trash_generated := total_trash_generated b;
       pickup_wait_time := pickup_wait_time b + 1 |}
  else b.

Definition step (b : t) : t := count_wait (raise_request (generate b)).

(** [collect_trash] returns the amount collected and the emptied building. *)
Definition collect_trash (b : t) : Q * t :=
  let collected := trash_level b in
  (collected,
   {| unique_id := unique_id b; pos := pos b;
      trash_level := 0; capacity := capacity b;
      trash_generation_rate := trash_generation_rate b;
      pickup_requested := false;
      total_trash_generated := total_trash_generated b;
      pickup_wait_time := 0 |}).

(** [move_agent] of the grid, the only writer of [pos]. *)
Definition set_pos (p : Pos) (b : t) : t :=
  {| unique_id := unique_id b; pos := p;
     trash_level := trash_level b; capacity := capacity b;
     trash_generation_rate := trash_generation_rate b;
     pickup_requested := pickup_requested b;
     total_trash_generated := total_trash_generated b;
     pickup_wait_time := pickup_wait_time b |}.

End BuildingAgent.

(** ** The disposal site *)

Module DisposalSiteAgent.

Record t : Type := mk {
  pos : Pos;
  total_received : Q
}.

Definition __init__ (p : Pos) : t := {| pos := p; total_received := 0 |}.

Definition receive_trash (amount : Q) (d : t) : t :=
  {| pos := pos d; total_received := total_received d + amount |}.

Definition step (d : t) : t := d.

End DisposalSiteAgent.

(** ** Trucks: the record *)

Inductive State : Type := patrolling | collecting | returning.

Module Truck.

(** [target] is a reference to a building of the schedule, or [None]. *)
Record t : Type := mk {
  unique_id : nat;
  pos : Pos;
  capacity : Q;
  current_load : Q;
  speed : Z;
  state : State;
  target : option nat;
  total_collected : Q;
  trips_made : Z;
  distance_traveled : Z
}.

Definition __init__ (uid : nat) (p : Pos) (cap : Q) (spd : Z) : t :=
  {| unique_id := uid; pos := p; capacity := cap; current_load := 0;
     speed := spd; state := patrolling; target := None;
     total_collected := 0; trips_made := 0; distance_traveled := 0 |}.

(** [grid.move_agent(self, new_pos)] *)
Definition set_pos (p : Pos) (t0 : t) : t :=
  {| unique_id := unique_id t0; pos := p; capacity := capacity t0;
     current_load := current_load t0; speed := speed t0; state := state t0;
     target := target t0; total_collected := total_collected t0;
     trips_made := trips_made t0; distance_traveled := distance_traveled t0 |}.

(** [grid.move_agent(self, new_pos); self.distance_traveled += 1] *)
Definition moved_to (p : Pos) (t0 : t) : t :=
  {| unique_id := unique_id t0; pos := p; capacity := capacity t0;
     current_load := current_load t0; speed := speed t0; state := state t0;
     target := target t0; total_collected := total_collected t0;
     trips_made := trips_made t0;
     distance_traveled := distance_traveled t0 + 1 |}.

(** [self.target = closest_building; self.state = "collecting"] *)
Definition claim (k : nat) (t0 : t) : t :=
  {| unique_id := unique_id t0; pos := pos t0; capacity := capacity t0;
     current_load := current_load t0; speed := speed t0; state := collecting;
     target := Some k; total_collected := total_collected t0;
     trips_made := trips_made t0; distance_traveled := distance_traveled t0 |}.

(** [self.state = "patrolling"; self.target = None] *)
Definition abandon (t0 : t) : t :=
  {| unique_id := unique_id t0; pos := pos t0; capacity := capacity t0;
     current_load := current_load t0; speed := speed t0; state := patrolling;
     target := None; total_collected := total_collected t0;
     trips_made := trips_made t0; distance_traveled := distance_traveled t0 |}.

(** The bookkeeping of [_collect] after [collect_trash] returned [collected]. *)
Definition loaded (collected : Q) (t0 : t) : t :=
  let load := current_load t0 + collected in
  {| unique_id := unique_id t0; pos := pos t0; capacity := capacity t0;
     current_load := load; speed := speed t0;
     state := if Qle_bool (capacity t0) load then returning else patrolling;
     target := None; total_collected := total_collected t0 + collected;
     trips_made := trips_made t0; distance_traveled := distance_traveled t0 |}.

(** The bookkeeping of [_return_to_disposal] after [receive_trash]. *)
Definition unloaded (t0 : t) : t :=
  {| unique_id := unique_id t0; pos := pos t0; capacity := capacity t0;
     current_load := 0; speed := speed t0; state := patrolling;
     target := target t0; total_collected := total_collected t0;
     trips_made := trips_made t0 + 1;
     distance_traveled := distance_traveled t0 |}.

End Truck.

(** ** The model: the store shared by all agents

    [buildings], [trucks] and [disposal_site] are the agents of
    [self.schedule] in registration order ([_create_buildings], then
    [_create_trucks], then [_create_disposal_site]); [trucks] is also
    [self.trucks].  The grid's cell contents are the agents whose [pos]
    is the cell. *)

Record Model : Type := mkModel {
  width : Z;
  height : Z;
  n_buildings : Z;
  n_trucks : Z;
  buildings : list BuildingAgent.t;
  trucks : list Truck.t;
  disposal_site : option DisposalSiteAgent.t
}.

Definition set_buildings (bs : list BuildingAgent.t) (m : Model) : Model :=
  {| width := width m; height := height m; n_buildings := n_buildings m;
     n_trucks := n_trucks m; buildings := bs; trucks := trucks m;
     disposal_site := disposal_site m |}.

Definition set_trucks (ts : list Truck.t) (m : Model) : Model :=
  {| width := width m; height := height m; n_buildings := n_buildings m;
     n_trucks := n_trucks m; buildings := buildings m; trucks := ts;
     disposal_site := disposal_site m |}.

Definition set_disposal_site (d : option DisposalSiteAgent.t) (m : Model) : Model :=
  {| width := width m; height := height m; n_buildings := n_buildings m;
     n_trucks := n_trucks m; buildings := buildings m; trucks := trucks m;
     disposal_site := d |}.

(** In-place mutation of the building (truck) behind a reference. *)
Definition update_building (k : nat) (f : BuildingAgent.t -> BuildingAgent.t)
    (m : Model) : Model :=
  set_buildings (alter f k (buildings m)) m.

Definition update_truck (i : nat) (f : Truck.t -> Truck.t) (m : Model) : Model :=
  set_trucks (alter f i (trucks m)) m.

(** An agent of the schedule. *)
Inductive AgentRef : Type :=
| ABuilding (k : nat)
| ATruck (i : nat)
| ADisposal.

(** [self.schedule.agents], in registration order. *)
Definition schedule_agents (m : Model) : list AgentRef :=
  map ABuilding (seq 0 (length (buildings m)))
  ++ map ATruck (seq 0 (length (trucks m)))
  ++ match disposal_site m with Some _ => [ADisposal] | None => [] end.

(** ** The grid (Mesa's [MultiGrid(width, height, torus=True)]) *)

Module MultiGrid.

Definition out_of_bounds (m : Model) (p : Pos) : bool :=
  ((fst p <? 0)%Z || (width m <=? fst p)%Z
   || (snd p <? 0)%Z || (height m <=? snd p)%Z)%bool.

(** [any(isinstance(agent, TruckAgent) for agent in
    grid.get_cell_list_contents([p]))] *)
Definition occupied_by_truck (m : Model) (p : Pos) : bool :=
  List.existsb (fun t0 => pos_eqb (Truck.pos t0) p) (trucks m).

Definition is_cell_empty (m : Model) (p : Pos) : bool :=
  (negb (List.existsb (fun b => pos_eqb (BuildingAgent.pos b) p) (buildings m))
   && negb (occupied_by_truck m p)
   && match disposal_site m with
      | Some d => negb (pos_eqb (DisposalSiteAgent.pos d) p)
      | None => true
      end)%bool.

(** All cells, sorted as Python sorts pairs. *)
Definition cells (m : Model) : list Pos :=
  flat_map (fun x => map (fun y => (Z.of_nat x, Z.of_nat y))
                         (seq 0 (Z.to_nat (height m))))
           (seq 0 (Z.to_nat (width m))).

(** [sorted(self.empties)] *)
Definition empties (m : Model) : list Pos :=
  List.filter (is_cell_empty m) (cells m).

(** [find_empty()]: a random empty cell, [None] when every cell is taken. *)
Definition find_empty (m : Model) (r : Rng) : option Pos * Rng :=
  match empties m with
  | [] => (None, r)
  | e :: es => let '(p, r') := choice e (e :: es) r in (Some p, r')
  end.

Definition torus_adj (m : Model) (p : Pos) : Pos :=
  ((fst p mod width m)%Z, (snd p mod height m)%Z).

Fixpoint dedup_pos (l : list Pos) : list Pos :=
  match l with
  | [] => []
  | p :: l' =>
      if List.existsb (pos_eqb p) l' then dedup_pos l' else p :: dedup_pos l'
  end.

(** [get_neighborhood(p, moore=True, include_center=False)] on the torus:
    the distinct cells one step away in the eight directions, without
    [p] itself. *)
Definition get_neighborhood (m : Model) (p : Pos) : list Pos :=
  let around :=
    flat_map (fun dx => map (fun dy => torus_adj m ((fst p + dx)%Z, (snd p + dy)%Z))
                            [(-1)%Z; 0%Z; 1%Z])
             [(-1)%Z; 0%Z; 1%Z] in
  List.filter (fun q => negb (pos_eqb q p)) (dedup_pos around).

End MultiGrid.

(** ** Trucks: the state machine

    Every method takes the truck's index [i] in [trucks] and [self], the
    truck as it stands in the store when the method is entered. *)

(** [min(seq, key=key)]: the first element with the least key. *)
Fixpoint min_by {A : Type} (key : A -> Z) (best : A) (l : list A) : A :=
  match l with
  | [] => best
  | y :: l' => min_by key (if (key y <? key best)%Z then y else best) l'
  end.

(** The pairs [(k, building k)] of [buildings], in order. *)
Definition indexed {A : Type} (l : list A) : list (nat * A) :=
  combine (seq 0 (length l)) l.

Definition target_is (k : nat) (t0 : Truck.t) : bool :=
  match Truck.target t0 with
  | Some k' => Nat.eqb k' k
  | None => false
  end.

Module TruckAgent.

(** [abs(self.pos[0] - pos[0]) + abs(self.pos[1] - pos[1])] *)
Definition _distance_to (self : Truck.t) (p : Pos) : Z :=
  (Z.abs (fst (Truck.pos self) - fst p) + Z.abs (snd (Truck.pos self) - snd p))%Z.

(** The inner loop of [_patrol]: is some truck's target this building? *)
Definition is_targeted (m : Model) (k : nat) : bool :=
  List.existsb (target_is k) (trucks m).

(** The list built by the outer loop of [_patrol]. *)
Definition buildings_needing_pickup (m : Model) : list (nat * BuildingAgent.t) :=
  List.filter
    (fun kb => (BuildingAgent.pickup_requested (snd kb)
                && negb (is_targeted m (fst kb)))%bool)
    (indexed (buildings m)).

Definition _move_randomly (i : nat) (self : Truck.t) (r : Rng) (m : Model)
    : Model * Rng :=
  let possible_steps := MultiGrid.get_neighborhood m (Truck.pos self) in
  let valid_steps :=
    List.filter
      (fun p => (negb (MultiGrid.out_of_bounds m p)
                 && negb (MultiGrid.occupied_by_truck m p))%bool)
      possible_steps in
  match valid_steps with
  | [] => (m, r)
  | p :: ps =>
      let '(new_position, r') := choice p (p :: ps) r in
      (update_truck i (Truck.moved_to new_position) m, r')
  end.

(** [Some m'] when the move was made (Python's [True]), [None] otherwise. *)
Definition _try_move (i : nat) (self : Truck.t) (new_pos target_pos : Pos)
    (m : Model) : option Model :=
  if negb (MultiGrid.out_of_bounds m new_pos) then
    let is_occupied_by_truck := MultiGrid.occupied_by_truck m new_pos in
    if (negb is_occupied_by_truck || pos_eqb new_pos target_pos)%bool then
      Some (update_truck i (Truck.moved_to new_pos) m)
    else None
  else None.

Definition _move_towards (i : nat) (self : Truck.t) (target_pos : Pos)
    (r : Rng) (m : Model) : Model * Rng :=
  let x := fst (Truck.pos self) in
  let y := snd (Truck.pos self) in
  let dx := (fst target_pos - x)%Z in
  let dy := (snd target_pos - y)%Z in
  let along_x := ((x + Z.sgn dx)%Z, y) in
  let along_y := (x, (y + Z.sgn dy)%Z) in
  let '(first, second) :=
    if (Z.abs dy <? Z.abs dx)%Z then (along_x, along_y) else (along_y, along_x) in
  match _try_move i self first target_pos m with
  | Some m' => (m', r)
  | None =>
      match _try_move i self second target_pos m with
      | Some m' => (m', r)
      | None => _move_randomly i self r m
      end
  end.

Definition _patrol (i : nat) (self : Truck.t) (r : Rng) (m : Model)
    : Model * Rng :=
  match buildings_needing_pickup m with
  | [] => _move_randomly i self r m
  | c :: cs =>
      let closest_building :=
        min_by (fun kb => _distance_to self (BuildingAgent.pos (snd kb))) c cs in
      (update_truck i (Truck.claim (fst closest_building)) m, r)
  end.

(** A [target] is always a building of the schedule; the store leaves a
    truck whose reference designates nothing as it is. *)
Definition _collect (i : nat) (self : Truck.t) (r : Rng) (m : Model)
    : Model * Rng :=
  match Truck.target self with
  | None => (update_truck i Truck.abandon m, r)
  | Some k =>
      match buildings m !! k with
      | None => (m, r)
      | Some b =>
          if negb (BuildingAgent.pickup_requested b) then
            (update_truck i Truck.abandon m, r)
          else if negb (pos_eqb (Truck.pos self) (BuildingAgent.pos b)) then
            _move_towards i self (BuildingAgent.pos b) r m
          else
            let collected := fst (BuildingAgent.collect_trash b) in
            let m1 := update_building k (fun b0 => snd (BuildingAgent.collect_trash b0)) m in
            (update_truck i (Truck.loaded collected) m1, r)
      end
  end.

Definition _return_to_disposal (i : nat) (self : Truck.t) (r : Rng) (m : Model)
    : Model * Rng :=
  match disposal_site m with
  | None => (m, r)
  | Some d =>
      let disposal_pos := DisposalSiteAgent.pos d in
      if negb (pos_eqb (Truck.pos self) disposal_pos) then
        _move_towards i self disposal_pos r m
      else
        let m1 :=
          set_disposal_site
            (Some (DisposalSiteAgent.receive_trash (Truck.current_load self) d)) m in
        (update_truck i Truck.unloaded m1, r)
  end.

(** One pass through the body of the loop of [step]. *)
Definition substep (i : nat) (r : Rng) (m : Model) : Model * Rng :=
  match trucks m !! i with
  | None => (m, r)
  | Some self =>
      match Truck.state self with
      | patrolling => _patrol i self r m
      | collecting => _collect i self r m
      | returning => _return_to_disposal i self r m
      end
  end.

Fixpoint substeps (n : nat) (i : nat) (r : Rng) (m : Model) : Model * Rng :=
  match n with
  | O => (m, r)
  | S n' => let '(m', r') := substep i r m in substeps n' i r' m'
  end.

(** [for _ in range(self.speed): ...] *)
Definition step (i : nat) (r : Rng) (m : Model) : Model * Rng :=
  match trucks m !! i with
  | None => (m, r)
  | Some self => substeps (Z.to_nat (Truck.speed self)) i r m
  end.

End TruckAgent.

(** ** The model's operations *)

(** What construction can raise: the grid's [Exception("ERROR: No empty
    cells")] of [move_to_empty], and the failed lookup of the cell (0, 0)
    in a grid that has no cell.  The source defines no exception of its
    own. *)
Inductive Exception : Type :=
| NoEmptyCells
| CellLookupError.

Inductive Result (A : Type) : Type :=
| Ok (a : A)
| Raised (e : Exception).
Arguments Ok {A} a.
Arguments Raised {A} e.

Module GarbageCollectionModel.

(** [grid.get_cell_list_contents([p])] *)
Definition cell_contents (m : Model) (p : Pos) : list AgentRef :=
  map (fun kb => ABuilding (fst kb))
      (List.filter (fun kb => pos_eqb (BuildingAgent.pos (snd kb)) p)
                   (indexed (buildings m)))
  ++ map (fun it => ATruck (fst it))
         (List.filter (fun it => pos_eqb (Truck.pos (snd it)) p)
                      (indexed (trucks m)))
  ++ match disposal_site m with
     | Some d => if pos_eqb (DisposalSiteAgent.pos d) p then [ADisposal] else []
     | None => []
     end.

(** [grid.move_to_empty(agent)]: the agent goes to a random empty cell;
    the grid raises when there is none. *)
Definition move_to_empty (a : AgentRef) (r : Rng) (m : Model)
    : Result (Model * Rng) :=
  match MultiGrid.empties m with
  | [] => Raised NoEmptyCells
  | e :: es =>
      let '(p, r') := choice e (e :: es) r in
      Ok (match a with
          | ABuilding k => update_building k (BuildingAgent.set_pos p) m
          | ATruck i => update_truck i (Truck.set_pos p) m
          | ADisposal =>
              set_disposal_site
                (option_map (fun d => DisposalSiteAgent.mk p (DisposalSiteAgent.total_received d))
                            (disposal_site m)) m
          end, r')
  end.

Fixpoint move_all_to_empty (l : list AgentRef) (r : Rng) (m : Model)
    : Result (Model * Rng) :=
  match l with
  | [] => Ok (m, r)
  | a :: l' =>
      match move_to_empty a r m with
      | Ok (m', r') => move_all_to_empty l' r' m'
      | Raised e => Raised e
      end
  end.

(** The body of the loop of [_create_buildings], for [i]. *)
Definition create_building (i : nat) (r : Rng) (m : Model) : Model * Rng :=
  let '(pos, r1) := MultiGrid.find_empty m r in
  match pos with
  | Some p =>
      let '(trash_rate, r2) := uniform 0.5 2.0 r1 in
      let '(capacity, r3) := randint 8 15 r2 in
      let building := BuildingAgent.__init__ i p trash_rate (inject_Z capacity) in
      (set_buildings (buildings m ++ [building]) m, r3)
  | None => (m, r1)
  end.

Fixpoint create_buildings_from (ids : list nat) (r : Rng) (m : Model)
    : Model * Rng :=
  match ids with
  | [] => (m, r)
  | i :: ids' =>
      let '(m', r') := create_building i r m in create_buildings_from ids' r' m'
  end.

(** [for i in range(self.n_buildings): ...] *)
Definition _create_buildings (r : Rng) (m : Model) : Model * Rng :=
  create_buildings_from (seq 0 (Z.to_nat (n_buildings m))) r m.

(** The body of the loop of [_create_trucks], for [i]. *)
Definition create_truck (i : nat) (r : Rng) (m : Model) : Model * Rng :=
  let '(pos, r1) := MultiGrid.find_empty m r in
  match pos with
  | Some p =>
      let '(capacity, r2) := randint 40 60 r1 in
      let '(speed, r3) := randint 1 2 r2 in
      let truck := Truck.__init__ i p (inject_Z capacity) speed in
      (set_trucks (trucks m ++ [truck]) m, r3)
  | None => (m, r1)
  end.

Fixpoint create_trucks_from (ids : list nat) (r : Rng) (m : Model)
    : Model * Rng :=
  match ids with
  | [] => (m, r)
  | i :: ids' =>
      let '(m', r') := create_truck i r m in create_trucks_from ids' r' m'
  end.

(** [for i in range(self.n_trucks): ...] *)
Definition _create_trucks (r : Rng) (m : Model) : Model * Rng :=
  create_trucks_from (seq 0 (Z.to_nat (n_trucks m))) r m.

Definition _create_disposal_site (r : Rng) (m : Model) : Result (Model * Rng) :=
  let pos := (0%Z, 0%Z) in
  if MultiGrid.out_of_bounds m pos then Raised CellLookupError
  else
    let displaced :=
      if negb (MultiGrid.is_cell_empty m pos)
      then move_all_to_empty (cell_contents m pos) r m
      else Ok (m, r) in
    match displaced with
    | Ok (m1, r1) =>
        Ok (set_disposal_site (Some (DisposalSiteAgent.__init__ pos)) m1, r1)
    | Raised e => Raised e
    end.

(** The constructor; the defaults are [width=20, height=20,
    n_buildings=10, n_trucks=2]. *)
Definition __init__ (width height n_buildings n_trucks : Z) (r : Rng)
    : Result (Model * Rng) :=
  let m0 := mkModel width height n_buildings n_trucks [] [] None in
  let '(m1, r1) := _create_buildings r m0 in
  let '(m2, r2) := _create_trucks r1 m1 in
  _create_disposal_site r2 m2.

(** [agent.step()] for an agent of the schedule. *)
Definition activate (a : AgentRef) (r : Rng) (m : Model) : Model * Rng :=
  match a with
  | ABuilding k => (update_building k BuildingAgent.step m, r)
  | ATruck i => TruckAgent.step i r m
  | ADisposal =>
      (set_disposal_site (option_map DisposalSiteAgent.step (disposal_site m)) m, r)
  end.

Fixpoint activate_all (order : list AgentRef) (r : Rng) (m : Model) : Model * Rng :=
  match order with
  | [] => (m, r)
  | a :: order' => let '(m', r') := activate a r m in activate_all order' r' m'
  end.

(** The order in which [RandomActivation.step] activates the agents: a
    fresh shuffle of the schedule at every call. *)
Definition activation_order (r : Rng) (m : Model) : list AgentRef * Rng :=
  shuffle (schedule_agents m) r.

(** [self.schedule.step()]; [self.datacollector.collect(self)] reads the
    reporters below and changes no agent. *)
Definition step (r : Rng) (m : Model) : Model * Rng :=
  let '(order, r') := activation_order r m in
  activate_all order r' m.

(** The reporters "Total Trash Generated", "Total Trash Collected" and
    "Buildings Needing Pickup". *)
Definition total_trash_generated (m : Model) : Q :=
  Qsum (map BuildingAgent.total_trash_generated (buildings m)).

Definition total_trash_collected (m : Model) : Q :=
  Qsum (map Truck.total_collected (trucks m)).

Definition buildings_needing_pickup (m : Model) : nat :=
  length (List.filter BuildingAgent.pickup_requested (buildings m)).

End GarbageCollectionModel.

(** ** Executions

    [run n] is [n] calls to the model's [step()].  An execution is made of
    atomic transitions: the step of one building, one pass through the
    loop of a truck's step, or the (empty) step of the disposal site. *)

Fixpoint run (n : nat) (r : Rng) (m : Model) : Model * Rng :=
  match n with
  | O => (m, r)
  | S n' => let '(m', r') := GarbageCollectionModel.step r m in run n' r' m'
  end.

Inductive Transition : Type :=
| TBuilding (k : nat)
| TSubstep (i : nat)
| TDisposal.

Definition fire (tr : Transition) (r : Rng) (m : Model) : Model * Rng :=
  match tr with
  | TBuilding k => GarbageCollectionModel.activate (ABuilding k) r m
  | TSubstep i => TruckAgent.substep i r m
  | TDisposal => GarbageCollectionModel.activate ADisposal r m
  end.

(** The states an execution can pass through: a constructed model, then
    any sequence of atomic transitions.  Every state of every run of
    [step()] is among them ([run_reachable] below), whatever the shuffles
    and the draws. *)
Inductive reachable : Model -> Prop :=
| reachable_init (w h nb nt : Z) (r r' : Rng) (m : Model) :
    GarbageCollectionModel.__init__ w h nb nt r = Ok (m, r') -> reachable m
| reachable_fire (tr : Transition) (r : Rng) (m : Model) :
    reachable m -> reachable (fst (fire tr r m)).

(** What one pass through the loop of a truck's step does to the store. *)
Inductive truck_effect (i : nat) (self : Truck.t) (m : Model) : Model -> Prop :=
| eff_none : truck_effect i self m m
| eff_move (p : Pos) :
    truck_effect i self m (update_truck i (Truck.moved_to p) m)
| eff_claim (k : nat) (b : BuildingAgent.t) :
    Truck.state self = patrolling ->
    In (k, b) (TruckAgent.buildings_needing_pickup m) ->
    truck_effect i self m (update_truck i (Truck.claim k) m)
| eff_abandon :
    Truck.state self = collecting ->
    truck_effect i self m (update_truck i Truck.abandon m)
| eff_harvest (k : nat) (b : BuildingAgent.t) :
    Truck.state self = collecting ->
    Truck.target self = Some k ->
    buildings m !! k = Some b ->
    BuildingAgent.pickup_requested b = true ->
    Truck.pos self = BuildingAgent.pos b ->
    truck_effect i self m
      (update_truck i (Truck.loaded (BuildingAgent.trash_level b))
         (update_building k (fun b0 => snd (BuildingAgent.collect_trash b0)) m))
| eff_unload (d : DisposalSiteAgent.t) :
    Truck.state self = returning ->
    disposal_site m = Some d ->
    Truck.pos self = DisposalSiteAgent.pos d ->
    truck_effect i self m
      (update_truck i Truck.unloaded
         (set_disposal_site
            (Some (DisposalSiteAgent.receive_trash (Truck.current_load self) d)) m)).

(** A truck moved, or nothing happened. *)
Inductive moved (i : nat) (m : Model) : Model -> Prop :=
| moved_nowhere : moved i m m
| moved_to_cell (p : Pos) : moved i m (update_truck i (Truck.moved_to p) m).

(** ** The invariants of an execution *)

Definition received (m : Model) : Q :=
  match disposal_site m with
  | Some d => DisposalSiteAgent.total_received d
  | None => 0
  end.

Definition loads (m : Model) : Q := Qsum (map Truck.current_load (trucks m)).

Definition levels (m : Model) : Q := Qsum (map BuildingAgent.trash_level (buildings m)).

Definition conservation (m : Model) : Prop :=
  GarbageCollectionModel.total_trash_generated m == received m + loads m + levels m.

Definition building_inv (b : BuildingAgent.t) : Prop :=
  0 < BuildingAgent.capacity b
  /\ 0 < BuildingAgent.trash_generation_rate b
  /\ 0 <= BuildingAgent.trash_level b
  /\ BuildingAgent.trash_level b
     < BuildingAgent.capacity b + BuildingAgent.trash_generation_rate b
  /\ (BuildingAgent.pickup_requested b = false ->
      BuildingAgent.trash_level b < BuildingAgent.capacity b * 0.8).

Definition truck_inv (t0 : Truck.t) : Prop :=
  0 < Truck.capacity t0
  /\ 0 <= Truck.current_load t0
  /\ (Truck.state t0 <> returning -> Truck.current_load t0 < Truck.capacity t0)
  /\ (Truck.state t0 <> collecting -> Truck.target t0 = None).

(** No building is the target of two trucks. *)
Definition exclusive (m : Model) : Prop :=
  forall (i j k : nat) (ti tj : Truck.t),
    trucks m !! i = Some ti -> trucks m !! j = Some tj ->
    Truck.target ti = Some k -> Truck.target tj = Some k -> i = j.

Definition agents_inv (m : Model) : Prop :=
  Forall building_inv (buildings m) /\ Forall truck_inv (trucks m).

(** ** Further predicates used by the proofs *)

(** The three invariants together. *)
Definition invariant (m : Model) : Prop :=
  conservation m /\ agents_inv m /\ exclusive m.

Definition fresh_building (b : BuildingAgent.t) : Prop :=
  BuildingAgent.trash_level b = 0
  /\ BuildingAgent.total_trash_generated b = 0
  /\ BuildingAgent.pickup_requested b = false
  /\ 8 <= BuildingAgent.capacity b <= 15
  /\ 0.5 <= BuildingAgent.trash_generation_rate b <= 2.

Definition fresh_truck (t0 : Truck.t) : Prop :=
  Truck.current_load t0 = 0
  /\ Truck.state t0 = patrolling
  /\ Truck.target t0 = None
  /\ 40 <= Truck.capacity t0 <= 60
  /\ (1 <= Truck.speed t0 <= 2)%Z.

Definition fresh (m : Model) : Prop :=
  Forall fresh_building (buildings m) /\ Forall fresh_truck (trucks m)
  /\ received m = 0.

(** A truck that patrols and holds no claim. *)
Definition idle (t0 : Truck.t) : Prop :=
  Truck.state t0 = patrolling /\ Truck.target t0 = None.

(** A truck that cannot both claim and harvest [b] within one step. *)
Definition unhurried (b : BuildingAgent.t) (t0 : Truck.t) : Prop :=
  Truck.speed t0 = 1%Z
  \/ (Truck.speed t0 = 2%Z /\ Truck.pos t0 <> BuildingAgent.pos b).

(** The only building requests a pickup and no truck has been activated. *)
Definition unclaimed (b0 : BuildingAgent.t) (ts : list Truck.t) (m : Model) : Prop :=
  trucks m = ts
  /\ exists b, buildings m = [b]
               /\ BuildingAgent.pickup_requested b = true
               /\ BuildingAgent.pos b = BuildingAgent.pos b0.

(** The only building requests a pickup, truck [i] holds the claim and
    every other truck is idle. *)
Definition claimed_by (i : nat) (m : Model) : Prop :=
  (exists b, buildings m = [b] /\ BuildingAgent.pickup_requested b = true)
  /\ (exists ti, trucks m !! i = Some ti /\ Truck.target ti = Some 0%nat)
  /\ forall j tj, j <> i -> trucks m !! j = Some tj -> idle tj.

(** The cells taken by buildings and trucks. *)
Definition occupied (m : Model) : list Pos :=
  map BuildingAgent.pos (buildings m) ++ map Truck.pos (trucks m).

Definition count_at (p : Pos) (l : list Pos) : nat :=
  length (List.filter (fun q => pos_eqb q p) l).

(** While agents are created: no disposal site yet, one agent per cell. *)
Definition creating (m : Model) : Prop :=
  disposal_site m = None /\ List.NoDup (occupied m).

Definition same_grid (m m' : Model) : Prop :=
  width m' = width m /\ height m' = height m
  /\ n_buildings m' = n_buildings m /\ n_trucks m' = n_trucks m.

(** ** Layout, bookkeeping and navigation predicates *)

(** A cell of a grid of the given width and height. *)
Definition in_grid (w h : Z) (p : Pos) : Prop :=
  (0 <= fst p < w)%Z /\ (0 <= snd p < h)%Z.

(** A building as [_create_buildings] makes it. *)
Definition new_building (w h : Z) (b : BuildingAgent.t) : Prop :=
  exists (uid : nat) (p : Pos) (rate : Q) (cap : Z),
    b = BuildingAgent.__init__ uid p rate (inject_Z cap)
    /\ in_grid w h p /\ (8 <= cap <= 15)%Z /\ 0.5 <= rate /\ rate <= 2.

(** A truck as [_create_trucks] makes it. *)
Definition new_truck (w h : Z) (t0 : Truck.t) : Prop :=
  exists (uid : nat) (p : Pos) (cap spd : Z),
    t0 = Truck.__init__ uid p (inject_Z cap) spd
    /\ in_grid w h p /\ (40 <= cap <= 60)%Z /\ (spd = 1 \/ spd = 2)%Z.

Definition just_built (m : Model) : Prop :=
  Forall (new_building (width m) (height m)) (buildings m)
  /\ Forall (new_truck (width m) (height m)) (trucks m).

(** What the trucks collected is what they carry plus what they delivered. *)
Definition accounting (m : Model) : Prop :=
  GarbageCollectionModel.total_trash_collected m == received m + loads m.

(** The wait counter runs exactly while the request is up. *)
Definition building_waits (b : BuildingAgent.t) : Prop :=
  if BuildingAgent.pickup_requested b
  then (1 <= BuildingAgent.pickup_wait_time b)%Z
  else BuildingAgent.pickup_wait_time b = 0%Z.

(** A returning truck is full; a collecting truck holds a building that
    still requests a pickup. *)
Definition truck_coherent (m : Model) (t0 : Truck.t) : Prop :=
  (Truck.state t0 = returning -> Truck.capacity t0 <= Truck.current_load t0)
  /\ (Truck.state t0 = collecting ->
      exists (k : nat) (b : BuildingAgent.t),
        Truck.target t0 = Some k /\ buildings m !! k = Some b
        /\ BuildingAgent.pickup_requested b = true).

Definition coherent (m : Model) : Prop :=
  accounting m
  /\ Forall building_waits (buildings m)
  /\ forall (j : nat) (tj : Truck.t), trucks m !! j = Some tj -> truck_coherent m tj.

(** What stepping is not meant to touch: the grid, the roster, and the
    fixed attributes of each agent. *)
Definition building_statics (b : BuildingAgent.t) : nat * Pos * Q * Q :=
  (BuildingAgent.unique_id b, BuildingAgent.pos b, BuildingAgent.capacity b,
   BuildingAgent.trash_generation_rate b).

Definition truck_statics (t0 : Truck.t) : nat * Q * Z :=
  (Truck.unique_id t0, Truck.capacity t0, Truck.speed t0).

Definition statics (m : Model)
    : Z * Z * list (nat * Pos * Q * Q) * list (nat * Q * Z) * option Pos :=
  (width m, height m, map building_statics (buildings m),
   map truck_statics (trucks m),
   option_map DisposalSiteAgent.pos (disposal_site m)).

(** The cumulative counters of [m'] are at least those of [m]. *)
Definition counters_le (m m' : Model) : Prop :=
  received m <= received m'
  /\ Forall2 (fun b b' => BuildingAgent.total_trash_generated b
                          <= BuildingAgent.total_trash_generated b')
             (buildings m) (buildings m')
  /\ Forall2 (fun t0 t1 => Truck.total_collected t0 <= Truck.total_collected t1
                           /\ (Truck.trips_made t0 <= Truck.trips_made t1)%Z
                           /\ (Truck.distance_traveled t0
                               <= Truck.distance_traveled t1)%Z)
             (trucks m) (trucks m').

(** The cell a truck is heading for: its target's cell while collecting,
    the disposal site's cell while returning. *)
Definition destination (m : Model) (self : Truck.t) : option Pos :=
  match Truck.state self with
  | patrolling => None
  | collecting =>
      match Truck.target self with
      | Some k => option_map BuildingAgent.pos (buildings m !! k)
      | None => None
      end
  | returning => option_map DisposalSiteAgent.pos (disposal_site m)
  end.

(** Truck [i] stayed, or went to a cell of the grid that held no truck or
    is its destination. *)
Inductive hop (i : nat) (dest : option Pos) (m : Model) : Model -> Prop :=
| hop_stay : hop i dest m m
| hop_to (p : Pos) :
    MultiGrid.out_of_bounds m p = false ->
    MultiGrid.occupied_by_truck m p = false \/ dest = Some p ->
    hop i dest m (update_truck i (Truck.moved_to p) m).

(** Every building and truck stands on a cell of the grid. *)
Definition on_grid (m : Model) : Prop :=
  Forall (fun b => MultiGrid.out_of_bounds m (BuildingAgent.pos b) = false)
         (buildings m)
  /\ Forall (fun t0 => MultiGrid.out_of_bounds m (Truck.pos t0) = false)
            (trucks m).

(** [x] is nearer than [y], or as near and not later in the schedule. *)
Definition no_worse {A : Type} (key : A -> Z) (ord : A -> nat) (x y : A) : Prop :=
  (key x < key y)%Z \/ (key x = key y /\ (ord x <= ord y)%nat).

(** The truck after [n] moves that brought it to the cell [p]. *)
Definition arrived (p : Pos) (n : Z) (t0 : Truck.t) : Truck.t :=
  {| Truck.unique_id := Truck.unique_id t0; Truck.pos := p;
     Truck.capacity := Truck.capacity t0;
     Truck.current_load := Truck.current_load t0; Truck.speed := Truck.speed t0;
     Truck.state := Truck.state t0; Truck.target := Truck.target t0;
     Truck.total_collected := Truck.total_collected t0;
     Truck.trips_made := Truck.trips_made t0;
     Truck.distance_traveled := Truck.distance_traveled t0 + n |}.

(** Truck [i] is [self], heads for [tp], and every other truck stands on
    [tp]: nothing is in its way. *)
Definition clear_road (m : Model) (i : nat) (self : Truck.t) (tp : Pos) : Prop :=
  trucks m !! i = Some self
  /\ in_grid (width m) (height m) (Truck.pos self)
  /\ in_grid (width m) (height m) tp
  /\ destination m self = Some tp
  /\ (Truck.state self = collecting ->
      exists (k : nat) (b : BuildingAgent.t),
        Truck.target self = Some k /\ buildings m !! k = Some b
        /\ BuildingAgent.pickup_requested b = true)
  /\ forall (j : nat) (tj : Truck.t),
       j <> i -> trucks m !! j = Some tj -> Truck.pos tj = tp.

(** [np.mean([... pickup_wait_time ... if pickup_requested]) if any(...)
    else 0] *)
Definition average_wait_time (m : Model) : Q :=
  let waiting := List.filter BuildingAgent.pickup_requested (buildings m) in
  if List.existsb BuildingAgent.pickup_requested (buildings m)
  then Qsum (map (fun b => inject_Z (BuildingAgent.pickup_wait_time b)) waiting)
       / inject_Z (Z.of_nat (length waiting))
  else 0.

(** ** Floating-point amounts

    The amounts of the program are Python floats, that is IEEE binary64
    numbers: the result of an arithmetic operation is the exact result
    rounded to a float.  [binary64 x] is the float nearest to [x], ties
    to the even significand; the amounts of the program stay far from
    the subnormal range and from overflow, which are left out. *)

(** The integer nearest to [x], ties to even. *)
Definition nearest_even (x : Q) : Z :=
  let q := Qfloor x in
  match Qcompare (x - inject_Z q) (1 # 2) with
  | Lt => q
  | Gt => (q + 1)%Z
  | Eq => if Z.even q then q else (q + 1)%Z
  end.

(** The exponent [e] is the one that puts the significand [|x| / 2 ^ e]
    between [2 ^ 52] and [2 ^ 53]. *)
Definition binary64 (x : Q) : Q :=
  if Qeq_bool x 0 then 0
  else
    let a := Qabs x in
    let e0 := (Z.log2 (Qnum a) - Z.log2 (Zpos (Qden a)) - 52)%Z in
    let e := if Qle_bool (2 ^ 52) (a / 2 ^ e0) then e0 else (e0 - 1)%Z in
    let v := Qred (inject_Z (nearest_even (a / 2 ^ e)) * 2 ^ e) in
    if Qle_bool 0 x then v else - v.

(** The program with the rounding [fl] written out at every arithmetic
    operation on an amount.  Only the code that computes amounts is
    repeated; the grid, the moves, the claims and the schedule are those
    above.  With [fl] the identity these are the definitions above. *)

Module Rounded.

Section Rounding.

Variable fl : Q -> Q.

(** [self.trash_level += rate; self.total_trash_generated += rate] *)
Definition generate (b : BuildingAgent.t) : BuildingAgent.t :=
  if Qlt_bool (BuildingAgent.trash_level b) (BuildingAgent.capacity b) then
    {| BuildingAgent.unique_id := BuildingAgent.unique_id b;
       BuildingAgent.pos := BuildingAgent.pos b;
       BuildingAgent.trash_level :=
         fl (BuildingAgent.trash_level b + BuildingAgent.trash_generation_rate b);
       BuildingAgent.capacity := BuildingAgent.capacity b;
       BuildingAgent.trash_generation_rate := BuildingAgent.trash_generation_rate b;
       BuildingAgent.pickup_requested := BuildingAgent.pickup_requested b;
       BuildingAgent.total_trash_generated :=
         fl (BuildingAgent.total_trash_generated b
             + BuildingAgent.trash_generation_rate b);
       BuildingAgent.pickup_wait_time := BuildingAgent.pickup_wait_time b |}
  else b.

(** [self.trash_level >= self.capacity * 0.8], the literal and the
    product both rounded. *)
Definition raise_request (b : BuildingAgent.t) : BuildingAgent.t :=
  if (Qle_bool (fl (BuildingAgent.capacity b * fl 0.8)) (BuildingAgent.trash_level b)
      && negb (BuildingAgent.pickup_requested b))%bool then
    {| BuildingAgent.unique_id := BuildingAgent.unique_id b;
       BuildingAgent.pos := BuildingAgent.pos b;
       BuildingAgent.trash_level := BuildingAgent.trash_level b;
       BuildingAgent.capacity := BuildingAgent.capacity b;
       BuildingAgent.trash_generation_rate := BuildingAgent.trash_generation_rate b;
       BuildingAgent.pickup_requested := true;
       BuildingAgent.total_trash_generated := BuildingAgent.total_trash_generated b;
       BuildingAgent.pickup_wait_time := 0 |}
  else b.

(** [BuildingAgent.step] *)
Definition building_step (b : BuildingAgent.t) : BuildingAgent.t :=
  BuildingAgent.count_wait (raise_request (generate b)).

(** [self.current_load += collected; self.total_collected += collected]
    and the test [self.current_load >= self.capacity] of [_collect]. *)
Definition loaded (collected : Q) (t0 : Truck.t) : Truck.t :=
  let load := fl (Truck.current_load t0 + collected) in
  {| Truck.unique_id := Truck.unique_id t0; Truck.pos := Truck.pos t0;
     Truck.capacity := Truck.capacity t0;
     Truck.current_load := load; Truck.speed := Truck.speed t0;
     Truck.state := if Qle_bool (Truck.capacity t0) load then returning else patrolling;
     Truck.target := None;
     Truck.total_collected := fl (Truck.total_collected t0 + collected);
     Truck.trips_made := Truck.trips_made t0;
     Truck.distance_traveled := Truck.distance_traveled t0 |}.

(** [self.total_received += amount] *)
Definition receive_trash (amount : Q) (d : DisposalSiteAgent.t)
    : DisposalSiteAgent.t :=
  {| DisposalSiteAgent.pos := DisposalSiteAgent.pos d;
     DisposalSiteAgent.total_received :=
       fl (DisposalSiteAgent.total_received d + amount) |}.

Definition _collect (i : nat) (self : Truck.t) (r : Rng) (m : Model)
    : Model * Rng :=
  match Truck.target self with
  | None => (update_truck i Truck.abandon m, r)
  | Some k =>
      match buildings m !! k with
      | None => (m, r)
      | Some b =>
          if negb (BuildingAgent.pickup_requested b) then
            (update_truck i Truck.abandon m, r)
          else if negb (pos_eqb (Truck.pos self) (BuildingAgent.pos b)) then
            TruckAgent._move_towards i self (BuildingAgent.pos b) r m
          else
            let collected := fst (BuildingAgent.collect_trash b) in
            let m1 := update_building k (fun b0 => snd (BuildingAgent.collect_trash b0)) m in
            (update_truck i (loaded collected) m1, r)
      end
  end.

Definition _return_to_disposal (i : nat) (self : Truck.t) (r : Rng) (m : Model)
    : Model * Rng :=
  match disposal_site m with
  | None => (m, r)
  | Some d =>
      let disposal_pos := DisposalSiteAgent.pos d in
      if negb (pos_eqb (Truck.pos self) disposal_pos) then
        TruckAgent._move_towards i self disposal_pos r m
      else
        let m1 :=
          set_disposal_site
            (Some (receive_trash (Truck.current_load self) d)) m in
        (update_truck i Truck.unloaded m1, r)
  end.

(** One pass through the body of the loop of [TruckAgent.step]. *)
Definition substep (i : nat) (r : Rng) (m : Model) : Model * Rng :=
  match trucks m !! i with
  | None => (m, r)
  | Some self =>
      match Truck.state self with
      | patrolling => TruckAgent._patrol i self r m
      | collecting => _collect i self r m
      | returning => _return_to_disposal i self r m
      end
  end.

Fixpoint substeps (n : nat) (i : nat) (r : Rng) (m : Model) : Model * Rng :=
  match n with
  | O => (m, r)
  | S n' => let '(m', r') := substep i r m in substeps n' i r' m'
  end.

(** [TruckAgent.step] *)
Definition truck_step (i : nat) (r : Rng) (m : Model) : Model * Rng :=
  match trucks m !! i with
  | None => (m, r)
  | Some self => substeps (Z.to_nat (Truck.speed self)) i r m
  end.

Definition activate (a : AgentRef) (r : Rng) (m : Model) : Model * Rng :=
  match a with
  | ABuilding k => (update_building k building_step m, r)
  | ATruck i => truck_step i r m
  | ADisposal =>
      (set_disposal_site (option_map DisposalSiteAgent.step (disposal_site m)) m, r)
  end.

Fixpoint activate_all (order : list AgentRef) (r : Rng) (m : Model) : Model * Rng :=
  match order with
  | [] => (m, r)
  | a :: order' => let '(m', r') := activate a r m in activate_all order' r' m'
  end.

(** [GarbageCollectionModel.step] *)
Definition step (r : Rng) (m : Model) : Model * Rng :=
  let '(order, r') := GarbageCollectionModel.activation_order r m in
  activate_all order r' m.

Fixpoint run (n : nat) (r : Rng) (m : Model) : Model * Rng :=
  match n with
  | O => (m, r)
  | S n' => let '(m', r') := step r m in run n' r' m'
  end.

End Rounding.

End Rounded.

(** [fl] rounds with relative error at most [u]; binary64 does so with
    [u] the inverse of [2 ^ 53]. *)
Definition rounds (fl : Q -> Q) (u : Q) : Prop :=
  0 <= u /\ u < 1 /\ forall x : Q, Qabs (fl x - x) <= u * Qabs x.

(** The two sides of the conservation law, and their difference. *)
Definition imbalance (m : Model) : Q :=
  GarbageCollectionModel.total_trash_generated m
  - (received m + loads m + levels m).

(** How far [n] rounded operations can drive the two sides apart,
    relative to the total generated. *)
Definition drift (u : Q) (n : nat) : Q :=
  ((1 + u) / (1 - u)) ^ Z.of_nat n - 1.

(** The number of passes in which amounts are added during one call of
    the model's [step()], for trucks of speed at most 2. *)
Definition passes (m : Model) : nat :=
  (length (buildings m) + 2 * length (trucks m))%nat.

(** No amount is negative. *)
Definition amounts_nonneg (m : Model) : Prop :=
  Forall (fun b => 0 <= BuildingAgent.trash_level b
                   /\ 0 <= BuildingAgent.total_trash_generated b
                   /\ 0 <= BuildingAgent.trash_generation_rate b) (buildings m)
  /\ Forall (fun t0 => 0 <= Truck.current_load t0) (trucks m)
  /\ 0 <= received m.

(** The two sides of the conservation law differ by at most [c] times the
    total generated. *)
Definition balanced (c : Q) (m : Model) : Prop :=
  amounts_nonneg m
  /\ Qabs (imbalance m) <= c * GarbageCollectionModel.total_trash_generated m.

(** The roster of [m] is that of [m0], and no truck is faster than 2. *)
Definition sized (m0 m : Model) : Prop :=
  length (buildings m) = length (buildings m0)
  /\ length (trucks m) = length (trucks m0)
  /\ Forall (fun t0 => (Truck.speed t0 <= 2)%Z) (trucks m).

(** What one pass through the loop of a truck's step does to the amounts,
    with rounding. *)
Inductive rounded_effect (fl : Q -> Q) (i : nat) (self : Truck.t) (m : Model)
    : Model -> Prop :=
| reff_none : rounded_effect fl i self m m
| reff_only (f : Truck.t -> Truck.t) :
    (forall t0, Truck.current_load (f t0) = Truck.current_load t0
                /\ Truck.total_collected (f t0) = Truck.total_collected t0
                /\ Truck.speed (f t0) = Truck.speed t0) ->
    rounded_effect fl i self m (update_truck i f m)
| reff_harvest (k : nat) (b : BuildingAgent.t) :
    buildings m !! k = Some b ->
    rounded_effect fl i self m
      (update_truck i (Rounded.loaded fl (BuildingAgent.trash_level b))
         (update_building k (fun b0 => snd (BuildingAgent.collect_trash b0)) m))
| reff_unload (d : DisposalSiteAgent.t) :
    disposal_site m = Some d ->
    rounded_effect fl i self m
      (update_truck i Truck.unloaded
         (set_disposal_site
            (Some (Rounded.receive_trash fl (Truck.current_load self) d)) m)).

(** The passes in which the activation of an agent may add amounts. *)
Definition cost (a : AgentRef) : nat :=
  match a with
  | ABuilding _ => 1
  | ATruck _ => 2
  | ADisposal => 0
  end.

(** After at most [n] rounded additions from [m0]. *)
Definition within (u : Q) (m0 : Model) (n : nat) (m : Model) : Prop :=
  sized m0 m /\ balanced (drift u n) m.

(** What the trucks collected differs from what they carry plus what they
    delivered by at most [c] times what they collected. *)
Definition accounted (c : Q) (m : Model) : Prop :=
  Forall (fun t0 => 0 <= Truck.total_collected t0) (trucks m)
  /\ Qabs (GarbageCollectionModel.total_trash_collected m - (received m + loads m))
     <= c * GarbageCollectionModel.total_trash_collected m.

Definition within_accounts (u : Q) (m0 : Model) (n : nat) (m : Model) : Prop :=
  within u m0 n m /\ accounted (drift u n) m.

(** ** Small towns, used in the examples *)

Definition constructed (x : Result (Model * Rng)) : Model :=
  match x with
  | Ok (m, _) => m
  | Raised _ => mkModel 0 0 0 0 [] [] None
  end.

(** One building and one truck on a 2 x 2 grid. *)
Definition hamlet : Model := Eval vm_compute in
    constructed (GarbageCollectionModel.__init__ 2 2 1 1 [0; 0.99; 0; 0; 0; 0]).

(** Two buildings and one truck on a 2 x 2 grid. *)
Definition village : Model := Eval vm_compute in
    constructed
      (GarbageCollectionModel.__init__ 2 2 2 1
         [0; 0.99; 0.99; 0; 0.99; 0.99; 0; 0; 0]).

(** One building and two trucks of speed 2 on a 2 x 2 grid. *)
Definition suburb : Model := Eval vm_compute in
    constructed
      (GarbageCollectionModel.__init__ 2 2 1 2
         [0.3; 0.99; 0; 0; 0; 0.99; 0.9; 0; 0.99]).

(** One building, a truck of speed 1 and a truck of speed 2 on a 2 x 2
    grid. *)
Definition outskirts : Model := Eval vm_compute in
    constructed
      (GarbageCollectionModel.__init__ 2 2 1 2 [0; 0.99; 0; 0; 0; 0; 0; 0; 0.99]).

(** One building that generates the float 1.1 per tick and one truck of
    speed 1, on a 2 x 2 grid. *)
Definition float_hamlet : Model :=
  mkModel 2 2 1 1
    [BuildingAgent.__init__ 0 (1, 0)%Z (binary64 1.1) 10]
    [Truck.__init__ 0 (0, 1)%Z 40 1]
    (Some (DisposalSiteAgent.__init__ (0, 0)%Z)).

(** * Properties *)

(** ** Comparisons and positions *)

Lemma Qlt_bool_iff (x y : Q) : Qlt_bool x y = true <-> x < y.
Proof.
  unfold Qlt_bool. rewrite negb_true_iff. split.
  - intros H. destruct (Qlt_le_dec x y) as [Hlt | Hle]; [exact Hlt |].
    apply Qle_bool_iff in Hle. congruence.
  - intros H. destruct (Qle_bool y x) eqn:E; [| reflexivity].
    apply Qle_bool_iff in E. lra.
Qed.

Lemma Qlt_bool_false (x y : Q) : Qlt_bool x y = false <-> y <= x.
Proof.
  unfold Qlt_bool. rewrite negb_false_iff. apply Qle_bool_iff.
Qed.

Lemma Qle_bool_false (x y : Q) : Qle_bool x y = false <-> y < x.
Proof.
  rewrite <- Qlt_bool_iff. unfold Qlt_bool.
  destruct (Qle_bool x y); simpl; split; congruence.
Qed.

Lemma pos_eqb_eq (p q : Pos) : pos_eqb p q = true <-> p = q.
Proof.
  destruct p as [a b], q as [c d]. unfold pos_eqb. simpl.
  rewrite andb_true_iff, !Z.eqb_eq. split.
  - intros [-> ->]. reflexivity.
  - intros H. injection H. auto.
Qed.

Lemma pos_eqb_refl (p : Pos) : pos_eqb p p = true.
Proof. apply pos_eqb_eq. reflexivity. Qed.

(** ** Sums over a list updated in place *)

Lemma Qsum_alter {A : Type} (g : A -> Q) (f : A -> A) (l : list A) (k : nat) (x : A) :
  l !! k = Some x ->
  Qsum (map g (alter f k l)) == Qsum (map g l) + (g (f x) - g x).
Proof.
  revert k. induction l as [| a l IH]; intros [| k] H; simpl in *; try discriminate.
  - injection H as ->. lra.
  - rewrite (IH k H). lra.
Qed.

Lemma Qsum_alter_same {A : Type} (g : A -> Q) (f : A -> A) (l : list A) (k : nat) :
  (forall x, g (f x) == g x) ->
  Qsum (map g (alter f k l)) == Qsum (map g l).
Proof.
  intros Hg. revert k. induction l as [| a l IH]; intros [| k]; simpl; try lra.
  - rewrite Hg. lra.
  - rewrite (IH k). lra.
Qed.

Lemma Qsum_app (l1 l2 : list Q) : Qsum (l1 ++ l2) == Qsum l1 + Qsum l2.
Proof. induction l1 as [| a l1 IH]; simpl; [| rewrite IH]; lra. Qed.

Lemma Forall_alter_inv {A : Type} (P : A -> Prop) (f : A -> A) (l : list A) (k : nat) :
  Forall P l -> (forall x, l !! k = Some x -> P x -> P (f x)) ->
  Forall P (alter f k l).
Proof.
  intros Hl Hf. apply Forall_lookup. intros j y Hy.
  destruct (decide (k = j)) as [-> | Hne].
  - rewrite list_lookup_alter_eq in Hy.
    destruct (l !! j) as [x |] eqn:E; simplify_eq/=.
    apply Hf; [reflexivity |].
    eapply Forall_lookup_1; eauto.
  - rewrite list_lookup_alter_ne in Hy by exact Hne.
    eapply Forall_lookup_1; eauto.
Qed.

(** ** The step of a building *)

Lemma step_static (b : BuildingAgent.t) :
  BuildingAgent.capacity (BuildingAgent.step b) = BuildingAgent.capacity b
  /\ BuildingAgent.trash_generation_rate (BuildingAgent.step b)
     = BuildingAgent.trash_generation_rate b
  /\ BuildingAgent.pos (BuildingAgent.step b) = BuildingAgent.pos b.
Proof.
  unfold BuildingAgent.step, BuildingAgent.count_wait, BuildingAgent.raise_request,
    BuildingAgent.generate.
  repeat match goal with |- context [if ?c then _ else _] => destruct c; simpl end;
    auto.
Qed.

Lemma step_level (b : BuildingAgent.t) :
  BuildingAgent.trash_level (BuildingAgent.step b)
  = BuildingAgent.trash_level (BuildingAgent.generate b).
Proof.
  unfold BuildingAgent.step, BuildingAgent.count_wait, BuildingAgent.raise_request.
  repeat match goal with |- context [if ?c then _ else _] => destruct c; simpl end;
    auto.
Qed.

Lemma step_total (b : BuildingAgent.t) :
  BuildingAgent.total_trash_generated (BuildingAgent.step b)
  = BuildingAgent.total_trash_generated (BuildingAgent.generate b).
Proof.
  unfold BuildingAgent.step, BuildingAgent.count_wait, BuildingAgent.raise_request.
  repeat match goal with |- context [if ?c then _ else _] => destruct c; simpl end;
    auto.
Qed.

(** Generation adds the same amount to the level and to the counter. *)
Lemma step_generated (b : BuildingAgent.t) :
  BuildingAgent.total_trash_generated (BuildingAgent.step b)
  - BuildingAgent.total_trash_generated b
  == BuildingAgent.trash_level (BuildingAgent.step b) - BuildingAgent.trash_level b.
Proof.
  rewrite step_total, step_level. unfold BuildingAgent.generate.
  destruct (Qlt_bool _ _); simpl; lra.
Qed.

(** After its step, a building that is at or over the threshold is requesting. *)
Lemma step_requested (b : BuildingAgent.t) :
  BuildingAgent.pickup_requested (BuildingAgent.step b) = false ->
  BuildingAgent.trash_level (BuildingAgent.step b)
  < BuildingAgent.capacity (BuildingAgent.step b) * 0.8.
Proof.
  unfold BuildingAgent.step, BuildingAgent.count_wait, BuildingAgent.raise_request.
  set (g := BuildingAgent.generate b).
  destruct (Qle_bool (BuildingAgent.capacity g * 0.8) (BuildingAgent.trash_level g)) eqn:E;
    destruct (BuildingAgent.pickup_requested g) eqn:R; simpl;
    rewrite ?R; simpl; intros H; try discriminate; try congruence.
  apply Qle_bool_false in E. exact E.
Qed.

Lemma step_latch (b : BuildingAgent.t) :
  BuildingAgent.pickup_requested b = true ->
  BuildingAgent.pickup_requested (BuildingAgent.step b) = true.
Proof.
  intros H. unfold BuildingAgent.step, BuildingAgent.count_wait,
    BuildingAgent.raise_request.
  assert (Hg : BuildingAgent.pickup_requested (BuildingAgent.generate b) = true).
  { unfold BuildingAgent.generate. destruct (Qlt_bool _ _); simpl; exact H. }
  rewrite Hg, andb_false_r. rewrite Hg. simpl. reflexivity.
Qed.

Lemma step_building_inv (b : BuildingAgent.t) :
  building_inv b -> building_inv (BuildingAgent.step b).
Proof.
  intros (Hc & Hr & H0 & Hlt & Hreq).
  destruct (step_static b) as (Ec & Er & _).
  unfold building_inv. rewrite Ec, Er.
  repeat split; try assumption.
  - rewrite step_level. unfold BuildingAgent.generate.
    destruct (Qlt_bool _ _); simpl; lra.
  - rewrite step_level. unfold BuildingAgent.generate.
    destruct (Qlt_bool _ _) eqn:E; simpl; [apply Qlt_bool_iff in E |]; lra.
  - intros R. rewrite <- Ec. apply step_requested. exact R.
Qed.

Lemma collect_building_inv (b : BuildingAgent.t) :
  building_inv b -> building_inv (snd (BuildingAgent.collect_trash b)).
Proof.
  intros (Hc & Hr & H0 & Hlt & Hreq). unfold building_inv. simpl.
  repeat split; try assumption; try lra.
Qed.

(** ** One pass through the loop of a truck's step *)

Lemma min_by_In {A : Type} (key : A -> Z) (best : A) (l : list A) :
  In (min_by key best l) (best :: l).
Proof.
  revert best. induction l as [| y l IH]; intros best; simpl.
  - left. reflexivity.
  - destruct (IH (if (key y <? key best)%Z then y else best)) as [H | H].
    + destruct (key y <? key best)%Z; rewrite <- H; auto.
    + right. right. exact H.
Qed.

Lemma move_randomly_moved (i : nat) (self : Truck.t) (r : Rng) (m : Model) :
  moved i m (fst (TruckAgent._move_randomly i self r m)).
Proof.
  unfold TruckAgent._move_randomly.
  destruct (List.filter _ _) as [| p ps]; simpl.
  - constructor.
  - destruct (choice p (p :: ps) r) as [q r']. simpl. constructor.
Qed.

Lemma try_move_effect (i : nat) (self : Truck.t) (p tp : Pos) (m m' : Model) :
  TruckAgent._try_move i self p tp m = Some m' ->
  m' = update_truck i (Truck.moved_to p) m.
Proof.
  unfold TruckAgent._try_move.
  destruct (negb (MultiGrid.out_of_bounds m p)); [| discriminate].
  destruct (negb (MultiGrid.occupied_by_truck m p) || pos_eqb p tp)%bool;
    [| discriminate].
  intros H. injection H as <-. reflexivity.
Qed.

Lemma try_move_twice_moved (i : nat) (self : Truck.t) (p q tp : Pos) (r : Rng)
    (m : Model) :
  moved i m
    (fst match TruckAgent._try_move i self p tp m with
         | Some m' => (m', r)
         | None =>
             match TruckAgent._try_move i self q tp m with
             | Some m' => (m', r)
             | None => TruckAgent._move_randomly i self r m
             end
         end).
Proof.
  destruct (TruckAgent._try_move i self p tp m) as [m1 |] eqn:E1.
  - apply try_move_effect in E1. subst m1. simpl. constructor.
  - destruct (TruckAgent._try_move i self q tp m) as [m2 |] eqn:E2.
    + apply try_move_effect in E2. subst m2. simpl. constructor.
    + apply move_randomly_moved.
Qed.

Lemma move_towards_moved (i : nat) (self : Truck.t) (tp : Pos) (r : Rng) (m : Model) :
  moved i m (fst (TruckAgent._move_towards i self tp r m)).
Proof.
  unfold TruckAgent._move_towards.
  destruct (Z.abs _ <? Z.abs _)%Z; apply try_move_twice_moved.
Qed.

Lemma moved_effect (i : nat) (self : Truck.t) (m m' : Model) :
  moved i m m' -> truck_effect i self m m'.
Proof. intros [| p]; constructor. Qed.

Lemma substep_no_truck (i : nat) (r : Rng) (m : Model) :
  trucks m !! i = None -> TruckAgent.substep i r m = (m, r).
Proof. intros H. unfold TruckAgent.substep. rewrite H. reflexivity. Qed.

Lemma substep_effect (i : nat) (self : Truck.t) (r : Rng) (m : Model) :
  trucks m !! i = Some self ->
  truck_effect i self m (fst (TruckAgent.substep i r m)).
Proof.
  intros Hself. unfold TruckAgent.substep. rewrite Hself.
  destruct (Truck.state self) eqn:St.
  - unfold TruckAgent._patrol.
    destruct (TruckAgent.buildings_needing_pickup m) as [| c cs] eqn:Hc.
    + apply moved_effect, move_randomly_moved.
    + simpl.
      set (best := min_by _ c cs).
      apply (eff_claim i self m (fst best) (snd best)); [exact St |].
      rewrite <- surjective_pairing. rewrite Hc. apply min_by_In.
  - unfold TruckAgent._collect.
    destruct (Truck.target self) as [k |] eqn:Ht.
    + destruct (buildings m !! k) as [b |] eqn:Hb; [| constructor].
      destruct (BuildingAgent.pickup_requested b) eqn:Hr; simpl.
      * destruct (pos_eqb (Truck.pos self) (BuildingAgent.pos b)) eqn:Hp; simpl.
        -- apply pos_eqb_eq in Hp.
           apply (eff_harvest i self m k b); assumption.
        -- apply moved_effect, move_towards_moved.
      * apply eff_abandon. exact St.
    + apply eff_abandon. exact St.
  - unfold TruckAgent._return_to_disposal.
    destruct (disposal_site m) as [d |] eqn:Hd; [| constructor].
    destruct (pos_eqb (Truck.pos self) (DisposalSiteAgent.pos d)) eqn:Hp; simpl.
    + apply pos_eqb_eq in Hp. apply (eff_unload i self m d); assumption.
    + apply moved_effect, move_towards_moved.
Qed.

(** ** Conservation is kept by every transition *)

Lemma effect_conservation (i : nat) (self : Truck.t) (m m' : Model) :
  trucks m !! i = Some self ->
  truck_effect i self m m' -> conservation m -> conservation m'.
Proof.
  intros Hself Heff. unfold conservation, GarbageCollectionModel.total_trash_generated,
    received, loads, levels.
  destruct Heff as [| p | k b St Hin | St | k b St Ht Hb Hr Hp | d St Hd Hp];
    simpl; intros H.
  - exact H.
  - rewrite Qsum_alter_same by (intros; reflexivity). exact H.
  - rewrite Qsum_alter_same by (intros; reflexivity). exact H.
  - rewrite Qsum_alter_same by (intros; reflexivity). exact H.
  - rewrite (Qsum_alter _ _ _ _ _ Hself).
    rewrite (Qsum_alter BuildingAgent.trash_level _ _ _ _ Hb).
    rewrite (Qsum_alter_same BuildingAgent.total_trash_generated)
      by (intros; reflexivity).
    simpl. lra.
  - rewrite (Qsum_alter _ _ _ _ _ Hself). rewrite Hd in H. simpl. lra.
Qed.

Lemma building_step_conservation (k : nat) (m : Model) :
  conservation m -> conservation (update_building k BuildingAgent.step m).
Proof.
  unfold conservation, GarbageCollectionModel.total_trash_generated,
    received, loads, levels. simpl. intros H.
  destruct (buildings m !! k) as [b |] eqn:Hb.
  - rewrite (Qsum_alter BuildingAgent.total_trash_generated _ _ _ _ Hb).
    rewrite (Qsum_alter BuildingAgent.trash_level _ _ _ _ Hb).
    pose proof (step_generated b). lra.
  - assert (E : alter BuildingAgent.step k (buildings m) = buildings m).
    { apply list_eq. intros j. destruct (decide (k = j)) as [-> | Hne].
      - rewrite list_lookup_alter_eq, Hb. reflexivity.
      - apply list_lookup_alter_ne. exact Hne. }
    rewrite E. exact H.
Qed.

(** ** The bounds on agents are kept by every transition *)

Lemma effect_agents_inv (i : nat) (self : Truck.t) (m m' : Model) :
  trucks m !! i = Some self ->
  truck_effect i self m m' -> agents_inv m -> agents_inv m'.
Proof.
  intros Hself Heff [HB HT].
  assert (Hinv : truck_inv self) by (eapply Forall_lookup_1; eauto).
  destruct Hinv as (Hcap & Hload & Hlt & Htgt).
  destruct Heff as [| p | k b St Hin | St | k b St Ht Hb Hr Hp | d St Hd Hp];
    split; simpl; try assumption.
  - apply Forall_alter_inv; [exact HT |]. intros x _ Hx. exact Hx.
  - apply Forall_alter_inv; [exact HT |]. intros x Hx _.
    rewrite Hself in Hx. injection Hx as <-.
    unfold truck_inv; simpl. repeat split; try assumption.
    + intros _. apply Hlt. congruence.
    + congruence.
  - apply Forall_alter_inv; [exact HT |]. intros x Hx _.
    rewrite Hself in Hx. injection Hx as <-.
    unfold truck_inv; simpl. repeat split; try assumption.
    intros _. apply Hlt. congruence.
  - apply Forall_alter_inv; [exact HB |]. intros x _ Hx.
    apply collect_building_inv. exact Hx.
  - assert (Hbi : building_inv b) by (eapply Forall_lookup_1; eauto).
    destruct Hbi as (_ & _ & Hb0 & _).
    apply Forall_alter_inv; [exact HT |]. intros x Hx _.
    rewrite Hself in Hx. injection Hx as <-.
    unfold truck_inv; simpl. repeat split; try assumption.
    + lra.
    + destruct (Qle_bool _ _) eqn:E; [congruence |].
      intros _. apply Qle_bool_false in E. exact E.
  - apply Forall_alter_inv; [exact HT |]. intros x Hx _.
    rewrite Hself in Hx. injection Hx as <-.
    unfold truck_inv; simpl. repeat split; try assumption.
    + lra.
    + intros _. exact Hcap.
    + intros _. apply Htgt. congruence.
Qed.

Lemma building_step_agents_inv (k : nat) (m : Model) :
  agents_inv m -> agents_inv (update_building k BuildingAgent.step m).
Proof.
  intros [HB HT]. split; simpl; [| exact HT].
  apply Forall_alter_inv; [exact HB |]. intros x _ Hx.
  apply step_building_inv. exact Hx.
Qed.

(** ** Claims stay exclusive *)

Lemma lookup_alter_cases {A : Type} (f : A -> A) (l : list A) (i j : nat) (y : A) :
  alter f i l !! j = Some y ->
  exists x, l !! j = Some x /\ ((i <> j /\ y = x) \/ (i = j /\ y = f x)).
Proof.
  intros H. destruct (decide (i = j)) as [-> | Hne].
  - rewrite list_lookup_alter_eq in H.
    destruct (l !! j) as [x |]; simplify_eq/=. exists x. auto.
  - rewrite list_lookup_alter_ne in H by exact Hne. exists y. auto.
Qed.

Lemma not_targeted (m : Model) (k j : nat) (tj : Truck.t) :
  TruckAgent.is_targeted m k = false ->
  trucks m !! j = Some tj -> Truck.target tj <> Some k.
Proof.
  unfold TruckAgent.is_targeted. intros H Hj Ht.
  assert (Hin : In tj (trucks m)).
  { apply list_elem_of_In. eapply list_elem_of_lookup_2. exact Hj. }
  assert (E : List.existsb (target_is k) (trucks m) = true).
  { apply existsb_exists. exists tj. split; [exact Hin |].
    unfold target_is. rewrite Ht. apply Nat.eqb_refl. }
  congruence.
Qed.

Lemma needing_pickup_spec (m : Model) (k : nat) (b : BuildingAgent.t) :
  In (k, b) (TruckAgent.buildings_needing_pickup m) ->
  buildings m !! k = Some b
  /\ BuildingAgent.pickup_requested b = true
  /\ TruckAgent.is_targeted m k = false.
Proof.
  unfold TruckAgent.buildings_needing_pickup. intros H.
  apply filter_In in H as [Hin Hc]. simpl in Hc.
  apply andb_true_iff in Hc as [Hr Ht]. apply negb_true_iff in Ht.
  repeat split; try assumption.
  unfold indexed in Hin. revert Hin.
  generalize (buildings m). intros l.
  assert (G : forall s, In (k, b) (combine (seq s (length l)) l) ->
                        exists j, k = (s + j)%nat /\ l !! j = Some b).
  { induction l as [| a l IH]; intros s Hin; simpl in Hin; [contradiction |].
    destruct Hin as [Hin | Hin].
    - injection Hin as <- <-. exists 0%nat. split; [lia | reflexivity].
    - destruct (IH _ Hin) as (j & -> & Hj). exists (S j). split; [lia | exact Hj]. }
  intros Hin. destruct (G _ Hin) as (j & -> & Hj). exact Hj.
Qed.

Lemma exclusive_update_weaken (i : nat) (f : Truck.t -> Truck.t) (m : Model) :
  (forall t0, Truck.target (f t0) = Truck.target t0 \/ Truck.target (f t0) = None) ->
  exclusive m -> exclusive (update_truck i f m).
Proof.
  intros Hf Hex a b k ta tb Ha Hb Hta Htb. simpl in Ha, Hb.
  apply lookup_alter_cases in Ha as (xa & Hxa & Ca).
  apply lookup_alter_cases in Hb as (xb & Hxb & Cb).
  assert (Ta : Truck.target xa = Some k).
  { destruct Ca as [[_ ->] | [_ ->]]; [exact Hta |].
    destruct (Hf xa) as [E | E]; congruence. }
  assert (Tb : Truck.target xb = Some k).
  { destruct Cb as [[_ ->] | [_ ->]]; [exact Htb |].
    destruct (Hf xb) as [E | E]; congruence. }
  exact (Hex a b k xa xb Hxa Hxb Ta Tb).
Qed.

Lemma exclusive_claim (i k : nat) (m : Model) :
  TruckAgent.is_targeted m k = false ->
  exclusive m -> exclusive (update_truck i (Truck.claim k) m).
Proof.
  intros Hfree Hex a b k' ta tb Ha Hb Hta Htb. simpl in Ha, Hb.
  apply lookup_alter_cases in Ha as (xa & Hxa & Ca).
  apply lookup_alter_cases in Hb as (xb & Hxb & Cb).
  destruct Ca as [[Na ->] | [Ea ->]], Cb as [[Nb ->] | [Eb ->]].
  - exact (Hex a b k' xa xb Hxa Hxb Hta Htb).
  - simpl in Htb. injection Htb as <-.
    exfalso. exact (not_targeted m k a xa Hfree Hxa Hta).
  - simpl in Hta. injection Hta as <-.
    exfalso. exact (not_targeted m k b xb Hfree Hxb Htb).
  - congruence.
Qed.

Lemma effect_exclusive (i : nat) (self : Truck.t) (m m' : Model) :
  truck_effect i self m m' -> exclusive m -> exclusive m'.
Proof.
  intros Heff Hex.
  destruct Heff as [| p | k b St Hin | St | k b St Ht Hb Hr Hp | d St Hd Hp].
  - exact Hex.
  - apply exclusive_update_weaken; [intros; left; reflexivity | exact Hex].
  - apply needing_pickup_spec in Hin as (_ & _ & Hfree).
    apply exclusive_claim; assumption.
  - apply exclusive_update_weaken; [intros; right; reflexivity | exact Hex].
  - apply exclusive_update_weaken; [intros; right; reflexivity | exact Hex].
  - apply exclusive_update_weaken; [intros; left; reflexivity | exact Hex].
Qed.

(** ** Every transition keeps the three invariants together *)

Lemma disposal_step_id (m : Model) :
  set_disposal_site (option_map DisposalSiteAgent.step (disposal_site m)) m = m.
Proof. destruct m as [w h nb nt bs ts [d |]]; reflexivity. Qed.

Lemma fire_invariant (tr : Transition) (r : Rng) (m : Model) :
  invariant m -> invariant (fst (fire tr r m)).
Proof.
  intros (Hc & Ha & He). destruct tr as [k | i |]; simpl.
  - split; [| split].
    + apply building_step_conservation. exact Hc.
    + apply building_step_agents_inv. exact Ha.
    + exact He.
  - destruct (trucks m !! i) as [self |] eqn:Hself.
    + pose proof (substep_effect i self r m Hself) as Heff.
      split; [| split].
      * eapply effect_conservation; eauto.
      * eapply effect_agents_inv; eauto.
      * eapply effect_exclusive; eauto.
    + rewrite substep_no_truck by exact Hself. simpl. split; [| split]; assumption.
  - rewrite disposal_step_id. split; [| split]; assumption.
Qed.

(** ** Calls to the model's step are made of transitions *)

Lemma substeps_reachable (n i : nat) (r : Rng) (m : Model) :
  reachable m -> reachable (fst (TruckAgent.substeps n i r m)).
Proof.
  revert r m. induction n as [| n IH]; intros r m H; simpl; [exact H |].
  destruct (TruckAgent.substep i r m) as [m' r'] eqn:E.
  apply IH. change m' with (fst (m', r')). rewrite <- E.
  exact (reachable_fire (TSubstep i) r m H).
Qed.

Lemma activate_reachable (a : AgentRef) (r : Rng) (m : Model) :
  reachable m -> reachable (fst (GarbageCollectionModel.activate a r m)).
Proof.
  intros H. destruct a as [k | i |].
  - exact (reachable_fire (TBuilding k) r m H).
  - simpl. unfold TruckAgent.step. destruct (trucks m !! i); [| exact H].
    apply substeps_reachable. exact H.
  - exact (reachable_fire TDisposal r m H).
Qed.

Lemma activate_all_reachable (order : list AgentRef) (r : Rng) (m : Model) :
  reachable m -> reachable (fst (GarbageCollectionModel.activate_all order r m)).
Proof.
  revert r m. induction order as [| a order IH]; intros r m H; simpl; [exact H |].
  destruct (GarbageCollectionModel.activate a r m) as [m' r'] eqn:E.
  apply IH. change m' with (fst (m', r')). rewrite <- E.
  apply activate_reachable. exact H.
Qed.

Lemma step_reachable (r : Rng) (m : Model) :
  reachable m -> reachable (fst (GarbageCollectionModel.step r m)).
Proof.
  intros H. unfold GarbageCollectionModel.step.
  destruct (GarbageCollectionModel.activation_order r m) as [order r'].
  apply activate_all_reachable. exact H.
Qed.

Lemma run_reachable (n : nat) (r : Rng) (m : Model) :
  reachable m -> reachable (fst (run n r m)).
Proof.
  revert r m. induction n as [| n IH]; intros r m H; simpl; [exact H |].
  destruct (GarbageCollectionModel.step r m) as [m' r'] eqn:E.
  apply IH. change m' with (fst (m', r')). rewrite <- E.
  apply step_reachable. exact H.
Qed.

(** ** The random source stays within its bounds *)

Lemma frac_bounds (u : Q) : 0 <= frac u /\ frac u < 1.
Proof.
  unfold frac. pose proof (Qfloor_le u) as H1. pose proof (Qlt_floor u) as H2.
  rewrite inject_Z_plus in H2. change (inject_Z 1) with 1 in H2. lra.
Qed.

Lemma random_bounds (r : Rng) : 0 <= fst (random r) /\ fst (random r) < 1.
Proof.
  destruct r as [| u r]; simpl; [lra | apply frac_bounds].
Qed.

Lemma randrange_bounds (n : Z) (r : Rng) :
  (0 < n)%Z -> (0 <= fst (randrange n r) < n)%Z.
Proof.
  intros Hn. unfold randrange.
  pose proof (random_bounds r) as [H0 H1].
  destruct (random r) as [u r']. cbn [fst] in *.
  assert (HN : 0 < inject_Z n) by (change 0 with (inject_Z 0); rewrite <- Zlt_Qlt; exact Hn).
  assert (Hlo : 0 <= u * inject_Z n) by nra.
  assert (Hhi : u * inject_Z n < inject_Z n) by nra.
  split.
  - change 0%Z with (Qfloor (inject_Z 0)). apply Qfloor_resp_le. exact Hlo.
  - rewrite Zlt_Qlt. pose proof (Qfloor_le (u * inject_Z n)). lra.
Qed.

Lemma randint_bounds (a b : Z) (r : Rng) :
  (a <= b)%Z -> (a <= fst (randint a b r) <= b)%Z.
Proof.
  intros Hab. unfold randint.
  pose proof (randrange_bounds (b - a + 1) r ltac:(lia)) as H.
  destruct (randrange (b - a + 1) r) as [k r']. simpl in *. lia.
Qed.

Lemma uniform_bounds (a b : Q) (r : Rng) :
  a <= b -> a <= fst (uniform a b r) /\ fst (uniform a b r) <= b.
Proof.
  intros Hab. unfold uniform.
  pose proof (random_bounds r) as [H0 H1].
  destruct (random r) as [u r']. simpl in *. split; nra.
Qed.

(** ** Construction establishes the invariants *)

Lemma inject_Z_between (a b x : Z) :
  (a <= x <= b)%Z -> inject_Z a <= inject_Z x /\ inject_Z x <= inject_Z b.
Proof. intros [H1 H2]. split; rewrite <- Zle_Qle; assumption. Qed.

Lemma create_building_fresh (i : nat) (r : Rng) (m : Model) :
  fresh m -> fresh (fst (GarbageCollectionModel.create_building i r m)).
Proof.
  intros (HB & HT & HR). unfold GarbageCollectionModel.create_building.
  destruct (MultiGrid.find_empty m r) as [[p |] r1]; simpl; [| repeat split; assumption].
  pose proof (uniform_bounds 0.5 2.0 r1 ltac:(lra)) as Hu.
  destruct (uniform 0.5 2.0 r1) as [rate r2]. simpl in Hu.
  pose proof (randint_bounds 8 15 r2 ltac:(lia)) as Hc.
  destruct (randint 8 15 r2) as [cap r3]. simpl in Hc. simpl.
  split; [| split; assumption]. simpl.
  apply Forall_app. split; [exact HB |]. constructor; [| constructor].
  unfold fresh_building. simpl.
  apply inject_Z_between in Hc. change (inject_Z 8) with 8 in Hc.
  change (inject_Z 15) with 15 in Hc.
  repeat split; try reflexivity; lra.
Qed.

Lemma create_truck_fresh (i : nat) (r : Rng) (m : Model) :
  fresh m -> fresh (fst (GarbageCollectionModel.create_truck i r m)).
Proof.
  intros (HB & HT & HR). unfold GarbageCollectionModel.create_truck.
  destruct (MultiGrid.find_empty m r) as [[p |] r1]; simpl; [| repeat split; assumption].
  pose proof (randint_bounds 40 60 r1 ltac:(lia)) as Hc.
  destruct (randint 40 60 r1) as [cap r2]. simpl in Hc.
  pose proof (randint_bounds 1 2 r2 ltac:(lia)) as Hs.
  destruct (randint 1 2 r2) as [spd r3]. simpl in Hs. simpl.
  split; [exact HB | split; [| exact HR]]. simpl.
  apply Forall_app. split; [exact HT |]. constructor; [| constructor].
  unfold fresh_truck. simpl.
  apply inject_Z_between in Hc. change (inject_Z 40) with 40 in Hc.
  change (inject_Z 60) with 60 in Hc.
  repeat split; try reflexivity; try lra; lia.
Qed.

Lemma create_buildings_from_fresh (ids : list nat) (r : Rng) (m : Model) :
  fresh m -> fresh (fst (GarbageCollectionModel.create_buildings_from ids r m)).
Proof.
  revert r m. induction ids as [| i ids IH]; intros r m H; simpl; [exact H |].
  pose proof (create_building_fresh i r m H) as H1.
  destruct (GarbageCollectionModel.create_building i r m) as [m' r'].
  apply IH. exact H1.
Qed.

Lemma create_trucks_from_fresh (ids : list nat) (r : Rng) (m : Model) :
  fresh m -> fresh (fst (GarbageCollectionModel.create_trucks_from ids r m)).
Proof.
  revert r m. induction ids as [| i ids IH]; intros r m H; simpl; [exact H |].
  pose proof (create_truck_fresh i r m H) as H1.
  destruct (GarbageCollectionModel.create_truck i r m) as [m' r'].
  apply IH. exact H1.
Qed.

Lemma move_to_empty_fresh (a : AgentRef) (r r' : Rng) (m m' : Model) :
  GarbageCollectionModel.move_to_empty a r m = Ok (m', r') -> fresh m -> fresh m'.
Proof.
  unfold GarbageCollectionModel.move_to_empty.
  destruct (MultiGrid.empties m) as [| e es]; [discriminate |].
  destruct (choice e (e :: es) r) as [p r1]. intros H (HB & HT & HR).
  injection H as <- <-. destruct a as [k | i |].
  - split; [| split; assumption]. simpl.
    apply Forall_alter_inv; [exact HB |]. intros x _ Hx. exact Hx.
  - split; [exact HB | split; [| exact HR]]. simpl.
    apply Forall_alter_inv; [exact HT |]. intros x _ Hx. exact Hx.
  - split; [exact HB | split; [exact HT |]].
    unfold received in *. simpl. destruct (disposal_site m); simpl; assumption.
Qed.

Lemma move_all_to_empty_fresh (l : list AgentRef) (r r' : Rng) (m m' : Model) :
  GarbageCollectionModel.move_all_to_empty l r m = Ok (m', r') -> fresh m -> fresh m'.
Proof.
  revert r m. induction l as [| a l IH]; intros r m H Hf; simpl in H.
  - injection H as <- <-. exact Hf.
  - destruct (GarbageCollectionModel.move_to_empty a r m) as [[m1 r1] | e] eqn:E;
      [| discriminate].
    eapply IH; [exact H |]. eapply move_to_empty_fresh; eauto.
Qed.

Lemma init_fresh (w h nb nt : Z) (r r' : Rng) (m : Model) :
  GarbageCollectionModel.__init__ w h nb nt r = Ok (m, r') -> fresh m.
Proof.
  unfold GarbageCollectionModel.__init__, GarbageCollectionModel._create_buildings,
    GarbageCollectionModel._create_trucks.
  set (m0 := mkModel w h nb nt [] [] None).
  assert (H0 : fresh m0) by (repeat split; constructor).
  pose proof (create_buildings_from_fresh (seq 0 (Z.to_nat (n_buildings m0))) r m0 H0) as H1.
  destruct (GarbageCollectionModel.create_buildings_from _ r m0) as [m1 r1].
  pose proof (create_trucks_from_fresh (seq 0 (Z.to_nat (n_trucks m1))) r1 m1 H1) as H2.
  destruct (GarbageCollectionModel.create_trucks_from _ r1 m1) as [m2 r2].
  simpl in H2. unfold GarbageCollectionModel._create_disposal_site.
  destruct (MultiGrid.out_of_bounds m2 _); [discriminate |].
  destruct (negb (MultiGrid.is_cell_empty m2 _)).
  - destruct (GarbageCollectionModel.move_all_to_empty _ r2 m2) as [[m3 r3] | e] eqn:E;
      [| discriminate].
    intros H. injection H as <- <-.
    apply move_all_to_empty_fresh in E; [| exact H2].
    destruct E as (HB & HT & _). repeat split; assumption.
  - intros H. injection H as <- <-.
    destruct H2 as (HB & HT & _). repeat split; assumption.
Qed.

Lemma Qsum_zero {A : Type} (g : A -> Q) (l : list A) :
  Forall (fun x => g x = 0) l -> Qsum (map g l) == 0.
Proof.
  induction 1 as [| x l Hx _ IH]; simpl; [reflexivity |]. rewrite Hx, IH. lra.
Qed.

Lemma fresh_invariant (m : Model) : fresh m -> invariant m.
Proof.
  intros (HB & HT & HR). split; [| split].
  - unfold conservation, GarbageCollectionModel.total_trash_generated, loads, levels.
    rewrite HR.
    rewrite (Qsum_zero BuildingAgent.total_trash_generated),
      (Qsum_zero BuildingAgent.trash_level), (Qsum_zero Truck.current_load).
    + lra.
    + eapply Forall_impl; [exact HT |]. intros x Hx. apply Hx.
    + eapply Forall_impl; [exact HB |]. intros x Hx. apply Hx.
    + eapply Forall_impl; [exact HB |]. intros x Hx. apply Hx.
  - split.
    + eapply Forall_impl; [exact HB |].
      intros b (Hl & Ht & Hr & Hc & Hg). unfold building_inv.
      rewrite Hl. repeat split; try lra. 
    + eapply Forall_impl; [exact HT |].
      intros t0 (Hl & Hs & Ht & Hc & Hv). unfold truck_inv.
      rewrite Hl. repeat split; try lra. intros _. exact Ht.
  - intros i j k ti tj Hi Hj Hti Htj.
    pose proof (Forall_lookup_1 _ _ _ _ HT Hi) as (_ & _ & Hn & _). congruence.
Qed.

Lemma reachable_invariant (m : Model) : reachable m -> invariant m.
Proof.
  induction 1 as [w h nb nt r r' m Hinit | tr r m _ IH].
  - apply fresh_invariant. eapply init_fresh. exact Hinit.
  - apply fire_invariant. exact IH.
Qed.

(** ** Results on executions *)

Lemma run_invariant (w h nb nt : Z) (r r0 : Rng) (m0 : Model) (n : nat) :
  GarbageCollectionModel.__init__ w h nb nt r = Ok (m0, r0) ->
  invariant (fst (run n r0 m0)).
Proof.
  intros Hinit. apply reachable_invariant, run_reachable.
  exact (reachable_init w h nb nt r r0 m0 Hinit).
Qed.



(** C5, as stated, fails: in this run a truck of capacity 40 that carries
    31.76 harvests a building holding 15.88 at the twentieth tick. *)
Lemma current_load_exceeds_capacity :
  exists (m0 : Model) (r0 : Rng) (t0 : Truck.t),
    GarbageCollectionModel.__init__ 2 2 2 1 [0; 0.99; 0.99; 0; 0.99; 0.99; 0; 0; 0]
    = Ok (m0, r0)
    /\ trucks (fst (run 20 r0 m0)) !! 0%nat = Some t0
    /\ Truck.capacity t0 == 40
    /\ Truck.current_load t0 == 47.64
    /\ ~ Truck.current_load t0 <= Truck.capacity t0.
Proof.
  eexists. eexists. eexists.
  split; [vm_compute; reflexivity |].
  split; [vm_compute; reflexivity |].
  split; [vm_compute; reflexivity |].
  split; [vm_compute; reflexivity |].
  vm_compute. intros H. apply H. reflexivity.
Qed.

(** C5, amended.  After any number of ticks every truck's load is at least
    0, and it is below the truck's capacity whenever the truck is not
    returning to the disposal site. *)
Theorem current_load_bounds
    (w h nb nt : Z) (r r0 : Rng) (m0 : Model) (n : nat) (i : nat)
    (t0 : Truck.t) :
  GarbageCollectionModel.__init__ w h nb nt r = Ok (m0, r0) ->
  trucks (fst (run n r0 m0)) !! i = Some t0 ->
  0 <= Truck.current_load t0
  /\ (Truck.state t0 <> returning -> Truck.current_load t0 < Truck.capacity t0).
Proof.
  intros Hinit Ht.
  destruct (run_invariant w h nb nt r r0 m0 n Hinit) as (_ & [_ HT] & _).
  pose proof (Forall_lookup_1 _ _ _ _ HT Ht) as (_ & H0 & Hlt & _).
  split; assumption.
Qed.

(** C7. [collect_trash] returns exactly the current fill level and leaves
    the building with level 0, no request and a wait counter of 0. *)
Theorem collect_trash_returns_all (b : BuildingAgent.t) :
  fst (BuildingAgent.collect_trash b) = BuildingAgent.trash_level b
  /\ BuildingAgent.trash_level (snd (BuildingAgent.collect_trash b)) = 0
  /\ BuildingAgent.pickup_requested (snd (BuildingAgent.collect_trash b)) = false
  /\ BuildingAgent.pickup_wait_time (snd (BuildingAgent.collect_trash b)) = 0%Z.
Proof. repeat split. Qed.

(** C9. [collect_trash] leaves the capacity, the generation rate, the
    cumulative counter, the position and the identifier as they were. *)
Theorem collect_trash_frame (b : BuildingAgent.t) :
  let b' := snd (BuildingAgent.collect_trash b) in
  BuildingAgent.capacity b' = BuildingAgent.capacity b
  /\ BuildingAgent.trash_generation_rate b' = BuildingAgent.trash_generation_rate b
  /\ BuildingAgent.total_trash_generated b' = BuildingAgent.total_trash_generated b
  /\ BuildingAgent.pos b' = BuildingAgent.pos b
  /\ BuildingAgent.unique_id b' = BuildingAgent.unique_id b.
Proof. repeat split. Qed.

(** C10. On the step that raises the request the wait counter is reset and
    then incremented: it is 1 when the step ends. *)
Theorem wait_is_one_when_raised (b : BuildingAgent.t) :
  BuildingAgent.pickup_requested b = false ->
  BuildingAgent.pickup_requested (BuildingAgent.step b) = true ->
  BuildingAgent.pickup_wait_time (BuildingAgent.step b) = 1%Z.
Proof.
  intros H0. unfold BuildingAgent.step, BuildingAgent.count_wait,
    BuildingAgent.raise_request.
  assert (Hg : BuildingAgent.pickup_requested (BuildingAgent.generate b) = false).
  { unfold BuildingAgent.generate. destruct (Qlt_bool _ _); simpl; exact H0. }
  rewrite Hg. destruct (Qle_bool _ _); simpl.
  - intros _. reflexivity.
  - rewrite Hg. congruence.
Qed.

Lemma wait_is_one_when_raised_witness :
  BuildingAgent.pickup_wait_time
    (BuildingAgent.step (BuildingAgent.mk 0 (4, 4)%Z 0 10 10 false 0 7)) = 1%Z.
Proof.
  apply wait_is_one_when_raised; reflexivity.
Defined.

(** ** The request latch *)

Lemma step_raises (b : BuildingAgent.t) :
  BuildingAgent.pickup_requested b = false ->
  BuildingAgent.pickup_requested (BuildingAgent.step b) = true ->
  BuildingAgent.capacity b * 0.8 <= BuildingAgent.trash_level (BuildingAgent.step b).
Proof.
  intros H0. rewrite step_level.
  unfold BuildingAgent.step, BuildingAgent.count_wait, BuildingAgent.raise_request.
  assert (Hg : BuildingAgent.pickup_requested (BuildingAgent.generate b) = false).
  { unfold BuildingAgent.generate. destruct (Qlt_bool _ _); simpl; exact H0. }
  assert (Hc : BuildingAgent.capacity (BuildingAgent.generate b)
               = BuildingAgent.capacity b).
  { unfold BuildingAgent.generate. destruct (Qlt_bool _ _); reflexivity. }
  rewrite Hg, Hc.
  destruct (Qle_bool _ _) eqn:E; simpl.
  - intros _. apply Qle_bool_iff in E. exact E.
  - rewrite Hg. congruence.
Qed.

Lemma effect_building (i : nat) (self : Truck.t) (m m' : Model) (k : nat)
    (b b' : BuildingAgent.t) :
  truck_effect i self m m' ->
  buildings m !! k = Some b -> buildings m' !! k = Some b' ->
  b' = b
  \/ (Truck.target self = Some k /\ Truck.state self = collecting
      /\ BuildingAgent.pickup_requested b = true
      /\ b' = snd (BuildingAgent.collect_trash b)).
Proof.
  intros Heff Hb Hb'.
  destruct Heff as [| p | k0 b0 St Hin | St | k0 b0 St Ht Hb0 Hr Hp | d St Hd Hp];
    simpl in Hb'; try (left; congruence).
  apply lookup_alter_cases in Hb' as (x & Hx & [[Hne ->] | [-> ->]]).
  - left. congruence.
  - right. rewrite Hb in Hx. injection Hx as <-.
    rewrite Hb in Hb0. injection Hb0 as <-. auto.
Qed.

(** C8. Latch correctness.  In a state reached by an execution, consider
    any transition (the step of a building, one pass through the loop of
    a truck's step, the step of the disposal site) and any building.  If
    its request flag goes from false to true, the transition is that
    building's own step and its level went from below 80% of capacity to
    at least 80%.  If the flag goes from true to false, the transition is
    the pass of a collecting truck whose target is that building, and the
    building is as [collect_trash] leaves it. *)
Theorem latch_correctness (m : Model) (tr : Transition) (r : Rng) (k : nat)
    (b b' : BuildingAgent.t) :
  reachable m ->
  buildings m !! k = Some b ->
  buildings (fst (fire tr r m)) !! k = Some b' ->
  (BuildingAgent.pickup_requested b = false ->
   BuildingAgent.pickup_requested b' = true ->
   tr = TBuilding k /\ b' = BuildingAgent.step b
   /\ BuildingAgent.trash_level b < BuildingAgent.capacity b * 0.8
   /\ BuildingAgent.capacity b * 0.8 <= BuildingAgent.trash_level b')
  /\ (BuildingAgent.pickup_requested b = true ->
      BuildingAgent.pickup_requested b' = false ->
      exists (i : nat) (self : Truck.t),
        tr = TSubstep i /\ trucks m !! i = Some self
        /\ Truck.state self = collecting /\ Truck.target self = Some k
        /\ b' = snd (BuildingAgent.collect_trash b)).
Proof.
  intros Hreach Hb Hb'.
  destruct (reachable_invariant m Hreach) as (_ & [HB _] & _).
  pose proof (Forall_lookup_1 _ _ _ _ HB Hb) as (_ & _ & _ & _ & Hbelow).
  destruct tr as [k0 | i |]; simpl in Hb'.
  - apply lookup_alter_cases in Hb' as (x & Hx & [[Hne ->] | [-> ->]]);
      rewrite Hb in Hx; injection Hx as <-.
    + split; intros; congruence.
    + split.
      * intros H0 H1. repeat split; auto. apply step_raises; assumption.
      * intros H1 H0. rewrite step_latch in H0 by exact H1. discriminate.
  - destruct (trucks m !! i) as [self |] eqn:Hself.
    + pose proof (substep_effect i self r m Hself) as Heff.
      destruct (effect_building i self m _ k b b' Heff Hb Hb')
        as [-> | (Ht & St & Hr & ->)].
      * split; intros; congruence.
      * split.
        -- simpl. intros; congruence.
        -- intros _ _. exists i, self. auto.
    + rewrite substep_no_truck in Hb' by exact Hself. simpl in Hb'.
      assert (b' = b) as -> by congruence. split; intros; congruence.
  - assert (b' = b) as -> by congruence. split; intros; congruence.
Qed.

(** ** The scheduler's shuffle *)

Lemma insert_head_Permutation {A : Type} (a b : A) (l : list A) (j : nat) :
  l !! j = Some b -> Permutation (a :: l) (b :: <[j := a]> l).
Proof.
  revert j. induction l as [| c l IH]; intros [| j] H; simpl in *; try discriminate.
  - injection H as ->. apply perm_swap.
  - apply (IH j) in H.
    transitivity (c :: a :: l); [apply perm_swap |].
    transitivity (c :: b :: <[j := a]> l); [apply perm_skip; exact H |].
    apply perm_swap.
Qed.

Lemma swap_Permutation {A : Type} (i j : nat) (l : list A) :
  Permutation (swap i j l) l.
Proof.
  unfold swap.
  destruct (l !! i) as [a |] eqn:Hi; [| reflexivity].
  destruct (l !! j) as [b |] eqn:Hj; [| reflexivity].
  revert i j Hi Hj. induction l as [| c l IH]; intros [| i] [| j] Hi Hj;
    simpl in *; try discriminate.
  - injection Hi as ->. injection Hj as ->. reflexivity.
  - injection Hi as ->. symmetry. apply insert_head_Permutation. exact Hj.
  - injection Hj as ->. symmetry. apply insert_head_Permutation. exact Hi.
  - apply perm_skip. apply IH; assumption.
Qed.

Lemma shuffle_from_Permutation {A : Type} (i : nat) (l : list A) (r : Rng) :
  Permutation (fst (shuffle_from i l r)) l.
Proof.
  revert l r. induction i as [| i IH]; intros l r; [reflexivity |].
  cbn [shuffle_from]. destruct (randrange (Z.of_nat (S (S i))) r) as [j r'].
  rewrite IH. apply swap_Permutation.
Qed.

Lemma shuffle_Permutation {A : Type} (l : list A) (r : Rng) :
  Permutation (fst (shuffle l r)) l.
Proof. apply shuffle_from_Permutation. Qed.

(** C6, as stated, fails.  In the fourth tick of this run the scheduler
    activates the truck before the building: the truck finds no request
    and wanders, and the building raises its request afterwards.  Stepping
    the building first would have let the truck claim it. *)
Lemma activation_order_is_shuffled :
  GarbageCollectionModel.__init__ 2 2 1 1 [0; 0.99; 0; 0; 0; 0] = Ok (hamlet, [])
  /\ schedule_agents (fst (run 3 [] hamlet)) = [ABuilding 0; ATruck 0; ADisposal]
  /\ fst (GarbageCollectionModel.activation_order
            (snd (run 3 [] hamlet)) (fst (run 3 [] hamlet)))
     = [ATruck 0; ADisposal; ABuilding 0]
  /\ map Truck.target
       (trucks (fst (GarbageCollectionModel.step
                       (snd (run 3 [] hamlet)) (fst (run 3 [] hamlet)))))
     = [None]
  /\ forall r' : Rng,
       fst (GarbageCollectionModel.step (snd (run 3 [] hamlet)) (fst (run 3 [] hamlet)))
       <> fst (GarbageCollectionModel.activate_all
                 (schedule_agents (fst (run 3 [] hamlet))) r' (fst (run 3 [] hamlet))).
Proof.
  split; [vm_compute; reflexivity |].
  split; [vm_compute; reflexivity |].
  split; [vm_compute; reflexivity |].
  split; [vm_compute; reflexivity |].
  intros r' H.
  apply (f_equal (fun m => map Truck.target (trucks m))) in H.
  vm_compute in H. discriminate.
Qed.

(** C6, amended.  Every call to the model's [step()] activates every agent
    of the schedule exactly once, in an order shuffled afresh by the
    scheduler (buildings, trucks and the disposal site mixed); an
    activated truck runs [speed] passes of its loop. *)
Theorem step_activates_shuffled_schedule (r : Rng) (m : Model) :
  Permutation (fst (GarbageCollectionModel.activation_order r m)) (schedule_agents m)
  /\ GarbageCollectionModel.step r m
     = GarbageCollectionModel.activate_all
         (fst (GarbageCollectionModel.activation_order r m))
         (snd (GarbageCollectionModel.activation_order r m)) m
  /\ forall (i : nat) (r1 : Rng) (m1 : Model),
       GarbageCollectionModel.activate (ATruck i) r1 m1
       = match trucks m1 !! i with
         | Some self => TruckAgent.substeps (Z.to_nat (Truck.speed self)) i r1 m1
         | None => (m1, r1)
         end.
Proof.
  split; [apply shuffle_Permutation |]. split.
  - unfold GarbageCollectionModel.step.
    destruct (GarbageCollectionModel.activation_order r m) as [order r'].
    reflexivity.
  - intros i r1 m1. reflexivity.
Qed.

(** ** One requesting building and idle trucks *)

Lemma is_targeted_idle (m : Model) (k : nat) :
  Forall idle (trucks m) -> TruckAgent.is_targeted m k = false.
Proof.
  unfold TruckAgent.is_targeted. induction 1 as [| t0 ts [_ Ht] _ IH]; simpl.
  - reflexivity.
  - unfold target_is at 1. rewrite Ht. exact IH.
Qed.

Lemma is_targeted_claimed (m : Model) (i k : nat) (ti : Truck.t) :
  trucks m !! i = Some ti -> Truck.target ti = Some k ->
  TruckAgent.is_targeted m k = true.
Proof.
  intros Hi Ht. unfold TruckAgent.is_targeted. apply existsb_exists.
  exists ti. split.
  - apply list_elem_of_In. eapply list_elem_of_lookup_2. exact Hi.
  - unfold target_is. rewrite Ht. apply Nat.eqb_refl.
Qed.

Lemma needing_pickup_single (m : Model) (b : BuildingAgent.t) :
  buildings m = [b] ->
  TruckAgent.buildings_needing_pickup m
  = if (BuildingAgent.pickup_requested b && negb (TruckAgent.is_targeted m 0))%bool
    then [(0%nat, b)] else [].
Proof.
  intros Hb. unfold TruckAgent.buildings_needing_pickup, indexed.
  rewrite Hb. reflexivity.
Qed.

Lemma moved_claimed_by (i j : nat) (m m' : Model) :
  moved j m m' -> claimed_by i m -> claimed_by i m'.
Proof.
  intros Hm (Hb & (ti & Hi & Ht) & Hidle).
  destruct Hm as [| p]; [split; [exact Hb | split; [eauto | exact Hidle]] |].
  split; [exact Hb | split].
  - simpl. destruct (decide (j = i)) as [-> | Hne].
    + exists (Truck.moved_to p ti). rewrite list_lookup_alter_eq, Hi. auto.
    + exists ti. rewrite list_lookup_alter_ne by exact Hne. auto.
  - intros j' tj Hne Hj. simpl in Hj.
    apply lookup_alter_cases in Hj as (x & Hx & [[_ ->] | [_ ->]]).
    + exact (Hidle j' x Hne Hx).
    + destruct (Hidle j' x Hne Hx) as [Hs Hn]. split; assumption.
Qed.

Lemma substep_claimed_by (i j : nat) (r : Rng) (m : Model) :
  j <> i -> claimed_by i m -> claimed_by i (fst (TruckAgent.substep j r m)).
Proof.
  intros Hne H. unfold TruckAgent.substep.
  destruct (trucks m !! j) as [self |] eqn:Hself; [| exact H].
  pose proof H as ((b & Hb & Hr) & (ti & Hi & Ht) & Hidle).
  destruct (Hidle j self Hne Hself) as [Hs _]. rewrite Hs.
  unfold TruckAgent._patrol. rewrite (needing_pickup_single m b Hb).
  rewrite (is_targeted_claimed m i 0 ti Hi Ht), andb_false_r.
  eapply moved_claimed_by; [apply move_randomly_moved | exact H].
Qed.

Lemma substeps_claimed_by (n i j : nat) (r : Rng) (m : Model) :
  j <> i -> claimed_by i m -> claimed_by i (fst (TruckAgent.substeps n j r m)).
Proof.
  intros Hne. revert r m. induction n as [| n IH]; intros r m H; simpl; [exact H |].
  pose proof (substep_claimed_by i j r m Hne H) as H1.
  destruct (TruckAgent.substep j r m) as [m' r']. apply IH. exact H1.
Qed.

Lemma activate_claimed_by (i : nat) (a : AgentRef) (r : Rng) (m : Model) :
  a <> ATruck i -> claimed_by i m ->
  claimed_by i (fst (GarbageCollectionModel.activate a r m)).
Proof.
  intros Hne H. destruct a as [k | j |]; simpl.
  - destruct H as ((b & Hb & Hr) & Hi & Hidle).
    split; [| split; assumption]. simpl. rewrite Hb.
    destruct k as [| k]; simpl.
    + exists (BuildingAgent.step b). split; [reflexivity | apply step_latch; exact Hr].
    + exists b. auto.
  - unfold TruckAgent.step. destruct (trucks m !! j); [| exact H].
    apply substeps_claimed_by; [congruence | exact H].
  - rewrite disposal_step_id. exact H.
Qed.

Lemma activate_all_claimed_by (i : nat) (order : list AgentRef) (r : Rng) (m : Model) :
  ~ In (ATruck i) order -> claimed_by i m ->
  claimed_by i (fst (GarbageCollectionModel.activate_all order r m)).
Proof.
  revert r m. induction order as [| a order IH]; intros r m Hnin H; simpl; [exact H |].
  assert (Ha : a <> ATruck i) by (intros ->; apply Hnin; left; reflexivity).
  pose proof (activate_claimed_by i a r m Ha H) as H1.
  destruct (GarbageCollectionModel.activate a r m) as [m' r'].
  apply IH; [| exact H1]. intros Hin. apply Hnin. right. exact Hin.
Qed.

(** The first truck to be activated takes the claim and keeps it. *)
Lemma step_takes_claim (i : nat) (ti : Truck.t) (b0 : BuildingAgent.t)
    (ts : list Truck.t) (r : Rng) (m : Model) :
  unclaimed b0 ts m -> Forall idle ts -> ts !! i = Some ti -> unhurried b0 ti ->
  claimed_by i (fst (TruckAgent.step i r m)).
Proof.
  intros (Hts & b & Hb & Hr & Hp) Hidle Hi Hslow.
  assert (Hfree : TruckAgent.is_targeted m 0 = false)
    by (apply is_targeted_idle; rewrite Hts; exact Hidle).
  destruct (Forall_lookup_1 _ _ _ _ Hidle Hi) as [Hs Hn].
  set (m1 := update_truck i (Truck.claim 0) m).
  assert (Hsub : TruckAgent.substep i r m = (m1, r)).
  { unfold TruckAgent.substep. rewrite Hts, Hi, Hs.
    unfold TruckAgent._patrol. rewrite (needing_pickup_single m b Hb), Hr, Hfree.
    reflexivity. }
  assert (Hi1 : trucks m1 !! i = Some (Truck.claim 0 ti)).
  { simpl. rewrite list_lookup_alter_eq, Hts, Hi. reflexivity. }
  assert (Hc1 : claimed_by i m1).
  { split; [exists b; auto | split].
    - exists (Truck.claim 0 ti). auto.
    - intros j tj Hne Hj. simpl in Hj.
      rewrite list_lookup_alter_ne in Hj by congruence.
      rewrite Hts in Hj. exact (Forall_lookup_1 _ _ _ _ Hidle Hj). }
  unfold TruckAgent.step. rewrite Hts, Hi.
  destruct Hslow as [-> | [-> Hpos]].
  - change (Z.to_nat 1) with 1%nat. simpl. rewrite Hsub. exact Hc1.
  - change (Z.to_nat 2) with 2%nat. simpl. rewrite Hsub.
    destruct (TruckAgent.substep i r m1) as [m2 r2] eqn:E2. simpl.
    change m2 with (fst (m2, r2)). rewrite <- E2.
    assert (Hb1 : buildings m1 !! 0%nat = Some b) by (simpl; rewrite Hb; reflexivity).
    unfold TruckAgent.substep. rewrite Hi1.
    cbn [Truck.state Truck.claim]. unfold TruckAgent._collect.
    cbn [Truck.target Truck.claim Truck.pos]. rewrite Hb1, Hr. cbn [negb].
    destruct (pos_eqb (Truck.pos ti) (BuildingAgent.pos b)) eqn:Ep.
    + apply pos_eqb_eq in Ep. congruence.
    + cbn [negb]. eapply moved_claimed_by; [apply move_towards_moved | exact Hc1].
Qed.

Lemma activate_unclaimed (a : AgentRef) (b0 : BuildingAgent.t) (ts : list Truck.t)
    (r : Rng) (m : Model) :
  (forall i, a <> ATruck i) -> unclaimed b0 ts m ->
  unclaimed b0 ts (fst (GarbageCollectionModel.activate a r m)).
Proof.
  intros Ha (Hts & b & Hb & Hr & Hp). destruct a as [k | j |]; simpl.
  - split; [exact Hts |]. simpl. rewrite Hb. destruct k as [| k]; simpl.
    + exists (BuildingAgent.step b). split; [reflexivity |].
      split; [apply step_latch; exact Hr |].
      destruct (step_static b) as (_ & _ & ->). exact Hp.
    + exists b. auto.
  - exfalso. exact (Ha j eq_refl).
  - rewrite disposal_step_id. split; [exact Hts | exists b; auto].
Qed.

(** A pass over an order without repetition ends with one claim as soon
    as the order holds a truck. *)
Lemma activate_all_one_claim (b0 : BuildingAgent.t) (ts : list Truck.t)
    (order : list AgentRef) (r : Rng) (m : Model) :
  NoDup order -> Forall idle ts -> Forall (unhurried b0) ts ->
  (forall i, In (ATruck i) order -> (i < length ts)%nat) ->
  unclaimed b0 ts m ->
  (exists i, In (ATruck i) order
             /\ claimed_by i (fst (GarbageCollectionModel.activate_all order r m)))
  \/ ((forall i, ~ In (ATruck i) order)
      /\ unclaimed b0 ts (fst (GarbageCollectionModel.activate_all order r m))).
Proof.
  intros Hnd Hidle Hslow. revert r m.
  induction Hnd as [| a order Hnin Hnd IH]; intros r m Hval Hun.
  - right. split; [intros i [] | exact Hun].
  - cbn [GarbageCollectionModel.activate_all].
    destruct (GarbageCollectionModel.activate a r m) as [m' r'] eqn:E.
    assert (Em : m' = fst (GarbageCollectionModel.activate a r m)) by (rewrite E; reflexivity).
    destruct a as [k | i |].
    + destruct (IH r' m') as [(i & Hin & Hc) | (Hno & Hun')].
      * intros i Hin. apply Hval. right. exact Hin.
      * rewrite Em. apply activate_unclaimed; [congruence | exact Hun].
      * left. exists i. split; [right; exact Hin | exact Hc].
      * right. split; [| exact Hun'].
        intros i [Hi | Hi]; [discriminate | exact (Hno i Hi)].
    + left. exists i. split; [left; reflexivity |].
      assert (Hlt : (i < length ts)%nat) by (apply Hval; left; reflexivity).
      destruct (lookup_lt_is_Some_2 ts i Hlt) as [ti Hi].
      apply activate_all_claimed_by.
      * intros Hin. apply Hnin. apply list_elem_of_In. exact Hin.
      * rewrite Em. simpl.
        eapply step_takes_claim; eauto.
        exact (Forall_lookup_1 _ _ _ _ Hslow Hi).
    + destruct (IH r' m') as [(i & Hin & Hc) | (Hno & Hun')].
      * intros i Hin. apply Hval. right. exact Hin.
      * rewrite Em. apply activate_unclaimed; [congruence | exact Hun].
      * left. exists i. split; [right; exact Hin | exact Hc].
      * right. split; [| exact Hun'].
        intros i [Hi | Hi]; [discriminate | exact (Hno i Hi)].
Qed.

Lemma schedule_agents_NoDup (m : Model) : NoDup (schedule_agents m).
Proof.
  unfold schedule_agents.
  apply NoDup_app. split; [| split].
  - assert (Inj eq eq ABuilding) by (intros x y E; congruence).
    apply (NoDup_fmap_2 ABuilding). apply NoDup_seq.
  - intros a Ha Hin. apply list_elem_of_fmap in Ha as (k & -> & _).
    apply elem_of_app in Hin as [Hin | Hin].
    + apply list_elem_of_fmap in Hin as (i & E & _). discriminate.
    + destruct (disposal_site m); [apply list_elem_of_singleton in Hin; discriminate |].
      inversion Hin.
  - apply NoDup_app. split; [| split].
    + assert (Inj eq eq ATruck) by (intros x y E; congruence).
      apply (NoDup_fmap_2 ATruck). apply NoDup_seq.
    + intros a Ha Hin. apply list_elem_of_fmap in Ha as (k & -> & _).
      destruct (disposal_site m); [apply list_elem_of_singleton in Hin; discriminate |].
      inversion Hin.
    + destruct (disposal_site m); [apply NoDup_singleton | apply NoDup_nil_2].
Qed.

Lemma schedule_agents_truck (m : Model) (i : nat) :
  In (ATruck i) (schedule_agents m) <-> (i < length (trucks m))%nat.
Proof.
  unfold schedule_agents. rewrite !in_app_iff, !in_map_iff. split.
  - intros [(k & E & _) | [(k & E & Hk) | H]].
    + discriminate.
    + injection E as ->. apply in_seq in Hk. lia.
    + destruct (disposal_site m); [destruct H as [H | []]; discriminate | destruct H].
  - intros H. right. left. exists i. split; [reflexivity |]. apply in_seq. lia.
Qed.

(** ** Claim exclusivity *)

(** C4, as stated, fails in its scenario.  After four ticks of this run
    the building requests a pickup and both trucks patrol without a
    target; the first truck has speed 2 and stands on the building's cell.
    In the fifth tick it claims the building in its first pass and harvests
    it in its second: when the tick ends no truck holds the claim. *)
Lemma scenario_ends_without_claim :
  GarbageCollectionModel.__init__ 2 2 1 2 [0.3; 0.99; 0; 0; 0; 0.99; 0.9; 0; 0.99]
  = Ok (suburb, [])
  /\ map BuildingAgent.pickup_requested (buildings (fst (run 4 [] suburb))) = [true]
  /\ map (fun t0 => (Truck.state t0, Truck.target t0, Truck.speed t0))
         (trucks (fst (run 4 [] suburb)))
     = [(patrolling, None, 2%Z); (patrolling, None, 2%Z)]
  /\ map Truck.target
         (trucks (fst (GarbageCollectionModel.step
                         (snd (run 4 [] suburb)) (fst (run 4 [] suburb)))))
     = [None; None].
Proof.
  split; [vm_compute; reflexivity |].
  split; [vm_compute; reflexivity |].
  split; vm_compute; reflexivity.
Qed.

Lemma step_one_claim (m : Model) (r : Rng) (b : BuildingAgent.t) (ts : list Truck.t) :
  buildings m = [b] -> trucks m = ts -> ts <> [] ->
  BuildingAgent.pickup_requested b = true ->
  Forall idle ts -> Forall (unhurried b) ts ->
  exists i, claimed_by i (fst (GarbageCollectionModel.step r m)).
Proof.
  intros Hb Hts Hne Hr Hidle Hslow.
  unfold GarbageCollectionModel.step.
  pose proof (shuffle_Permutation (schedule_agents m) r) as Hperm.
  fold (GarbageCollectionModel.activation_order r m) in Hperm.
  destruct (GarbageCollectionModel.activation_order r m) as [order r'].
  simpl in Hperm.
  assert (Hnd : NoDup order).
  { rewrite Hperm. apply schedule_agents_NoDup. }
  assert (Hval : forall i, In (ATruck i) order -> (i < length ts)%nat).
  { intros i Hin. rewrite <- Hts. apply schedule_agents_truck.
    eapply Permutation_in; [exact Hperm | exact Hin]. }
  assert (Hun : unclaimed b ts m) by (split; [exact Hts | exists b; auto]).
  destruct (activate_all_one_claim b ts order r' m Hnd Hidle Hslow Hval Hun)
    as [(i & _ & Hc) | (Hno & _)].
  - exists i. exact Hc.
  - exfalso. apply (Hno 0%nat).
    eapply Permutation_in; [symmetry; exact Hperm |].
    apply schedule_agents_truck. rewrite Hts.
    destruct ts; [congruence | simpl; lia].
Qed.

(** C4, amended.  After any number of ticks no building is the target of
    two trucks.  With two trucks that patrol without a target and a single
    building that requests a pickup, one more tick leaves exactly one truck
    with the building as its target and the other truck patrolling,
    provided that each truck has speed 1, or has speed 2 and does not
    stand on the building's cell. *)
Theorem claims_are_exclusive
    (w h nb nt : Z) (r r0 : Rng) (m0 : Model) (n : nat) :
  GarbageCollectionModel.__init__ w h nb nt r = Ok (m0, r0) ->
  let m := fst (run n r0 m0) in
  (forall (i j k : nat) (ti tj : Truck.t),
      trucks m !! i = Some ti -> trucks m !! j = Some tj ->
      Truck.target ti = Some k -> Truck.target tj = Some k -> i = j)
  /\ forall (b : BuildingAgent.t) (t0 t1 : Truck.t) (r1 : Rng),
       buildings m = [b] -> trucks m = [t0; t1] ->
       BuildingAgent.pickup_requested b = true ->
       idle t0 -> idle t1 -> unhurried b t0 -> unhurried b t1 ->
       let m' := fst (GarbageCollectionModel.step r1 m) in
       exists (i : nat) (ti : Truck.t),
         trucks m' !! i = Some ti /\ Truck.target ti = Some 0%nat
         /\ forall (j : nat) (tj : Truck.t),
              j <> i -> trucks m' !! j = Some tj ->
              Truck.state tj = patrolling /\ Truck.target tj = None.
Proof.
  intros Hinit m. split.
  - destruct (run_invariant w h nb nt r r0 m0 n Hinit) as (_ & _ & He). exact He.
  - intros b t0 t1 r1 Hb Hts Hr Hi0 Hi1 Hs0 Hs1 m'.
    destruct (step_one_claim m r1 b [t0; t1] Hb Hts ltac:(discriminate) Hr)
      as (i & _ & (ti & Hti & Htgt) & Hothers).
    + apply Forall_cons; split; [exact Hi0 |].
      apply Forall_cons; split; [exact Hi1 | apply Forall_nil_2].
    + apply Forall_cons; split; [exact Hs0 |].
      apply Forall_cons; split; [exact Hs1 | apply Forall_nil_2].
    + exists i, ti. repeat split; try assumption; eapply Hothers; eauto.
Qed.

Lemma claims_are_exclusive_witness :
  let m := fst (run 4 [] outskirts) in
  (forall (i j k : nat) (ti tj : Truck.t),
      trucks m !! i = Some ti -> trucks m !! j = Some tj ->
      Truck.target ti = Some k -> Truck.target tj = Some k -> i = j)
  /\ exists (i : nat) (ti : Truck.t),
       trucks (fst (GarbageCollectionModel.step [] m)) !! i = Some ti
       /\ Truck.target ti = Some 0%nat
       /\ forall (j : nat) (tj : Truck.t),
            j <> i -> trucks (fst (GarbageCollectionModel.step [] m)) !! j = Some tj ->
            Truck.state tj = patrolling /\ Truck.target tj = None.
Proof.
  intros m.
  pose proof (claims_are_exclusive 2 2 1 2 [0; 0.99; 0; 0; 0; 0; 0; 0; 0.99] []
                outskirts 4 ltac:(vm_compute; reflexivity)) as [Hex Hone].
  split; [exact Hex |].
  eapply (Hone _ _ _ []).
  - vm_compute. reflexivity.
  - vm_compute. reflexivity.
  - vm_compute. reflexivity.
  - split; vm_compute; reflexivity.
  - split; vm_compute; reflexivity.
  - left. vm_compute. reflexivity.
  - right. split; [vm_compute; reflexivity |]. vm_compute. discriminate.
Defined.

(** ** Construction: how many agents fit on the grid *)

Lemma pos_eqb_sym (p q : Pos) : pos_eqb p q = pos_eqb q p.
Proof.
  unfold pos_eqb. rewrite (Z.eqb_sym (fst p)), (Z.eqb_sym (snd p)). reflexivity.
Qed.

Lemma pos_eqb_neq (p q : Pos) : pos_eqb p q = false <-> p <> q.
Proof.
  rewrite <- pos_eqb_eq. destruct (pos_eqb p q); split; congruence.
Qed.

Lemma choice_In {A : Type} (e : A) (es : list A) (r : Rng) :
  In (fst (choice e (e :: es) r)) (e :: es).
Proof.
  unfold choice. destruct (randrange _ r) as [k r']. cbn [fst].
  destruct (Nat.lt_ge_cases (Z.to_nat k) (length (e :: es))) as [Hlt | Hge].
  - apply nth_In. exact Hlt.
  - rewrite nth_overflow by exact Hge. left. reflexivity.
Qed.

Lemma find_empty_None (m : Model) (r r' : Rng) :
  MultiGrid.find_empty m r = (None, r') -> MultiGrid.empties m = [] /\ r' = r.
Proof.
  unfold MultiGrid.find_empty. destruct (MultiGrid.empties m) as [| e es].
  - intros H. injection H as <-. auto.
  - destruct (choice e (e :: es) r). discriminate.
Qed.

Lemma find_empty_Some (m : Model) (r r' : Rng) (p : Pos) :
  MultiGrid.find_empty m r = (Some p, r') -> In p (MultiGrid.empties m).
Proof.
  unfold MultiGrid.find_empty. destruct (MultiGrid.empties m) as [| e es] eqn:E.
  - discriminate.
  - pose proof (choice_In e es r) as Hin.
    destruct (choice e (e :: es) r) as [q r1]. intros H. injection H as <- <-.
    exact Hin.
Qed.

(** The cells of the grid. *)
Lemma cells_In (m : Model) (x y : Z) :
  In (x, y) (MultiGrid.cells m)
  <-> (0 <= x < width m)%Z /\ (0 <= y < height m)%Z.
Proof.
  unfold MultiGrid.cells. rewrite in_flat_map. split.
  - intros (a & Ha & Hin). apply in_map_iff in Hin as (c & E & Hc).
    injection E as <- <-. apply in_seq in Ha. apply in_seq in Hc. lia.
  - intros [Hx Hy]. exists (Z.to_nat x). split; [apply in_seq; lia |].
    apply in_map_iff. exists (Z.to_nat y). split; [f_equal; lia | apply in_seq; lia].
Qed.

Lemma row_NoDup (x : nat) (s n : nat) :
  List.NoDup (map (fun y => (Z.of_nat x, Z.of_nat y)) (seq s n)).
Proof.
  apply Finite.Injective_map_NoDup; [| apply seq_NoDup].
  intros a b E. injection E. lia.
Qed.

Lemma rows_NoDup (hgt : nat) (s n : nat) :
  List.NoDup
    (flat_map (fun x => map (fun y => (Z.of_nat x, Z.of_nat y)) (seq 0 hgt)) (seq s n)).
Proof.
  revert s. induction n as [| n IH]; intros s; simpl; [constructor |].
  apply NoDup_ListNoDup. apply NoDup_app. split; [| split].
  - apply NoDup_ListNoDup. apply row_NoDup.
  - intros [a b] Ha Hin. apply list_elem_of_In in Ha, Hin.
    apply in_map_iff in Ha as (c & E & _). injection E as <- <-.
    apply in_flat_map in Hin as (x & Hx & Hin).
    apply in_map_iff in Hin as (c' & E & _). injection E as E _.
    apply in_seq in Hx. lia.
  - apply NoDup_ListNoDup. apply IH.
Qed.

Lemma cells_NoDup (m : Model) : List.NoDup (MultiGrid.cells m).
Proof. apply rows_NoDup. Qed.

Lemma rows_length (hgt : nat) (s n : nat) :
  length (flat_map (fun x => map (fun y => (Z.of_nat x, Z.of_nat y)) (seq 0 hgt))
                   (seq s n))
  = (n * hgt)%nat.
Proof.
  revert s. induction n as [| n IH]; intros s; simpl; [reflexivity |].
  rewrite length_app, length_map, length_seq, IH. reflexivity.
Qed.

Lemma cells_length (m : Model) :
  length (MultiGrid.cells m) = (Z.to_nat (width m) * Z.to_nat (height m))%nat.
Proof. apply rows_length. Qed.

(** Removing one element from a list without repetition. *)
Lemma filter_out_length (q : Pos) (l : list Pos) :
  List.NoDup l -> In q l ->
  S (length (List.filter (fun p => negb (pos_eqb q p)) l)) = length l.
Proof.
  induction 1 as [| a l Hnin Hnd IH]; intros Hin; [destruct Hin |].
  simpl. destruct (pos_eqb q a) eqn:E; simpl.
  - apply pos_eqb_eq in E. subst a. f_equal.
    f_equal. apply forallb_filter_id. apply forallb_forall.
    intros x Hx. apply negb_true_iff, pos_eqb_neq. intros ->. contradiction.
  - f_equal. apply IH. destruct Hin as [-> | Hin]; [| exact Hin].
    rewrite pos_eqb_refl in E. discriminate.
Qed.

Lemma filter_filter {A : Type} (f g : A -> bool) (l : list A) :
  List.filter (fun x => (f x && g x)%bool) l = List.filter g (List.filter f l).
Proof.
  induction l as [| a l IH]; simpl; [reflexivity |].
  destruct (f a); simpl; [destruct (g a) |]; rewrite IH; reflexivity.
Qed.

(** Emptiness of a cell, by counting. *)
Lemma existsb_count (p : Pos) (l : list Pos) :
  List.existsb (fun q => pos_eqb q p) l = negb (Nat.eqb (count_at p l) 0).
Proof.
  unfold count_at. induction l as [| a l IH]; simpl; [reflexivity |].
  destruct (pos_eqb a p); simpl; [reflexivity | exact IH].
Qed.

Lemma existsb_map {A B : Type} (f : A -> B) (g : B -> bool) (l : list A) :
  List.existsb g (map f l) = List.existsb (fun x => g (f x)) l.
Proof. induction l as [| a l IH]; simpl; [| rewrite IH]; reflexivity. Qed.

Lemma count_at_app (p : Pos) (l1 l2 : list Pos) :
  count_at p (l1 ++ l2) = (count_at p l1 + count_at p l2)%nat.
Proof. unfold count_at. rewrite List.filter_app, length_app. reflexivity. Qed.

Lemma is_cell_empty_count (m : Model) (p : Pos) :
  disposal_site m = None ->
  MultiGrid.is_cell_empty m p = Nat.eqb (count_at p (occupied m)) 0.
Proof.
  intros Hd. unfold MultiGrid.is_cell_empty, MultiGrid.occupied_by_truck, occupied.
  rewrite Hd, andb_true_r, count_at_app.
  rewrite <- (existsb_map BuildingAgent.pos (fun q => pos_eqb q p)).
  rewrite <- (existsb_map Truck.pos (fun q => pos_eqb q p)).
  rewrite !existsb_count, !negb_involutive.
  destruct (count_at p (map BuildingAgent.pos (buildings m)));
    destruct (count_at p (map Truck.pos (trucks m))); reflexivity.
Qed.

Lemma count_at_NoDup (p : Pos) (l : list Pos) :
  List.NoDup l -> (count_at p l <= 1)%nat.
Proof.
  unfold count_at. induction 1 as [| a l Hnin Hnd IH]; simpl; [lia |].
  destruct (pos_eqb a p) eqn:E; [| exact IH]. simpl.
  apply pos_eqb_eq in E. subst a.
  assert (H0 : List.filter (fun q => pos_eqb q p) l = []).
  { destruct (List.filter _ l) as [| x xs] eqn:F; [reflexivity |].
    assert (Hx : In x (List.filter (fun q => pos_eqb q p) l)) by (rewrite F; left; reflexivity).
    apply filter_In in Hx as [Hx Ex]. apply pos_eqb_eq in Ex. subst x. contradiction. }
  rewrite H0. simpl. lia.
Qed.

Lemma count_at_zero (p : Pos) (l : list Pos) :
  count_at p l = 0%nat <-> ~ In p l.
Proof.
  unfold count_at. induction l as [| a l IH]; simpl; [tauto |].
  destruct (pos_eqb a p) eqn:E; simpl.
  - apply pos_eqb_eq in E. subst a. split; [discriminate | intros H; exfalso; auto].
  - apply pos_eqb_neq in E. rewrite IH. split; [intros H [H1 | H1]; auto | auto].
Qed.

Lemma indexed_filter_length {A : Type} (f : A -> bool) (l : list A) (s : nat) :
  length (List.filter (fun ka => f (snd ka)) (combine (seq s (length l)) l))
  = length (List.filter f l).
Proof.
  revert s. induction l as [| a l IH]; intros s; simpl; [reflexivity |].
  destruct (f a); simpl; rewrite IH; reflexivity.
Qed.

Lemma cell_contents_length (m : Model) (p : Pos) :
  disposal_site m = None ->
  length (GarbageCollectionModel.cell_contents m p) = count_at p (occupied m).
Proof.
  intros Hd. unfold GarbageCollectionModel.cell_contents, occupied, indexed.
  rewrite Hd, app_nil_r, length_app, !length_map, count_at_app.
  rewrite (indexed_filter_length (fun b => pos_eqb (BuildingAgent.pos b) p)).
  rewrite (indexed_filter_length (fun t0 => pos_eqb (Truck.pos t0) p)).
  unfold count_at. f_equal.
  - induction (buildings m) as [| b l IH]; simpl; [reflexivity |].
    destruct (pos_eqb (BuildingAgent.pos b) p); simpl; rewrite IH; reflexivity.
  - induction (trucks m) as [| b l IH]; simpl; [reflexivity |].
    destruct (pos_eqb (Truck.pos b) p); simpl; rewrite IH; reflexivity.
Qed.

Lemma same_grid_refl (m : Model) : same_grid m m.
Proof. repeat split. Qed.

Lemma same_grid_trans (m1 m2 m3 : Model) :
  same_grid m1 m2 -> same_grid m2 m3 -> same_grid m1 m3.
Proof.
  intros (A1 & A2 & A3 & A4) (B1 & B2 & B3 & B4).
  repeat split; congruence.
Qed.

Lemma same_grid_cells (m m' : Model) :
  same_grid m m' -> MultiGrid.cells m' = MultiGrid.cells m.
Proof. intros (Hw & Hh & _). unfold MultiGrid.cells. rewrite Hw, Hh. reflexivity. Qed.

Lemma empties_NoDup (m : Model) : List.NoDup (MultiGrid.empties m).
Proof. apply List.NoDup_filter, cells_NoDup. Qed.

Lemma empties_after_placing (m m' : Model) (p : Pos) :
  same_grid m m' ->
  (forall q, MultiGrid.is_cell_empty m' q
             = (MultiGrid.is_cell_empty m q && negb (pos_eqb p q))%bool) ->
  In p (MultiGrid.empties m) ->
  S (length (MultiGrid.empties m')) = length (MultiGrid.empties m).
Proof.
  intros Hg Hq Hin. unfold MultiGrid.empties at 1.
  rewrite (same_grid_cells m m' Hg).
  rewrite (List.filter_ext _ _ Hq), filter_filter.
  apply filter_out_length; [apply empties_NoDup | exact Hin].
Qed.

Lemma empties_free (m : Model) (p : Pos) :
  disposal_site m = None -> In p (MultiGrid.empties m) -> ~ In p (occupied m).
Proof.
  intros Hd Hin. apply filter_In in Hin as [_ He].
  rewrite (is_cell_empty_count m p Hd) in He. apply Nat.eqb_eq in He.
  apply count_at_zero. exact He.
Qed.

(** One turn of the loop of [_create_buildings]. *)
Lemma create_building_spec (i : nat) (r : Rng) (m : Model) :
  creating m ->
  let m' := fst (GarbageCollectionModel.create_building i r m) in
  (MultiGrid.empties m = [] /\ m' = m)
  \/ (creating m' /\ same_grid m m' /\ trucks m' = trucks m
      /\ length (buildings m') = S (length (buildings m))
      /\ S (length (MultiGrid.empties m')) = length (MultiGrid.empties m)).
Proof.
  intros [Hd Hnd]. unfold GarbageCollectionModel.create_building.
  destruct (MultiGrid.find_empty m r) as [[p |] r1] eqn:E.
  - right. apply find_empty_Some in E.
    destruct (uniform 0.5 2.0 r1) as [rate r2].
    destruct (randint 8 15 r2) as [cap r3]. simpl.
    split; [| split; [| split; [| split]]].
    + split; [exact Hd |].
      unfold occupied. simpl. rewrite map_app. simpl.
      eapply Permutation_NoDup; [| apply (List.NoDup_cons p (empties_free m p Hd E) Hnd)].
      unfold occupied. rewrite <- app_assoc. simpl. apply Permutation_middle.
    + repeat split.
    + reflexivity.
    + rewrite length_app. simpl. lia.
    + apply (empties_after_placing _ _ p); [repeat split | | exact E].
      intros q. unfold MultiGrid.is_cell_empty, MultiGrid.occupied_by_truck. simpl.
      rewrite existsb_app. simpl.
      destruct (List.existsb _ (buildings m)), (List.existsb _ (trucks m)),
        (disposal_site m), (pos_eqb p q); simpl; try reflexivity;
        destruct (negb _); reflexivity.
  - left. apply find_empty_None in E as [E _]. split; [exact E | reflexivity].
Qed.

(** One turn of the loop of [_create_trucks]. *)
Lemma create_truck_spec (i : nat) (r : Rng) (m : Model) :
  creating m ->
  let m' := fst (GarbageCollectionModel.create_truck i r m) in
  (MultiGrid.empties m = [] /\ m' = m)
  \/ (creating m' /\ same_grid m m' /\ buildings m' = buildings m
      /\ length (trucks m') = S (length (trucks m))
      /\ S (length (MultiGrid.empties m')) = length (MultiGrid.empties m)).
Proof.
  intros [Hd Hnd]. unfold GarbageCollectionModel.create_truck.
  destruct (MultiGrid.find_empty m r) as [[p |] r1] eqn:E.
  - right. apply find_empty_Some in E.
    destruct (randint 40 60 r1) as [cap r2].
    destruct (randint 1 2 r2) as [spd r3]. simpl.
    split; [| split; [| split; [| split]]].
    + split; [exact Hd |].
      unfold occupied. simpl. rewrite map_app. simpl.
      eapply Permutation_NoDup; [| apply (List.NoDup_cons p (empties_free m p Hd E) Hnd)].
      unfold occupied. rewrite app_assoc. apply Permutation_cons_append.
    + repeat split.
    + reflexivity.
    + rewrite length_app. simpl. lia.
    + apply (empties_after_placing _ _ p); [repeat split | | exact E].
      intros q. unfold MultiGrid.is_cell_empty, MultiGrid.occupied_by_truck. simpl.
      rewrite existsb_app. simpl.
      destruct (List.existsb _ (buildings m)), (List.existsb _ (trucks m)),
        (disposal_site m), (pos_eqb p q); simpl; try reflexivity;
        destruct (negb _); reflexivity.
  - left. apply find_empty_None in E as [E _]. split; [exact E | reflexivity].
Qed.

Lemma create_buildings_from_spec (ids : list nat) (r : Rng) (m : Model) :
  creating m ->
  let m' := fst (GarbageCollectionModel.create_buildings_from ids r m) in
  creating m' /\ same_grid m m' /\ trucks m' = trucks m
  /\ length (MultiGrid.empties m') = (length (MultiGrid.empties m) - length ids)%nat
  /\ length (buildings m')
     = (length (buildings m) + Nat.min (length ids) (length (MultiGrid.empties m)))%nat.
Proof.
  revert r m. induction ids as [| i ids IH]; intros r m Hc; cbn zeta.
  - simpl. repeat split; try apply Hc; lia.
  - cbn [GarbageCollectionModel.create_buildings_from].
    pose proof (create_building_spec i r m Hc) as Hs. cbn zeta in Hs.
    destruct (GarbageCollectionModel.create_building i r m) as [m1 r1].
    cbn [fst] in Hs.
    destruct Hs as [[He ->] | (Hc1 & Hg1 & Ht1 & Hb1 & He1)].
    + destruct (IH r1 m Hc) as (A & B & C & D & E).
      repeat split; try assumption; try apply A; try apply B.
      * rewrite D, He. cbn [length]. lia.
      * rewrite E, He. cbn [length]. lia.
    + destruct (IH r1 m1 Hc1) as (A & B & C & D & E).
      split; [exact A | split; [eapply same_grid_trans; eauto | split; [congruence |]]].
      split.
      * rewrite D. cbn [length]. lia.
      * rewrite E, Hb1. cbn [length]. lia.
Qed.

Lemma create_trucks_from_spec (ids : list nat) (r : Rng) (m : Model) :
  creating m ->
  let m' := fst (GarbageCollectionModel.create_trucks_from ids r m) in
  creating m' /\ same_grid m m' /\ buildings m' = buildings m
  /\ length (MultiGrid.empties m') = (length (MultiGrid.empties m) - length ids)%nat
  /\ length (trucks m')
     = (length (trucks m) + Nat.min (length ids) (length (MultiGrid.empties m)))%nat.
Proof.
  revert r m. induction ids as [| i ids IH]; intros r m Hc; cbn zeta.
  - simpl. repeat split; try apply Hc; lia.
  - cbn [GarbageCollectionModel.create_trucks_from].
    pose proof (create_truck_spec i r m Hc) as Hs. cbn zeta in Hs.
    destruct (GarbageCollectionModel.create_truck i r m) as [m1 r1].
    cbn [fst] in Hs.
    destruct Hs as [[He ->] | (Hc1 & Hg1 & Ht1 & Hb1 & He1)].
    + destruct (IH r1 m Hc) as (A & B & C & D & E).
      repeat split; try assumption; try apply A; try apply B.
      * rewrite D, He. cbn [length]. lia.
      * rewrite E, He. cbn [length]. lia.
    + destruct (IH r1 m1 Hc1) as (A & B & C & D & E).
      split; [exact A | split; [eapply same_grid_trans; eauto | split; [congruence |]]].
      split.
      * rewrite D. cbn [length]. lia.
      * rewrite E, Hb1. cbn [length]. lia.
Qed.

Lemma origin_in_bounds (m : Model) :
  (0 < width m)%Z -> (0 < height m)%Z ->
  MultiGrid.out_of_bounds m (0%Z, 0%Z) = false.
Proof.
  intros Hw Hh. unfold MultiGrid.out_of_bounds. simpl.
  destruct (Z.leb_spec (width m) 0); [lia |].
  destruct (Z.leb_spec (height m) 0); [lia |]. reflexivity.
Qed.

Lemma move_to_empty_lengths (a : AgentRef) (r r' : Rng) (m m' : Model) :
  GarbageCollectionModel.move_to_empty a r m = Ok (m', r') ->
  length (buildings m') = length (buildings m)
  /\ length (trucks m') = length (trucks m).
Proof.
  unfold GarbageCollectionModel.move_to_empty.
  destruct (MultiGrid.empties m) as [| e es]; [discriminate |].
  destruct (choice e (e :: es) r) as [p r1]. intros H. injection H as <- <-.
  destruct a as [k | i |]; simpl; rewrite ?length_alter; auto.
Qed.

(** With a free cell left, the disposal site is created. *)
Lemma create_disposal_site_ok (r : Rng) (m : Model) :
  creating m -> (0 < width m)%Z -> (0 < height m)%Z ->
  MultiGrid.empties m <> [] ->
  exists m' r',
    GarbageCollectionModel._create_disposal_site r m = Ok (m', r')
    /\ length (buildings m') = length (buildings m)
    /\ length (trucks m') = length (trucks m).
Proof.
  intros [Hd Hnd] Hw Hh Hne. unfold GarbageCollectionModel._create_disposal_site.
  rewrite (origin_in_bounds m Hw Hh).
  destruct (MultiGrid.is_cell_empty m (0%Z, 0%Z)); simpl.
  - eexists. eexists. split; [reflexivity |]. simpl. auto.
  - pose proof (cell_contents_length m (0%Z, 0%Z) Hd) as Hlen.
    pose proof (count_at_NoDup (0%Z, 0%Z) (occupied m) Hnd) as Hle.
    destruct (GarbageCollectionModel.cell_contents m (0%Z, 0%Z)) as [| a [| a' l]].
    + simpl. eexists. eexists. split; [reflexivity |]. simpl. auto.
    + cbn [GarbageCollectionModel.move_all_to_empty].
      destruct (GarbageCollectionModel.move_to_empty a r m) as [[m1 r1] | e] eqn:E.
      * apply move_to_empty_lengths in E as [Hb Ht].
        eexists. eexists. split; [reflexivity |]. simpl. auto.
      * exfalso. unfold GarbageCollectionModel.move_to_empty in E.
        destruct (MultiGrid.empties m) as [| e0 es]; [congruence |].
        destruct (choice e0 (e0 :: es) r). discriminate.
    + simpl in Hlen. lia.
Qed.

(** With every cell taken, clearing the corner raises. *)
Lemma create_disposal_site_full (r : Rng) (m : Model) :
  creating m -> (0 < width m)%Z -> (0 < height m)%Z ->
  MultiGrid.empties m = [] ->
  GarbageCollectionModel._create_disposal_site r m = Raised NoEmptyCells.
Proof.
  intros [Hd Hnd] Hw Hh He. unfold GarbageCollectionModel._create_disposal_site.
  rewrite (origin_in_bounds m Hw Hh).
  assert (Hfull : MultiGrid.is_cell_empty m (0%Z, 0%Z) = false).
  { destruct (MultiGrid.is_cell_empty m (0%Z, 0%Z)) eqn:E; [| reflexivity].
    assert (Hin : In (0%Z, 0%Z) (MultiGrid.empties m)).
    { apply filter_In. split; [apply cells_In; lia | exact E]. }
    rewrite He in Hin. destruct Hin. }
  rewrite Hfull. simpl.
  pose proof (cell_contents_length m (0%Z, 0%Z) Hd) as Hlen.
  rewrite (is_cell_empty_count m _ Hd) in Hfull. apply Nat.eqb_neq in Hfull.
  destruct (GarbageCollectionModel.cell_contents m (0%Z, 0%Z)) as [| a l].
  - simpl in Hlen. congruence.
  - cbn [GarbageCollectionModel.move_all_to_empty].
    unfold GarbageCollectionModel.move_to_empty. rewrite He. reflexivity.
Qed.

Lemma empties_of_empty_grid (w h nb nt : Z) :
  MultiGrid.empties (mkModel w h nb nt [] [] None)
  = MultiGrid.cells (mkModel w h nb nt [] [] None).
Proof.
  unfold MultiGrid.empties. apply forallb_filter_id. apply forallb_forall.
  intros q _. reflexivity.
Qed.

(** C3, as stated, fails: a building count of 0 is not a positive integer,
    and the model is constructed all the same. *)
Lemma zero_buildings_are_accepted :
  ~ (0 < 0)%Z
  /\ exists (m : Model) (r' : Rng),
       GarbageCollectionModel.__init__ 20 20 0 2 [] = Ok (m, r')
       /\ buildings m = [] /\ length (trucks m) = 2%nat.
Proof.
  split; [lia |]. eexists. eexists.
  split; [vm_compute; reflexivity |]. split; reflexivity.
Qed.

(** C3, amended.  Construction checks nothing beforehand and the source has
    no [ConfigurationError].  On a grid of positive width and height, a
    count that is not positive creates no agent, and construction succeeds
    with exactly the requested buildings and trucks whenever they leave a
    cell free; otherwise it fails with the grid's "no empty cells"
    exception, raised while the corner is cleared for the disposal site.
    A call to [step()] always returns. *)
Theorem construction_outcome (w h nb nt : Z) (r : Rng) :
  (0 < w)%Z -> (0 < h)%Z ->
  (if (Z.max 0 nb + Z.max 0 nt <? w * h)%Z
   then exists (m : Model) (r' : Rng),
          GarbageCollectionModel.__init__ w h nb nt r = Ok (m, r')
          /\ Z.of_nat (length (buildings m)) = Z.max 0 nb
          /\ Z.of_nat (length (trucks m)) = Z.max 0 nt
   else GarbageCollectionModel.__init__ w h nb nt r = Raised NoEmptyCells)
  /\ forall (r1 : Rng) (m1 : Model),
       exists (m2 : Model) (r2 : Rng),
         GarbageCollectionModel.step r1 m1 = (m2, r2).
Proof.
  intros Hw Hh. split.
  2: { intros r1 m1. destruct (GarbageCollectionModel.step r1 m1) as [m2 r2].
       exists m2, r2. reflexivity. }
  unfold GarbageCollectionModel.__init__, GarbageCollectionModel._create_buildings,
    GarbageCollectionModel._create_trucks.
  set (m0 := mkModel w h nb nt [] [] None).
  assert (Hc0 : creating m0) by (split; [reflexivity | constructor]).
  assert (HE0 : Z.of_nat (length (MultiGrid.empties m0)) = (w * h)%Z).
  { unfold m0. rewrite empties_of_empty_grid, cells_length. simpl.
    rewrite Nat2Z.inj_mul, !Z2Nat.id by lia. reflexivity. }
  pose proof (create_buildings_from_spec (seq 0 (Z.to_nat (n_buildings m0))) r m0 Hc0)
    as Hs1. cbn zeta in Hs1.
  destruct (GarbageCollectionModel.create_buildings_from _ r m0) as [m1 r1].
  cbn [fst] in Hs1. destruct Hs1 as (Hc1 & Hg1 & Ht1 & He1 & Hb1).
  pose proof (create_trucks_from_spec (seq 0 (Z.to_nat (n_trucks m1))) r1 m1 Hc1)
    as Hs2. cbn zeta in Hs2.
  destruct (GarbageCollectionModel.create_trucks_from _ r1 m1) as [m2 r2].
  cbn [fst] in Hs2. destruct Hs2 as (Hc2 & Hg2 & Hb2 & He2 & Ht2).
  pose proof (same_grid_trans _ _ _ Hg1 Hg2) as (Hw2 & Hh2 & _ & _).
  destruct Hg1 as (_ & _ & _ & Hnt1).
  rewrite length_seq in He1, Hb1, He2, Ht2.
  rewrite Hnt1 in He2, Ht2. simpl in He1, Hb1, He2, Ht2, Hw2, Hh2, Ht1.
  rewrite Ht1 in Ht2. simpl in Ht2.
  destruct (Z.ltb_spec (Z.max 0 nb + Z.max 0 nt) (w * h)) as [Hfit | Hfull].
  - destruct (create_disposal_site_ok r2 m2 Hc2) as (m3 & r3 & Hok & Hb3 & Ht3).
    + rewrite Hw2. exact Hw.
    + rewrite Hh2. exact Hh.
    + intros E. rewrite E in He2. simpl in He2. lia.
    + exists m3, r3. split; [exact Hok |]. rewrite Hb2 in Hb3. split; lia.
  - apply create_disposal_site_full.
    + exact Hc2.
    + rewrite Hw2. exact Hw.
    + rewrite Hh2. exact Hh.
    + destruct (MultiGrid.empties m2); [reflexivity |]. simpl in He2. lia.
Qed.

Lemma construction_outcome_witness :
  (exists (m : Model) (r' : Rng),
      GarbageCollectionModel.__init__ 20 20 0 2 [] = Ok (m, r')
      /\ Z.of_nat (length (buildings m)) = 0%Z
      /\ Z.of_nat (length (trucks m)) = 2%Z)
  /\ GarbageCollectionModel.__init__ 2 1 1 1 [] = Raised NoEmptyCells.
Proof.
  split.
  - exact (proj1 (construction_outcome 20 20 0 2 [] ltac:(lia) ltac:(lia))).
  - exact (proj1 (construction_outcome 2 1 1 1 [] ltac:(lia) ltac:(lia))).
Defined.

(** ** The results at work on the sample towns *)


Lemma current_load_bounds_witness :
  exists t0 : Truck.t,
    trucks (fst (run 20 [] village)) !! 0%nat = Some t0
    /\ 0 <= Truck.current_load t0
    /\ (Truck.state t0 <> returning -> Truck.current_load t0 < Truck.capacity t0).
Proof.
  eexists. split; [vm_compute; reflexivity |].
  apply (current_load_bounds 2 2 2 1 [0; 0.99; 0.99; 0; 0.99; 0.99; 0; 0; 0] []
           village 20 0); vm_compute; reflexivity.
Defined.

Lemma latch_correctness_witness :
  exists b b' : BuildingAgent.t,
    buildings (fst (run 3 [] hamlet)) !! 0%nat = Some b
    /\ buildings (fst (fire (TBuilding 0) [] (fst (run 3 [] hamlet)))) !! 0%nat
       = Some b'
    /\ BuildingAgent.pickup_requested b = false
    /\ BuildingAgent.pickup_requested b' = true
    /\ b' = BuildingAgent.step b
    /\ BuildingAgent.trash_level b < BuildingAgent.capacity b * 0.8
    /\ BuildingAgent.capacity b * 0.8 <= BuildingAgent.trash_level b'.
Proof.
  eexists. eexists.
  split; [vm_compute; reflexivity |].
  split; [vm_compute; reflexivity |].
  split; [reflexivity |]. split; [reflexivity |].
  refine (proj2 (proj1 (latch_correctness (fst (run 3 [] hamlet)) (TBuilding 0) [] 0
                          _ _ _ _ _) _ _)).
  - apply run_reachable.
    apply (reachable_init 2 2 1 1 [0; 0.99; 0; 0; 0; 0] [] hamlet).
    vm_compute. reflexivity.
  - vm_compute. reflexivity.
  - vm_compute. reflexivity.
  - reflexivity.
  - reflexivity.
Defined.

(** * Further properties of the code *)

(** ** What construction builds *)

Lemma in_grid_bounds (m : Model) (p : Pos) :
  in_grid (width m) (height m) p <-> MultiGrid.out_of_bounds m p = false.
Proof.
  unfold in_grid, MultiGrid.out_of_bounds.
  rewrite !orb_false_iff, !Z.ltb_ge, !Z.leb_gt. lia.
Qed.

Lemma empties_in_grid (m : Model) (p : Pos) :
  In p (MultiGrid.empties m) -> in_grid (width m) (height m) p.
Proof.
  intros H. apply filter_In in H as [H _]. destruct p as [x y].
  apply cells_In in H. exact H.
Qed.

Lemma create_building_built (i : nat) (r : Rng) (m : Model) :
  just_built m -> just_built (fst (GarbageCollectionModel.create_building i r m)).
Proof.
  intros [HB HT]. unfold GarbageCollectionModel.create_building.
  destruct (MultiGrid.find_empty m r) as [[p |] r1] eqn:E; [| split; assumption].
  apply find_empty_Some, empties_in_grid in E.
  pose proof (uniform_bounds 0.5 2.0 r1 ltac:(lra)) as Hu.
  destruct (uniform 0.5 2.0 r1) as [rate r2]. cbn [fst] in Hu.
  pose proof (randint_bounds 8 15 r2 ltac:(lia)) as Hc.
  destruct (randint 8 15 r2) as [cap r3]. cbn [fst] in Hc.
  split; simpl; [| exact HT].
  apply Forall_app. split; [exact HB |]. apply Forall_singleton.
  exists i, p, rate, cap. destruct E as [[? ?] [? ?]].
  repeat split; try assumption; try lia; lra.
Qed.

Lemma create_truck_built (i : nat) (r : Rng) (m : Model) :
  just_built m -> just_built (fst (GarbageCollectionModel.create_truck i r m)).
Proof.
  intros [HB HT]. unfold GarbageCollectionModel.create_truck.
  destruct (MultiGrid.find_empty m r) as [[p |] r1] eqn:E; [| split; assumption].
  apply find_empty_Some, empties_in_grid in E.
  pose proof (randint_bounds 40 60 r1 ltac:(lia)) as Hc.
  destruct (randint 40 60 r1) as [cap r2]. cbn [fst] in Hc.
  pose proof (randint_bounds 1 2 r2 ltac:(lia)) as Hs.
  destruct (randint 1 2 r2) as [spd r3]. cbn [fst] in Hs.
  split; simpl; [exact HB |].
  apply Forall_app. split; [exact HT |]. apply Forall_singleton.
  exists i, p, cap, spd. destruct E as [[? ?] [? ?]].
  repeat split; try assumption; lia.
Qed.

Lemma create_buildings_from_built (ids : list nat) (r : Rng) (m : Model) :
  just_built m ->
  just_built (fst (GarbageCollectionModel.create_buildings_from ids r m)).
Proof.
  revert r m. induction ids as [| i ids IH]; intros r m H; simpl; [exact H |].
  pose proof (create_building_built i r m H) as H1.
  destruct (GarbageCollectionModel.create_building i r m) as [m' r'].
  apply IH. exact H1.
Qed.

Lemma create_trucks_from_built (ids : list nat) (r : Rng) (m : Model) :
  just_built m ->
  just_built (fst (GarbageCollectionModel.create_trucks_from ids r m)).
Proof.
  revert r m. induction ids as [| i ids IH]; intros r m H; simpl; [exact H |].
  pose proof (create_truck_built i r m H) as H1.
  destruct (GarbageCollectionModel.create_truck i r m) as [m' r'].
  apply IH. exact H1.
Qed.

Lemma move_to_empty_built (a : AgentRef) (r r' : Rng) (m m' : Model) :
  GarbageCollectionModel.move_to_empty a r m = Ok (m', r') ->
  just_built m -> just_built m'.
Proof.
  unfold GarbageCollectionModel.move_to_empty.
  destruct (MultiGrid.empties m) as [| e es] eqn:E; [discriminate |].
  assert (Hin : In (fst (choice e (e :: es) r)) (MultiGrid.empties m))
    by (rewrite E; apply choice_In).
  apply empties_in_grid in Hin.
  destruct (choice e (e :: es) r) as [p r1]. cbn [fst] in Hin.
  intros H [HB HT]. injection H as <- <-. destruct a as [k | i |].
  - split; simpl; [| exact HT].
    apply Forall_alter_inv; [exact HB |].
    intros x _ (uid & q & rate & cap & -> & _ & Hc & Hr).
    exists uid, p, rate, cap. destruct Hin as [[? ?] [? ?]].
    destruct Hc, Hr. repeat split; assumption.
  - split; simpl; [exact HB |].
    apply Forall_alter_inv; [exact HT |].
    intros x _ (uid & q & cap & spd & -> & _ & Hc & Hs).
    exists uid, p, cap, spd. destruct Hin as [[? ?] [? ?]].
    destruct Hc. repeat split; assumption.
  - split; assumption.
Qed.

Lemma indexed_In {A : Type} (l : list A) (k : nat) (x : A) :
  In (k, x) (indexed l) -> l !! k = Some x.
Proof.
  unfold indexed.
  assert (G : forall s, In (k, x) (combine (seq s (length l)) l) ->
                        exists j, k = (s + j)%nat /\ l !! j = Some x).
  { induction l as [| a l IH]; intros s Hin; simpl in Hin; [contradiction |].
    destruct Hin as [Hin | Hin].
    - injection Hin as <- <-. exists 0%nat. split; [lia | reflexivity].
    - destruct (IH _ Hin) as (j & -> & Hj). exists (S j). split; [lia | exact Hj]. }
  intros Hin. destruct (G _ Hin) as (j & -> & Hj). exact Hj.
Qed.

Lemma cell_contents_In (m : Model) (p : Pos) (a : AgentRef) :
  disposal_site m = None ->
  In a (GarbageCollectionModel.cell_contents m p) ->
  (exists k b, a = ABuilding k /\ buildings m !! k = Some b
               /\ BuildingAgent.pos b = p)
  \/ (exists i t0, a = ATruck i /\ trucks m !! i = Some t0 /\ Truck.pos t0 = p).
Proof.
  intros Hd. unfold GarbageCollectionModel.cell_contents. rewrite Hd, app_nil_r.
  rewrite in_app_iff, !in_map_iff.
  intros [([k b] & <- & Hin) | ([i t0] & <- & Hin)];
    apply filter_In in Hin as [Hin Hp]; apply indexed_In in Hin;
    apply pos_eqb_eq in Hp; simpl in *; [left | right]; eauto.
Qed.

Lemma In_insert {A : Type} (l : list A) (k : nat) (p x : A) :
  In x (<[k := p]> l) -> x = p \/ In x l.
Proof.
  revert k. induction l as [| a l IH]; intros [| k] H; simpl in *; try tauto.
  - destruct H as [H | H]; auto.
  - destruct H as [H | H]; auto. destruct (IH k H); auto.
Qed.

(** Moving one occupant of a list without repetition to a fresh place. *)
Lemma insert_NoDup {A : Type} (l : list A) (k : nat) (p q : A) :
  List.NoDup l -> l !! k = Some q -> ~ In p l ->
  List.NoDup (<[k := p]> l) /\ ~ In q (<[k := p]> l).
Proof.
  intros Hnd. revert k. induction Hnd as [| a l Ha Hnd IH]; intros [| k] Hk Hp;
    simpl in *; try discriminate.
  - injection Hk as ->. split.
    + constructor; [tauto | exact Hnd].
    + intros [E | Hin]; [subst; tauto | contradiction].
  - assert (Hql : In q l).
    { apply list_elem_of_In. eapply list_elem_of_lookup_2. exact Hk. }
    destruct (IH k Hk ltac:(tauto)) as [H1 H2]. split.
    + constructor; [| exact H1].
      intros Hin. apply In_insert in Hin as [-> | Hin]; tauto.
    + intros [E | Hin]; [subst; contradiction | contradiction].
Qed.

Lemma map_alter_insert {A B : Type} (f : A -> B) (g : A -> A) (l : list A)
    (k : nat) (v : B) :
  (forall x, f (g x) = v) -> (k < length l)%nat ->
  map f (alter g k l) = <[k := v]> (map f l).
Proof.
  intros Hf. revert k. induction l as [| a l IH]; intros [| k] Hk; simpl in *;
    try lia.
  - rewrite Hf. reflexivity.
  - f_equal. apply IH. lia.
Qed.

Lemma occupied_move_building (m : Model) (k : nat) (p : Pos) :
  (k < length (buildings m))%nat ->
  occupied (update_building k (BuildingAgent.set_pos p) m)
  = <[k := p]> (occupied m).
Proof.
  intros Hk. unfold occupied. simpl.
  rewrite (map_alter_insert _ _ _ _ p) by (auto; reflexivity).
  rewrite insert_app_l by (rewrite length_map; exact Hk). reflexivity.
Qed.

Lemma occupied_move_truck (m : Model) (i : nat) (p : Pos) :
  (i < length (trucks m))%nat ->
  occupied (update_truck i (Truck.set_pos p) m)
  = <[(length (buildings m) + i)%nat := p]> (occupied m).
Proof.
  intros Hi. unfold occupied. simpl.
  rewrite (map_alter_insert _ _ _ _ p) by (auto; reflexivity).
  rewrite insert_app_r_alt by (rewrite length_map; lia).
  rewrite length_map. do 2 f_equal. lia.
Qed.

(** Clearing the corner keeps one agent per cell and frees the corner. *)
Lemma move_to_empty_corner (a : AgentRef) (p0 : Pos) (r r' : Rng) (m m' : Model) :
  creating m -> In a (GarbageCollectionModel.cell_contents m p0) ->
  GarbageCollectionModel.move_to_empty a r m = Ok (m', r') ->
  creating m' /\ ~ In p0 (occupied m').
Proof.
  intros [Hd Hnd] Ha. unfold GarbageCollectionModel.move_to_empty.
  destruct (MultiGrid.empties m) as [| e es] eqn:E; [discriminate |].
  assert (Hin : In (fst (choice e (e :: es) r)) (MultiGrid.empties m))
    by (rewrite E; apply choice_In).
  apply (empties_free m _ Hd) in Hin.
  destruct (choice e (e :: es) r) as [p r1]. cbn [fst] in Hin.
  intros H. injection H as <- <-.
  destruct (cell_contents_In m p0 a Hd Ha)
    as [(k & b & -> & Hk & Hp) | (i & t0 & -> & Hi & Hp)].
  - assert (Hlt : (k < length (buildings m))%nat)
      by (eapply lookup_lt_Some; exact Hk).
    rewrite occupied_move_building by exact Hlt. unfold creating.
    rewrite occupied_move_building by exact Hlt.
    assert (Hq : occupied m !! k = Some p0).
    { unfold occupied. rewrite lookup_app_l by (rewrite length_map; exact Hlt).
      rewrite list_lookup_fmap, Hk. simpl. rewrite Hp. reflexivity. }
    destruct (insert_NoDup _ k p p0 Hnd Hq Hin) as [H1 H2].
    split; [split; [exact Hd | exact H1] | exact H2].
  - assert (Hlt : (i < length (trucks m))%nat)
      by (eapply lookup_lt_Some; exact Hi).
    rewrite occupied_move_truck by exact Hlt. unfold creating.
    rewrite occupied_move_truck by exact Hlt.
    assert (Hq : occupied m !! (length (buildings m) + i)%nat = Some p0).
    { unfold occupied. rewrite lookup_app_r by (rewrite length_map; lia).
      rewrite length_map, list_lookup_fmap.
      replace (length (buildings m) + i - length (buildings m))%nat with i by lia.
      rewrite Hi. simpl. rewrite Hp. reflexivity. }
    destruct (insert_NoDup _ _ p p0 Hnd Hq Hin) as [H1 H2].
    split; [split; [exact Hd | exact H1] | exact H2].
Qed.

(** The layout that construction leaves behind. *)
Lemma init_layout (w h nb nt : Z) (r r' : Rng) (m : Model) :
  GarbageCollectionModel.__init__ w h nb nt r = Ok (m, r') ->
  width m = w /\ height m = h
  /\ Forall (new_building w h) (buildings m)
  /\ Forall (new_truck w h) (trucks m)
  /\ disposal_site m = Some (DisposalSiteAgent.__init__ (0%Z, 0%Z))
  /\ List.NoDup (occupied m)
  /\ ~ In (0%Z, 0%Z) (occupied m).
Proof.
  unfold GarbageCollectionModel.__init__, GarbageCollectionModel._create_buildings,
    GarbageCollectionModel._create_trucks.
  set (m0 := mkModel w h nb nt [] [] None).
  assert (Hc0 : creating m0) by (split; [reflexivity | constructor]).
  assert (Hj0 : just_built m0) by (split; constructor).
  pose proof (create_buildings_from_spec (seq 0 (Z.to_nat (n_buildings m0))) r m0 Hc0)
    as Hs1. cbn zeta in Hs1.
  pose proof (create_buildings_from_built (seq 0 (Z.to_nat (n_buildings m0))) r m0 Hj0)
    as Hj1.
  destruct (GarbageCollectionModel.create_buildings_from _ r m0) as [m1 r1].
  cbn [fst] in Hs1, Hj1. destruct Hs1 as (Hc1 & Hg1 & _).
  pose proof (create_trucks_from_spec (seq 0 (Z.to_nat (n_trucks m1))) r1 m1 Hc1)
    as Hs2. cbn zeta in Hs2.
  pose proof (create_trucks_from_built (seq 0 (Z.to_nat (n_trucks m1))) r1 m1 Hj1)
    as Hj2.
  destruct (GarbageCollectionModel.create_trucks_from _ r1 m1) as [m2 r2].
  cbn [fst] in Hs2, Hj2. destruct Hs2 as (Hc2 & Hg2 & _).
  pose proof (same_grid_trans _ _ _ Hg1 Hg2) as (Hw2 & Hh2 & _ & _).
  simpl in Hw2, Hh2. clear Hg1 Hg2 Hc0 Hj0 Hc1 Hj1.
  unfold GarbageCollectionModel._create_disposal_site.
  destruct (MultiGrid.out_of_bounds m2 (0%Z, 0%Z)); [discriminate |].
  destruct (MultiGrid.is_cell_empty m2 (0%Z, 0%Z)) eqn:Hempty; cbn [negb].
  - intros H. injection H as <- <-. destruct Hc2 as [Hd Hnd], Hj2 as [HB HT].
    rewrite Hw2, Hh2 in HB, HT. simpl.
    repeat split; try assumption.
    rewrite (is_cell_empty_count m2 _ Hd) in Hempty.
    apply Nat.eqb_eq, count_at_zero in Hempty. exact Hempty.
  - pose proof (cell_contents_length m2 (0%Z, 0%Z) (proj1 Hc2)) as Hlen.
    pose proof (count_at_NoDup (0%Z, 0%Z) (occupied m2) (proj2 Hc2)) as Hle.
    rewrite (is_cell_empty_count m2 _ (proj1 Hc2)) in Hempty.
    apply Nat.eqb_neq in Hempty.
    destruct (GarbageCollectionModel.cell_contents m2 (0%Z, 0%Z))
      as [| a [| a' l]] eqn:Hcont; simpl in Hlen; try lia.
    cbn [GarbageCollectionModel.move_all_to_empty].
    destruct (GarbageCollectionModel.move_to_empty a r2 m2) as [[m3 r3] | e] eqn:E;
      [| discriminate].
    intros H. injection H as <- <-.
    assert (Ha : In a (GarbageCollectionModel.cell_contents m2 (0%Z, 0%Z)))
      by (rewrite Hcont; left; reflexivity).
    destruct (move_to_empty_corner a _ r2 r3 m2 m3 Hc2 Ha E) as [[Hd3 Hnd3] Hfree].
    pose proof (move_to_empty_built a r2 r3 m2 m3 E Hj2) as [HB HT].
    assert (Hw3 : width m3 = w /\ height m3 = h).
    { unfold GarbageCollectionModel.move_to_empty in E.
      destruct (MultiGrid.empties m2); [discriminate |].
      destruct (choice _ _ r2). injection E as <- _.
      destruct a; simpl; auto. }
    destruct Hw3 as [Hw3 Hh3]. rewrite Hw3, Hh3 in HB, HT. simpl.
    repeat split; assumption.
Qed.

(** X1. A model that [__init__] returns has the grid it was asked for,
    buildings and trucks exactly as their constructors make them (level and
    counters at 0, capacity and speed within the ranges drawn), each on a
    cell of the grid, no two on the same cell, and the disposal site alone
    on the corner (0, 0). *)
Theorem construction_layout (w h nb nt : Z) (r r' : Rng) (m : Model) :
  GarbageCollectionModel.__init__ w h nb nt r = Ok (m, r') ->
  width m = w /\ height m = h
  /\ Forall (new_building w h) (buildings m)
  /\ Forall (new_truck w h) (trucks m)
  /\ disposal_site m = Some (DisposalSiteAgent.__init__ (0%Z, 0%Z))
  /\ List.NoDup (occupied m)
  /\ ~ In (0%Z, 0%Z) (occupied m).
Proof.
  exact (init_layout w h nb nt r r' m).
Qed.

Lemma construction_layout_witness :
  width village = 2%Z /\ height village = 2%Z
  /\ Forall (new_building 2 2) (buildings village)
  /\ Forall (new_truck 2 2) (trucks village)
  /\ disposal_site village = Some (DisposalSiteAgent.__init__ (0%Z, 0%Z))
  /\ List.NoDup (occupied village)
  /\ ~ In (0%Z, 0%Z) (occupied village).
Proof.
  apply (construction_layout 2 2 2 1 [0; 0.99; 0.99; 0; 0.99; 0.99; 0; 0; 0] []).
  vm_compute. reflexivity.
Defined.

(** ** Bookkeeping kept by every execution *)

Lemma step_waits (b : BuildingAgent.t) :
  building_waits b -> building_waits (BuildingAgent.step b).
Proof.
  unfold building_waits, BuildingAgent.step, BuildingAgent.count_wait,
    BuildingAgent.raise_request, BuildingAgent.generate.
  destruct b as [uid p lv cap rate req tot wt]. simpl.
  destruct (Qlt_bool lv cap); simpl;
    destruct (Qle_bool _ _); simpl; destruct req; simpl; intros H; lia.
Qed.

Lemma effect_accounting (i : nat) (self : Truck.t) (m m' : Model) :
  trucks m !! i = Some self ->
  truck_effect i self m m' -> accounting m -> accounting m'.
Proof.
  intros Hself Heff. unfold accounting, GarbageCollectionModel.total_trash_collected,
    received, loads.
  destruct Heff as [| p | k b St Hin | St | k b St Ht Hb Hr Hp | d St Hd Hp];
    simpl; intros H.
  - exact H.
  - rewrite !Qsum_alter_same by (intros; reflexivity). exact H.
  - rewrite !Qsum_alter_same by (intros; reflexivity). exact H.
  - rewrite !Qsum_alter_same by (intros; reflexivity). exact H.
  - rewrite (Qsum_alter Truck.total_collected _ _ _ _ Hself).
    rewrite (Qsum_alter Truck.current_load _ _ _ _ Hself). simpl. lra.
  - rewrite (Qsum_alter_same Truck.total_collected) by (intros; reflexivity).
    rewrite (Qsum_alter Truck.current_load _ _ _ _ Hself).
    rewrite Hd in H. simpl. lra.
Qed.

Lemma effect_waits (i : nat) (self : Truck.t) (m m' : Model) :
  truck_effect i self m m' ->
  Forall building_waits (buildings m) -> Forall building_waits (buildings m').
Proof.
  intros Heff H.
  destruct Heff as [| p | k b St Hin | St | k b St Ht Hb Hr Hp | d St Hd Hp];
    simpl; try exact H.
  apply Forall_alter_inv; [exact H |]. intros x _ _. reflexivity.
Qed.

Lemma effect_truck_coherent (i : nat) (self : Truck.t) (m m' : Model) :
  trucks m !! i = Some self -> exclusive m ->
  truck_effect i self m m' ->
  (forall j tj, trucks m !! j = Some tj -> truck_coherent m tj) ->
  forall j tj, trucks m' !! j = Some tj -> truck_coherent m' tj.
Proof.
  intros Hself Hex Heff H j tj Hj.
  destruct Heff as [| p | k b St Hin | St | k b St Ht Hb Hr Hp | d St Hd Hp];
    simpl in Hj.
  - exact (H j tj Hj).
  - apply lookup_alter_cases in Hj as (x & Hx & [[_ ->] | [_ ->]]);
      exact (H j x Hx).
  - apply needing_pickup_spec in Hin as (Hb & Hr & _).
    apply lookup_alter_cases in Hj as (x & Hx & [[_ ->] | [-> ->]]);
      [exact (H j x Hx) |].
    split; simpl; [discriminate |]. intros _. exists k, b. auto.
  - apply lookup_alter_cases in Hj as (x & Hx & [[_ ->] | [_ ->]]);
      [exact (H j x Hx) |].
    split; simpl; discriminate.
  - apply lookup_alter_cases in Hj as (x & Hx & [[Hne ->] | [-> ->]]).
    + destruct (H j x Hx) as [H1 H2]. split; [exact H1 |].
      intros Sx. destruct (H2 Sx) as (k' & b' & Tx & Hb' & Hr').
      exists k', b'. split; [exact Tx |]. split; [| exact Hr']. simpl.
      rewrite list_lookup_alter_ne; [exact Hb' |].
      intros ->. apply Hne. exact (Hex i j k' self x Hself Hx Ht Tx).
    + split; simpl.
      * destruct (Qle_bool _ _) eqn:E; [| discriminate].
        intros _. apply Qle_bool_iff in E. exact E.
      * destruct (Qle_bool _ _); discriminate.
  - apply lookup_alter_cases in Hj as (x & Hx & [[_ ->] | [_ ->]]);
      [exact (H j x Hx) |].
    split; simpl; discriminate.
Qed.

Lemma building_step_truck_coherent (k : nat) (m : Model) :
  (forall j tj, trucks m !! j = Some tj -> truck_coherent m tj) ->
  forall j tj, trucks (update_building k BuildingAgent.step m) !! j = Some tj ->
               truck_coherent (update_building k BuildingAgent.step m) tj.
Proof.
  intros H j tj Hj. simpl in Hj. destruct (H j tj Hj) as [H1 H2].
  split; [exact H1 |]. intros St. destruct (H2 St) as (k' & b' & Tx & Hb' & Hr').
  simpl. destruct (decide (k = k')) as [-> | Hne].
  - exists k', (BuildingAgent.step b'). rewrite list_lookup_alter_eq, Hb'.
    split; [exact Tx |]. split; [reflexivity | apply step_latch; exact Hr'].
  - exists k', b'. rewrite list_lookup_alter_ne by exact Hne. auto.
Qed.

Lemma fire_coherent (tr : Transition) (r : Rng) (m : Model) :
  invariant m -> coherent m -> coherent (fst (fire tr r m)).
Proof.
  intros (_ & _ & Hex) (Ha & Hw & Ht). destruct tr as [k | i |]; simpl.
  - split; [| split].
    + exact Ha.
    + simpl. apply Forall_alter_inv; [exact Hw |]. intros x _. apply step_waits.
    + apply building_step_truck_coherent. exact Ht.
  - destruct (trucks m !! i) as [self |] eqn:Hself.
    + pose proof (substep_effect i self r m Hself) as Heff.
      split; [| split].
      * eapply effect_accounting; eauto.
      * eapply effect_waits; eauto.
      * eapply effect_truck_coherent; eauto.
    + rewrite substep_no_truck by exact Hself. simpl. split; [| split]; assumption.
  - rewrite disposal_step_id. split; [| split]; assumption.
Qed.

Lemma init_coherent (w h nb nt : Z) (r r' : Rng) (m : Model) :
  GarbageCollectionModel.__init__ w h nb nt r = Ok (m, r') -> coherent m.
Proof.
  intros Hinit.
  destruct (init_layout w h nb nt r r' m Hinit)
    as (_ & _ & HB & HT & Hd & _).
  split; [| split].
  - unfold accounting, GarbageCollectionModel.total_trash_collected, received, loads.
    rewrite Hd. simpl.
    rewrite (Qsum_zero Truck.total_collected), (Qsum_zero Truck.current_load).
    + lra.
    + eapply Forall_impl; [exact HT |].
      intros x (uid & p & cap & spd & -> & _). reflexivity.
    + eapply Forall_impl; [exact HT |].
      intros x (uid & p & cap & spd & -> & _). reflexivity.
  - eapply Forall_impl; [exact HB |].
    intros x (uid & p & rate & cap & -> & _). reflexivity.
  - intros j tj Hj.
    destruct (Forall_lookup_1 _ _ _ _ HT Hj) as (uid & p & cap & spd & -> & _).
    split; simpl; discriminate.
Qed.

Lemma reachable_coherent (m : Model) : reachable m -> coherent m.
Proof.
  induction 1 as [w h nb nt r r' m Hinit | tr r m Hr IH].
  - eapply init_coherent. exact Hinit.
  - apply fire_coherent; [apply reachable_invariant; exact Hr | exact IH].
Qed.

Lemma village_reachable (n : nat) : reachable (fst (run n [] village)).
Proof.
  apply run_reachable.
  apply (reachable_init 2 2 2 1 [0; 0.99; 0.99; 0; 0.99; 0.99; 0; 0; 0] [] village).
  vm_compute. reflexivity.
Qed.

Lemma reachable_truck_states (m : Model) (i : nat) (t0 : Truck.t) :
  reachable m -> trucks m !! i = Some t0 ->
  match Truck.state t0 with
  | patrolling =>
      Truck.target t0 = None /\ Truck.current_load t0 < Truck.capacity t0
  | returning =>
      Truck.target t0 = None /\ Truck.capacity t0 <= Truck.current_load t0
  | collecting =>
      Truck.current_load t0 < Truck.capacity t0
      /\ exists (k : nat) (b : BuildingAgent.t),
           Truck.target t0 = Some k /\ buildings m !! k = Some b
           /\ BuildingAgent.pickup_requested b = true
  end.
Proof.
  intros Hr Hi.
  destruct (reachable_invariant m Hr) as (_ & [_ HT] & _).
  destruct (Forall_lookup_1 _ _ _ _ HT Hi) as (_ & _ & Hlt & Hn).
  destruct (reachable_coherent m Hr) as (_ & _ & Hc).
  destruct (Hc i t0 Hi) as [H1 H2].
  destruct (Truck.state t0) eqn:St.
  - split; [apply Hn | apply Hlt]; discriminate.
  - split; [apply Hlt; discriminate | apply H2; reflexivity].
  - split; [apply Hn; discriminate | apply H1; reflexivity].
Qed.

(** X3. The state of a truck tells what it holds, in every state of an
    execution: a patrolling truck has no target and is below capacity; a
    returning truck has no target and is at or above capacity; a collecting
    truck is below capacity and its target is a building of the schedule
    that still requests a pickup. *)
Theorem truck_state_coherence (m : Model) (i : nat) (t0 : Truck.t) :
  reachable m -> trucks m !! i = Some t0 ->
  match Truck.state t0 with
  | patrolling =>
      Truck.target t0 = None /\ Truck.current_load t0 < Truck.capacity t0
  | returning =>
      Truck.target t0 = None /\ Truck.capacity t0 <= Truck.current_load t0
  | collecting =>
      Truck.current_load t0 < Truck.capacity t0
      /\ exists (k : nat) (b : BuildingAgent.t),
           Truck.target t0 = Some k /\ buildings m !! k = Some b
           /\ BuildingAgent.pickup_requested b = true
  end.
Proof. apply reachable_truck_states. Qed.

Lemma truck_state_coherence_witness :
  exists t0 : Truck.t,
    trucks (fst (run 9 [] village)) !! 0%nat = Some t0
    /\ Truck.state t0 = collecting
    /\ Truck.current_load t0 < Truck.capacity t0
    /\ exists (k : nat) (b : BuildingAgent.t),
         Truck.target t0 = Some k
         /\ buildings (fst (run 9 [] village)) !! k = Some b
         /\ BuildingAgent.pickup_requested b = true.
Proof.
  eexists. split; [vm_compute; reflexivity |]. split; [reflexivity |].
  exact (truck_state_coherence (fst (run 9 [] village)) 0 _ (village_reachable 9)
           ltac:(vm_compute; reflexivity)).
Defined.

(** X4. In a state of an execution, one pass through the loop of a
    collecting truck's step never takes the branch that abandons the
    target: the truck harvests its target when it stands on the target's
    cell, and otherwise makes a move towards it. *)
Theorem collecting_never_abandons (m : Model) (i : nat) (self : Truck.t) (r : Rng) :
  reachable m -> trucks m !! i = Some self -> Truck.state self = collecting ->
  exists (k : nat) (b : BuildingAgent.t),
    Truck.target self = Some k /\ buildings m !! k = Some b
    /\ TruckAgent.substep i r m
       = if pos_eqb (Truck.pos self) (BuildingAgent.pos b)
         then (update_truck i (Truck.loaded (BuildingAgent.trash_level b))
                 (update_building k
                    (fun b0 => snd (BuildingAgent.collect_trash b0)) m), r)
         else TruckAgent._move_towards i self (BuildingAgent.pos b) r m.
Proof.
  intros Hr Hi St.
  pose proof (reachable_truck_states m i self Hr Hi) as H. rewrite St in H.
  destruct H as (_ & k & b & Ht & Hb & Hreq).
  exists k, b. split; [exact Ht |]. split; [exact Hb |].
  unfold TruckAgent.substep. rewrite Hi, St.
  unfold TruckAgent._collect. rewrite Ht, Hb, Hreq. cbn [negb].
  destruct (pos_eqb _ _); reflexivity.
Qed.

Lemma collecting_never_abandons_witness :
  exists (self : Truck.t) (k : nat) (b : BuildingAgent.t),
    trucks (fst (run 9 [] village)) !! 0%nat = Some self
    /\ Truck.target self = Some k
    /\ buildings (fst (run 9 [] village)) !! k = Some b
    /\ TruckAgent.substep 0 [] (fst (run 9 [] village))
       = if pos_eqb (Truck.pos self) (BuildingAgent.pos b)
         then (update_truck 0 (Truck.loaded (BuildingAgent.trash_level b))
                 (update_building k
                    (fun b0 => snd (BuildingAgent.collect_trash b0))
                    (fst (run 9 [] village))), [])
         else TruckAgent._move_towards 0 self (BuildingAgent.pos b) []
                (fst (run 9 [] village)).
Proof.
  destruct (trucks (fst (run 9 [] village)) !! 0%nat) as [self |] eqn:E;
    [| vm_compute in E; discriminate].
  assert (St : Truck.state self = collecting)
    by (vm_compute in E; injection E as <-; reflexivity).
  destruct (collecting_never_abandons _ 0 self [] (village_reachable 9) E St)
    as (k & b & H1 & H2 & H3).
  exists self, k, b. auto.
Defined.

(** X5. In every state of an execution the wait counter of a building is
    0 while it does not request a pickup and at least 1 while it does, and
    a building whose level is at or above 80% of its capacity requests a
    pickup. *)
Theorem wait_counter_follows_request (m : Model) (k : nat) (b : BuildingAgent.t) :
  reachable m -> buildings m !! k = Some b ->
  (BuildingAgent.pickup_requested b = false ->
   BuildingAgent.pickup_wait_time b = 0%Z
   /\ BuildingAgent.trash_level b < BuildingAgent.capacity b * 0.8)
  /\ (BuildingAgent.pickup_requested b = true ->
      (1 <= BuildingAgent.pickup_wait_time b)%Z).
Proof.
  intros Hr Hb.
  destruct (reachable_invariant m Hr) as (_ & [HB _] & _).
  destruct (Forall_lookup_1 _ _ _ _ HB Hb) as (_ & _ & _ & _ & Hbelow).
  destruct (reachable_coherent m Hr) as (_ & Hw & _).
  pose proof (Forall_lookup_1 _ _ _ _ Hw Hb) as H. unfold building_waits in H.
  split; intros E; rewrite E in H; auto.
Qed.

Lemma wait_counter_follows_request_witness :
  exists b : BuildingAgent.t,
    buildings (fst (run 9 [] village)) !! 0%nat = Some b
    /\ (BuildingAgent.pickup_requested b = false ->
        BuildingAgent.pickup_wait_time b = 0%Z
        /\ BuildingAgent.trash_level b < BuildingAgent.capacity b * 0.8)
    /\ (BuildingAgent.pickup_requested b = true ->
        (1 <= BuildingAgent.pickup_wait_time b)%Z).
Proof.
  eexists. split; [vm_compute; reflexivity |].
  exact (wait_counter_follows_request (fst (run 9 [] village)) 0 _
           (village_reachable 9) ltac:(vm_compute; reflexivity)).
Defined.

(** ** From one transition to whole runs *)

Section Lifting.

Variable P : Model -> Prop.
Variable R : Model -> Model -> Prop.
Hypothesis R_refl : forall m, R m m.
Hypothesis R_trans : forall a b c, R a b -> R b c -> R a c.
Hypothesis P_fire : forall tr r m, P m -> P (fst (fire tr r m)).
Hypothesis R_fire : forall tr r m, P m -> R m (fst (fire tr r m)).

Lemma substeps_lift (n i : nat) (r : Rng) (m : Model) :
  P m -> P (fst (TruckAgent.substeps n i r m))
         /\ R m (fst (TruckAgent.substeps n i r m)).
Proof.
  revert r m. induction n as [| n IH]; intros r m H; simpl; [auto |].
  pose proof (P_fire (TSubstep i) r m H) as H1.
  pose proof (R_fire (TSubstep i) r m H) as H2. simpl in H1, H2.
  destruct (TruckAgent.substep i r m) as [m' r']. simpl in H1, H2.
  destruct (IH r' m' H1) as [H3 H4]. split; [exact H3 | eauto].
Qed.

Lemma activate_lift (a : AgentRef) (r : Rng) (m : Model) :
  P m -> P (fst (GarbageCollectionModel.activate a r m))
         /\ R m (fst (GarbageCollectionModel.activate a r m)).
Proof.
  intros H. destruct a as [k | i |].
  - split; [exact (P_fire (TBuilding k) r m H) | exact (R_fire (TBuilding k) r m H)].
  - simpl. unfold TruckAgent.step. destruct (trucks m !! i); [| auto].
    apply substeps_lift. exact H.
  - split; [exact (P_fire TDisposal r m H) | exact (R_fire TDisposal r m H)].
Qed.

Lemma activate_all_lift (order : list AgentRef) (r : Rng) (m : Model) :
  P m -> P (fst (GarbageCollectionModel.activate_all order r m))
         /\ R m (fst (GarbageCollectionModel.activate_all order r m)).
Proof.
  revert r m. induction order as [| a order IH]; intros r m H; simpl; [auto |].
  destruct (activate_lift a r m H) as [H1 H2].
  destruct (GarbageCollectionModel.activate a r m) as [m' r']. simpl in H1, H2.
  destruct (IH r' m' H1) as [H3 H4]. split; [exact H3 | eauto].
Qed.

Lemma step_lift (r : Rng) (m : Model) :
  P m -> P (fst (GarbageCollectionModel.step r m))
         /\ R m (fst (GarbageCollectionModel.step r m)).
Proof.
  intros H. unfold GarbageCollectionModel.step.
  destruct (GarbageCollectionModel.activation_order r m) as [order r'].
  apply activate_all_lift. exact H.
Qed.

Lemma run_lift (n : nat) (r : Rng) (m : Model) :
  P m -> P (fst (run n r m)) /\ R m (fst (run n r m)).
Proof.
  revert r m. induction n as [| n IH]; intros r m H; simpl; [auto |].
  destruct (step_lift r m H) as [H1 H2].
  destruct (GarbageCollectionModel.step r m) as [m' r']. simpl in H1, H2.
  destruct (IH r' m' H1) as [H3 H4]. split; [exact H3 | eauto].
Qed.

End Lifting.

(** ** What stepping leaves alone *)

Lemma map_alter_same {A B : Type} (f : A -> B) (g : A -> A) (k : nat) (l : list A) :
  (forall x, f (g x) = f x) -> map f (alter g k l) = map f l.
Proof.
  intros Hf. revert k. induction l as [| a l IH]; intros [| k]; simpl.
  - reflexivity.
  - reflexivity.
  - rewrite Hf. reflexivity.
  - f_equal. apply IH.
Qed.

Lemma step_statics (b : BuildingAgent.t) :
  building_statics (BuildingAgent.step b) = building_statics b.
Proof.
  unfold building_statics, BuildingAgent.step, BuildingAgent.count_wait,
    BuildingAgent.raise_request, BuildingAgent.generate.
  repeat match goal with |- context [if ?c then _ else _] => destruct c; simpl end;
    reflexivity.
Qed.

Lemma effect_statics (i : nat) (self : Truck.t) (m m' : Model) :
  truck_effect i self m m' -> statics m' = statics m.
Proof.
  intros Heff. unfold statics.
  destruct Heff as [| p | k b St Hin | St | k b St Ht Hb Hr Hp | d St Hd Hp];
    simpl; rewrite ?map_alter_same by (intros; reflexivity);
    rewrite ?Hd; reflexivity.
Qed.

Lemma fire_statics (tr : Transition) (r : Rng) (m : Model) :
  statics (fst (fire tr r m)) = statics m.
Proof.
  destruct tr as [k | i |]; simpl.
  - unfold statics. simpl. rewrite map_alter_same by apply step_statics.
    reflexivity.
  - destruct (trucks m !! i) as [self |] eqn:Hself.
    + eapply effect_statics. apply substep_effect. exact Hself.
    + rewrite substep_no_truck by exact Hself. reflexivity.
  - rewrite disposal_step_id. reflexivity.
Qed.

(** X6. Calls to the model's [step()] never change the grid's size, the
    number and order of buildings and trucks, any agent's identifier, a
    building's cell, capacity or generation rate, a truck's capacity or
    speed, or the disposal site's cell. *)
Theorem run_keeps_statics (n : nat) (r : Rng) (m : Model) :
  width (fst (run n r m)) = width m
  /\ height (fst (run n r m)) = height m
  /\ map building_statics (buildings (fst (run n r m)))
     = map building_statics (buildings m)
  /\ map truck_statics (trucks (fst (run n r m))) = map truck_statics (trucks m)
  /\ option_map DisposalSiteAgent.pos (disposal_site (fst (run n r m)))
     = option_map DisposalSiteAgent.pos (disposal_site m).
Proof.
  assert (H : statics (fst (run n r m)) = statics m).
  { apply (run_lift (fun _ => True) (fun a b => statics b = statics a)); auto.
    - intros a b c Hab Hbc. congruence.
    - intros tr r0 m0 _. apply fire_statics. }
  unfold statics in H. injection H. auto.
Qed.

(** ** Cumulative counters only grow *)

Lemma Forall2_diag {A : Type} (Q : A -> A -> Prop) (l : list A) :
  (forall x, Q x x) -> Forall2 Q l l.
Proof. intros H. induction l; constructor; auto. Qed.

Lemma Forall2_chain {A : Type} (Q : A -> A -> Prop) (l1 l2 l3 : list A) :
  (forall x y z, Q x y -> Q y z -> Q x z) ->
  Forall2 Q l1 l2 -> Forall2 Q l2 l3 -> Forall2 Q l1 l3.
Proof.
  intros Ht H12. revert l3. induction H12 as [| x y l1 l2 Hxy _ IH]; intros l3 H23.
  - inversion H23. constructor.
  - inversion H23 as [| y' z l2' l3' Hyz H23' E1 E2]. subst.
    constructor; eauto.
Qed.

Lemma counters_le_refl (m : Model) : counters_le m m.
Proof.
  split; [apply Qle_refl | split]; apply Forall2_diag.
  - intros x. apply Qle_refl.
  - intros x. split; [apply Qle_refl | lia].
Qed.

Lemma counters_le_trans (a b c : Model) :
  counters_le a b -> counters_le b c -> counters_le a c.
Proof.
  intros (A1 & A2 & A3) (B1 & B2 & B3). split; [| split].
  - eapply Qle_trans; eauto.
  - eapply Forall2_chain; [| exact A2 | exact B2].
    intros x y z. apply Qle_trans.
  - eapply Forall2_chain; [| exact A3 | exact B3].
    intros x y z (X1 & X2 & X3) (Y1 & Y2 & Y3).
    split; [eapply Qle_trans; eauto | lia].
Qed.

Lemma trucks_le_alter (f : Truck.t -> Truck.t) (i : nat) (l : list Truck.t) :
  (forall x, l !! i = Some x ->
             Truck.total_collected x <= Truck.total_collected (f x)
             /\ (Truck.trips_made x <= Truck.trips_made (f x))%Z
             /\ (Truck.distance_traveled x <= Truck.distance_traveled (f x))%Z) ->
  Forall2 (fun t0 t1 => Truck.total_collected t0 <= Truck.total_collected t1
                        /\ (Truck.trips_made t0 <= Truck.trips_made t1)%Z
                        /\ (Truck.distance_traveled t0
                            <= Truck.distance_traveled t1)%Z)
          l (alter f i l).
Proof.
  intros Hf. apply Forall2_alter_r.
  - apply Forall2_diag. intros x. split; [apply Qle_refl | lia].
  - intros x y Hx Hy _. assert (y = x) as -> by congruence. apply Hf. exact Hx.
Qed.

Lemma effect_counters_le (i : nat) (self : Truck.t) (m m' : Model) :
  trucks m !! i = Some self -> agents_inv m ->
  truck_effect i self m m' -> counters_le m m'.
Proof.
  intros Hself [HB HT] Heff.
  destruct (Forall_lookup_1 _ _ _ _ HT Hself) as (_ & Hload & _).
  destruct Heff as [| p | k b St Hin | St | k b St Ht Hb Hr Hp | d St Hd Hp].
  - apply counters_le_refl.
  - split; [apply Qle_refl | split]; simpl.
    + apply Forall2_diag. intros x. apply Qle_refl.
    + apply trucks_le_alter. intros x _. simpl. split; [apply Qle_refl | lia].
  - split; [apply Qle_refl | split]; simpl.
    + apply Forall2_diag. intros x. apply Qle_refl.
    + apply trucks_le_alter. intros x _. simpl. split; [apply Qle_refl | lia].
  - split; [apply Qle_refl | split]; simpl.
    + apply Forall2_diag. intros x. apply Qle_refl.
    + apply trucks_le_alter. intros x _. simpl. split; [apply Qle_refl | lia].
  - destruct (Forall_lookup_1 _ _ _ _ HB Hb) as (_ & _ & Hlv & _).
    split; [apply Qle_refl | split]; simpl.
    + apply Forall2_alter_r.
      * apply Forall2_diag. intros x. apply Qle_refl.
      * intros x y _ _ H. exact H.
    + apply trucks_le_alter. intros x _. simpl. split; [lra | lia].
  - split; [| split]; simpl.
    + unfold received. simpl. rewrite Hd. simpl. lra.
    + apply Forall2_diag. intros x. apply Qle_refl.
    + apply trucks_le_alter. intros x _. simpl. split; [apply Qle_refl | lia].
Qed.

Lemma fire_counters_le (tr : Transition) (r : Rng) (m : Model) :
  invariant m -> counters_le m (fst (fire tr r m)).
Proof.
  intros (_ & Ha & _). destruct tr as [k | i |]; simpl.
  - split; [apply Qle_refl | split]; simpl.
    + apply Forall2_alter_r.
      * apply Forall2_diag. intros x. apply Qle_refl.
      * intros x y Hx Hy _. assert (y = x) as -> by congruence.
        destruct Ha as [HB _].
        destruct (Forall_lookup_1 _ _ _ _ HB Hx) as (_ & Hrate & _).
        rewrite step_total. unfold BuildingAgent.generate.
        destruct (Qlt_bool _ _); simpl; lra.
    + apply Forall2_diag. intros x. split; [apply Qle_refl | lia].
  - destruct (trucks m !! i) as [self |] eqn:Hself.
    + eapply effect_counters_le; eauto. apply substep_effect. exact Hself.
    + rewrite substep_no_truck by exact Hself. apply counters_le_refl.
  - rewrite disposal_step_id. apply counters_le_refl.
Qed.

(** X7. Along an execution the cumulative counters never decrease: the
    disposal site's [total_received], every building's
    [total_trash_generated], and every truck's [total_collected],
    [trips_made] and [distance_traveled] are, after any further calls to
    [step()], at least what they were. *)
Theorem counters_never_decrease (m : Model) (n : nat) (r : Rng) :
  reachable m -> counters_le m (fst (run n r m)).
Proof.
  intros H. apply reachable_invariant in H.
  apply (run_lift invariant counters_le); auto.
  - apply counters_le_refl.
  - apply counters_le_trans.
  - apply fire_invariant.
  - apply fire_counters_le.
Qed.

Lemma counters_never_decrease_witness :
  counters_le (fst (run 20 [] village)) (fst (run 12 [] (fst (run 20 [] village)))).
Proof.
  apply counters_never_decrease. apply village_reachable.
Defined.

(** ** Where trucks move *)

Lemma move_randomly_hop (i : nat) (self : Truck.t) (dest : option Pos)
    (r : Rng) (m : Model) :
  hop i dest m (fst (TruckAgent._move_randomly i self r m)).
Proof.
  unfold TruckAgent._move_randomly.
  match goal with |- context [List.filter ?f ?l] => set (valid := List.filter f l) end.
  destruct valid as [| p ps] eqn:E; simpl; [constructor |].
  assert (Hin : In (fst (choice p (p :: ps) r)) valid)
    by (rewrite E; apply choice_In).
  apply filter_In in Hin as [_ Hc].
  apply andb_true_iff in Hc as [H1 H2].
  apply negb_true_iff in H1, H2.
  destruct (choice p (p :: ps) r) as [q r']. simpl in *.
  constructor; auto.
Qed.

Lemma try_move_hop (i : nat) (self : Truck.t) (p tp : Pos) (m m' : Model) :
  TruckAgent._try_move i self p tp m = Some m' ->
  hop i (Some tp) m m'.
Proof.
  unfold TruckAgent._try_move.
  destruct (MultiGrid.out_of_bounds m p) eqn:Hb; [discriminate |]. simpl.
  destruct (MultiGrid.occupied_by_truck m p) eqn:Ho; simpl.
  - destruct (pos_eqb p tp) eqn:Hp; [| discriminate].
    apply pos_eqb_eq in Hp. subst tp. intros H. injection H as <-.
    constructor; auto.
  - intros H. injection H as <-. constructor; auto.
Qed.

Lemma move_towards_hop (i : nat) (self : Truck.t) (tp : Pos) (r : Rng) (m : Model) :
  hop i (Some tp) m (fst (TruckAgent._move_towards i self tp r m)).
Proof.
  unfold TruckAgent._move_towards.
  destruct (Z.abs _ <? Z.abs _)%Z.
  - destruct (TruckAgent._try_move i self _ tp m) as [m1 |] eqn:E1;
      [simpl; eapply try_move_hop; exact E1 |].
    destruct (TruckAgent._try_move i self (_, (_ + _)%Z) tp m) as [m2 |] eqn:E2;
      [simpl; eapply try_move_hop; exact E2 |].
    apply move_randomly_hop.
  - destruct (TruckAgent._try_move i self _ tp m) as [m1 |] eqn:E1;
      [simpl; eapply try_move_hop; exact E1 |].
    destruct (TruckAgent._try_move i self ((_ + _)%Z, _) tp m) as [m2 |] eqn:E2;
      [simpl; eapply try_move_hop; exact E2 |].
    apply move_randomly_hop.
Qed.

(** One pass either leaves every truck on its cell or is a hop. *)
Lemma substep_moves (i : nat) (self : Truck.t) (r : Rng) (m : Model) :
  trucks m !! i = Some self ->
  (exists f : Truck.t -> Truck.t,
      (forall x, Truck.pos (f x) = Truck.pos x
                 /\ Truck.distance_traveled (f x) = Truck.distance_traveled x)
      /\ trucks (fst (TruckAgent.substep i r m)) = alter f i (trucks m))
  \/ hop i (destination m self) m (fst (TruckAgent.substep i r m)).
Proof.
  intros Hself. unfold TruckAgent.substep, destination. rewrite Hself.
  destruct (Truck.state self) eqn:St.
  - unfold TruckAgent._patrol.
    destruct (TruckAgent.buildings_needing_pickup m) as [| c cs].
    + right. apply move_randomly_hop.
    + left. eexists. split; [| reflexivity]. intros x. split; reflexivity.
  - unfold TruckAgent._collect.
    destruct (Truck.target self) as [k |].
    + destruct (buildings m !! k) as [b |]; [| right; constructor].
      destruct (BuildingAgent.pickup_requested b); simpl.
      * destruct (pos_eqb (Truck.pos self) (BuildingAgent.pos b)); simpl.
        -- left. eexists. split; [| reflexivity]. intros x. split; reflexivity.
        -- right. apply move_towards_hop.
      * left. eexists. split; [| reflexivity]. intros x. split; reflexivity.
    + left. eexists. split; [| reflexivity]. intros x. split; reflexivity.
  - unfold TruckAgent._return_to_disposal.
    destruct (disposal_site m) as [d |]; [| right; constructor].
    destruct (pos_eqb (Truck.pos self) (DisposalSiteAgent.pos d)); simpl.
    + left. eexists. split; [| reflexivity]. intros x. split; reflexivity.
    + right. apply move_towards_hop.
Qed.

Lemma out_of_bounds_dims (m m' : Model) (p : Pos) :
  width m' = width m -> height m' = height m ->
  MultiGrid.out_of_bounds m' p = MultiGrid.out_of_bounds m p.
Proof. intros Hw Hh. unfold MultiGrid.out_of_bounds. rewrite Hw, Hh. reflexivity. Qed.

Lemma Forall_building_pos (Q : Pos -> Prop) (l l' : list BuildingAgent.t) :
  map building_statics l' = map building_statics l ->
  Forall (fun b => Q (BuildingAgent.pos b)) l ->
  Forall (fun b => Q (BuildingAgent.pos b)) l'.
Proof.
  revert l'. induction l as [| b l IH]; intros [| b' l'] E H;
    try discriminate; [constructor |].
  cbn [map] in E.
  assert (Hp : BuildingAgent.pos b' = BuildingAgent.pos b).
  { apply (f_equal (fun s => match s with
                             | x :: _ => snd (fst (fst x))
                             | [] => BuildingAgent.pos b
                             end)) in E. exact E. }
  assert (El : map building_statics l' = map building_statics l).
  { apply (f_equal (@tail _)) in E. exact E. }
  apply Forall_cons in H as [Hb Hl].
  constructor; [rewrite Hp; exact Hb | apply IH; assumption].
Qed.

Lemma hop_trucks_on_grid (i : nat) (dest : option Pos) (m m' : Model) :
  hop i dest m m' ->
  Forall (fun t0 => MultiGrid.out_of_bounds m (Truck.pos t0) = false) (trucks m) ->
  Forall (fun t0 => MultiGrid.out_of_bounds m (Truck.pos t0) = false) (trucks m').
Proof.
  intros [| p Hp _] H; [exact H |]. simpl.
  apply Forall_alter_inv; [exact H |]. intros x _ _. exact Hp.
Qed.

Lemma fire_on_grid (tr : Transition) (r : Rng) (m : Model) :
  on_grid m -> on_grid (fst (fire tr r m)).
Proof.
  intros [HB HT].
  pose proof (fire_statics tr r m) as Hs. unfold statics in Hs.
  injection Hs as Hw Hh Hbs _ _.
  assert (HB' : Forall (fun b => MultiGrid.out_of_bounds m (BuildingAgent.pos b) = false)
                       (buildings (fst (fire tr r m))))
    by (apply (Forall_building_pos
                 (fun p => MultiGrid.out_of_bounds m p = false) (buildings m));
        assumption).
  assert (HT' : Forall (fun t0 => MultiGrid.out_of_bounds m (Truck.pos t0) = false)
                       (trucks (fst (fire tr r m)))).
  { destruct tr as [k | i |]; simpl; try exact HT.
    destruct (trucks m !! i) as [self |] eqn:Hself.
    - destruct (substep_moves i self r m Hself) as [(f & Hf & ->) | Hhop].
      + apply Forall_alter_inv; [exact HT |]. intros x _ Hx.
        destruct (Hf x) as [-> _]. exact Hx.
      + eapply hop_trucks_on_grid; eauto.
    - rewrite substep_no_truck by exact Hself. exact HT. }
  split.
  - eapply Forall_impl; [exact HB' |]. intros b Hb. simpl in Hb.
    rewrite (out_of_bounds_dims m _ _ Hw Hh). exact Hb.
  - eapply Forall_impl; [exact HT' |]. intros t0 Ht. simpl in Ht.
    rewrite (out_of_bounds_dims m _ _ Hw Hh). exact Ht.
Qed.

Lemma reachable_on_grid (m : Model) : reachable m -> on_grid m.
Proof.
  induction 1 as [w h nb nt r r' m Hinit | tr r m _ IH].
  - destruct (init_layout w h nb nt r r' m Hinit)
      as (Hw & Hh & HB & HT & _).
    split.
    + eapply Forall_impl; [exact HB |].
      intros b (uid & p & rate & cap & -> & Hg & _). simpl.
      apply in_grid_bounds. rewrite Hw, Hh. exact Hg.
    + eapply Forall_impl; [exact HT |].
      intros t0 (uid & p & cap & spd & -> & Hg & _). simpl.
      apply in_grid_bounds. rewrite Hw, Hh. exact Hg.
  - apply fire_on_grid. exact IH.
Qed.

(** X8. In every state of an execution every building and every truck
    stands on a cell of the grid: no move, towards a target or at random,
    takes a truck out of bounds. *)
Theorem agents_stay_on_the_grid (m : Model) :
  reachable m ->
  (forall (k : nat) (b : BuildingAgent.t),
      buildings m !! k = Some b ->
      in_grid (width m) (height m) (BuildingAgent.pos b))
  /\ (forall (i : nat) (t0 : Truck.t),
         trucks m !! i = Some t0 ->
         in_grid (width m) (height m) (Truck.pos t0)).
Proof.
  intros H. destruct (reachable_on_grid m H) as [HB HT]. split.
  - intros k b Hb. apply in_grid_bounds.
    exact (Forall_lookup_1 _ _ _ _ HB Hb).
  - intros i t0 Ht. apply in_grid_bounds.
    exact (Forall_lookup_1 _ _ _ _ HT Ht).
Qed.

Lemma agents_stay_on_the_grid_witness :
  (forall (k : nat) (b : BuildingAgent.t),
      buildings (fst (run 20 [] village)) !! k = Some b ->
      in_grid 2 2 (BuildingAgent.pos b))
  /\ (forall (i : nat) (t0 : Truck.t),
         trucks (fst (run 20 [] village)) !! i = Some t0 ->
         in_grid 2 2 (Truck.pos t0)).
Proof.
  exact (agents_stay_on_the_grid (fst (run 20 [] village)) (village_reachable 20)).
Defined.

(** X9. One pass through the loop of a truck's step changes no other
    truck, and if it changes the truck's cell, the new cell is on the
    grid, held no truck before the move unless it is the truck's
    destination (the cell of its target while collecting, of the disposal
    site while returning), and [distance_traveled] grew by exactly 1. *)
Theorem truck_moves_to_free_cell_or_destination
    (m : Model) (i : nat) (self : Truck.t) (r : Rng) :
  trucks m !! i = Some self ->
  (forall j : nat, j <> i ->
      trucks (fst (TruckAgent.substep i r m)) !! j = trucks m !! j)
  /\ forall t' : Truck.t,
       trucks (fst (TruckAgent.substep i r m)) !! i = Some t' ->
       Truck.pos t' <> Truck.pos self ->
       MultiGrid.out_of_bounds m (Truck.pos t') = false
       /\ (MultiGrid.occupied_by_truck m (Truck.pos t') = false
           \/ destination m self = Some (Truck.pos t'))
       /\ Truck.distance_traveled t' = (Truck.distance_traveled self + 1)%Z.
Proof.
  intros Hself.
  destruct (substep_moves i self r m Hself) as [(f & Hf & ->) | Hhop].
  - split.
    + intros j Hne. apply list_lookup_alter_ne. congruence.
    + intros t' Ht' Hpos. rewrite list_lookup_alter_eq, Hself in Ht'.
      injection Ht' as <-. destruct (Hf self) as [E _]. congruence.
  - destruct Hhop as [| p Hp Hfree].
    + split; [reflexivity |]. intros t' Ht' Hpos. congruence.
    + split.
      * intros j Hne. simpl. apply list_lookup_alter_ne. congruence.
      * intros t' Ht' _. simpl in Ht'.
        rewrite list_lookup_alter_eq, Hself in Ht'. injection Ht' as <-.
        simpl. auto.
Qed.

Lemma truck_moves_to_free_cell_or_destination_witness :
  exists self : Truck.t,
    trucks village !! 0%nat = Some self
    /\ (forall j : nat, j <> 0%nat ->
           trucks (fst (TruckAgent.substep 0 [] village)) !! j = trucks village !! j)
    /\ forall t' : Truck.t,
         trucks (fst (TruckAgent.substep 0 [] village)) !! 0%nat = Some t' ->
         Truck.pos t' <> Truck.pos self ->
         MultiGrid.out_of_bounds village (Truck.pos t') = false
         /\ (MultiGrid.occupied_by_truck village (Truck.pos t') = false
             \/ destination village self = Some (Truck.pos t'))
         /\ Truck.distance_traveled t' = (Truck.distance_traveled self + 1)%Z.
Proof.
  eexists. split; [reflexivity |].
  apply truck_moves_to_free_cell_or_destination. reflexivity.
Defined.

(** ** Navigation *)

Lemma try_move_free (i : nat) (self : Truck.t) (p tp : Pos) (m : Model) :
  in_grid (width m) (height m) p ->
  (MultiGrid.occupied_by_truck m p = true -> p = tp) ->
  TruckAgent._try_move i self p tp m = Some (update_truck i (Truck.moved_to p) m).
Proof.
  intros Hg Hfree. unfold TruckAgent._try_move.
  apply in_grid_bounds in Hg. rewrite Hg. simpl.
  destruct (MultiGrid.occupied_by_truck m p); simpl; [| reflexivity].
  rewrite (Hfree eq_refl), pos_eqb_refl. reflexivity.
Qed.

(** With the way free, [_move_towards] takes one step of the Manhattan path. *)
Lemma move_towards_closer
    (m : Model) (i : nat) (self : Truck.t) (tp : Pos) (r : Rng) :
  in_grid (width m) (height m) (Truck.pos self) ->
  in_grid (width m) (height m) tp ->
  Truck.pos self <> tp ->
  (forall q : Pos, MultiGrid.occupied_by_truck m q = true ->
                   q = Truck.pos self \/ q = tp) ->
  exists p : Pos,
    TruckAgent._move_towards i self tp r m
    = (update_truck i (Truck.moved_to p) m, r)
    /\ TruckAgent._distance_to (Truck.moved_to p self) tp
       = (TruckAgent._distance_to self tp - 1)%Z.
Proof.
  intros [Hx Hy] [Htx Hty] Hne Hocc.
  unfold TruckAgent._move_towards, TruckAgent._distance_to.
  destruct self as [uid [x y] cap load spd st tg tot trips dist].
  destruct tp as [tx ty]. simpl in *.
  assert (Hxy : x <> tx \/ y <> ty).
  { destruct (Z.eq_dec x tx) as [-> | ?]; [| auto].
    destruct (Z.eq_dec y ty) as [-> | ?]; [| auto]. congruence. }
  destruct (Z.ltb_spec (Z.abs (ty - y)) (Z.abs (tx - x))) as [Hlt | Hge].
  - exists ((x + Z.sgn (tx - x))%Z, y).
    rewrite try_move_free.
    + split; [reflexivity |]. simpl. lia.
    + split; simpl; lia.
    + intros Ho. destruct (Hocc _ Ho) as [E | E]; [| exact E].
      injection E as E. lia.
  - exists (x, (y + Z.sgn (ty - y))%Z).
    rewrite try_move_free.
    + split; [reflexivity |]. simpl. lia.
    + split; simpl; lia.
    + intros Ho. destruct (Hocc _ Ho) as [E | E]; [| exact E].
      injection E as E. lia.
Qed.

(** X10. A truck that is not yet on the cell it heads for, and whose way
    is not blocked (the only cells holding a truck are its own and the one
    it heads for), gets exactly one step closer in Manhattan distance with
    one call to [_move_towards], and no random draw is consumed. *)
Theorem move_towards_gets_closer
    (m : Model) (i : nat) (self : Truck.t) (tp : Pos) (r : Rng) :
  in_grid (width m) (height m) (Truck.pos self) ->
  in_grid (width m) (height m) tp ->
  Truck.pos self <> tp ->
  (forall q : Pos, MultiGrid.occupied_by_truck m q = true ->
                   q = Truck.pos self \/ q = tp) ->
  exists p : Pos,
    TruckAgent._move_towards i self tp r m
    = (update_truck i (Truck.moved_to p) m, r)
    /\ TruckAgent._distance_to (Truck.moved_to p self) tp
       = (TruckAgent._distance_to self tp - 1)%Z.
Proof.
  exact (move_towards_closer m i self tp r).
Qed.

Lemma move_towards_gets_closer_witness :
  exists p : Pos,
    TruckAgent._move_towards 0
      (Truck.__init__ 0 (0, 0)%Z 50 1) (4, 4)%Z []
      (mkModel 5 5 1 1 [BuildingAgent.__init__ 0 (4, 4)%Z 10 10]
         [Truck.__init__ 0 (0, 0)%Z 50 1] None)
    = (update_truck 0 (Truck.moved_to p)
         (mkModel 5 5 1 1 [BuildingAgent.__init__ 0 (4, 4)%Z 10 10]
            [Truck.__init__ 0 (0, 0)%Z 50 1] None), [])
    /\ TruckAgent._distance_to
         (Truck.moved_to p (Truck.__init__ 0 (0, 0)%Z 50 1)) (4, 4)%Z
       = (TruckAgent._distance_to (Truck.__init__ 0 (0, 0)%Z 50 1) (4, 4)%Z - 1)%Z.
Proof.
  apply move_towards_gets_closer.
  - split; simpl; lia.
  - split; simpl; lia.
  - discriminate.
  - intros q Ho. left. unfold MultiGrid.occupied_by_truck in Ho.
    cbn [trucks List.existsb] in Ho. rewrite orb_false_r in Ho.
    apply pos_eqb_eq in Ho. symmetry. exact Ho.
Defined.

(** ** Dispatch: which building a patrolling truck claims *)

Lemma min_by_first_least {A : Type} (key : A -> Z) (ord : A -> nat)
    (best : A) (l : list A) :
  Forall (fun y => (ord best < ord y)%nat) l ->
  StronglySorted (fun a b => (ord a < ord b)%nat) l ->
  no_worse key ord (min_by key best l) best
  /\ Forall (no_worse key ord (min_by key best l)) l.
Proof.
  revert best. induction l as [| y l IH]; intros best Hlt Hs; simpl.
  - split; [right; split; [reflexivity | lia] | constructor].
  - apply Forall_cons in Hlt as [Hy Hl].
    apply StronglySorted_inv in Hs as [Hs Hyl].
    destruct (Z.ltb_spec (key y) (key best)) as [Hk | Hk].
    + destruct (IH y ltac:(apply Forall_forall; intros z Hz;
                           exact (proj1 (Forall_forall _ _) Hyl z Hz)) Hs)
        as [H1 H2].
      split; [| constructor; assumption].
      destruct H1 as [H1 | [H1 _]]; left; lia.
    + destruct (IH best Hl Hs) as [H1 H2].
      split; [exact H1 | constructor; [| exact H2]].
      destruct H1 as [H1 | [H1 H1']]; [left; lia |].
      destruct (Z.eq_dec (key best) (key y)) as [E | E];
        [right; split; lia | left; lia].
Qed.

Lemma combine_seq_sorted {A : Type} (l : list A) (s : nat) :
  StronglySorted (fun a b : nat * A => (fst a < fst b)%nat) (combine (seq s (length l)) l)
  /\ Forall (fun a : nat * A => (s <= fst a)%nat) (combine (seq s (length l)) l).
Proof.
  revert s. induction l as [| x l IH]; intros s; simpl.
  - split; constructor.
  - destruct (IH (S s)) as [H1 H2]. split.
    + constructor; [exact H1 |].
      eapply Forall_impl; [exact H2 |]. intros a Ha. simpl in *. lia.
    + constructor; [simpl; lia |].
      eapply Forall_impl; [exact H2 |]. intros a Ha. simpl in *. lia.
Qed.

Lemma filter_sorted {A : Type} (R : A -> A -> Prop) (f : A -> bool) (l : list A) :
  StronglySorted R l -> StronglySorted R (List.filter f l).
Proof.
  induction 1 as [| a l Hs IH Ha]; simpl; [constructor |].
  destruct (f a); [| exact IH]. constructor; [exact IH |].
  apply Forall_forall. intros x Hx. apply list_elem_of_In in Hx.
  apply filter_In in Hx as [Hx _].
  apply (proj1 (Forall_forall _ _) Ha). apply list_elem_of_In. exact Hx.
Qed.

Lemma lookup_indexed {A : Type} (l : list A) (k : nat) (x : A) :
  l !! k = Some x -> In (k, x) (indexed l).
Proof.
  unfold indexed.
  assert (G : forall s, l !! k = Some x ->
                        In ((s + k)%nat, x) (combine (seq s (length l)) l)).
  { revert k. induction l as [| a l IH]; intros [| k] s H; simpl in *;
      try discriminate.
    - injection H as ->. left. f_equal. lia.
    - right. replace (s + S k)%nat with (S s + k)%nat by lia. apply IH. exact H. }
  intros H. exact (G 0%nat H).
Qed.

Lemma needing_pickup_In (m : Model) (k : nat) (b : BuildingAgent.t) :
  buildings m !! k = Some b ->
  BuildingAgent.pickup_requested b = true ->
  TruckAgent.is_targeted m k = false ->
  In (k, b) (TruckAgent.buildings_needing_pickup m).
Proof.
  intros Hb Hr Ht. unfold TruckAgent.buildings_needing_pickup.
  apply filter_In. split; [apply lookup_indexed; exact Hb |].
  simpl. rewrite Hr, Ht. reflexivity.
Qed.

(** X11. A patrolling truck that sees a building requesting a pickup that
    no truck targets claims, in one pass and without moving or drawing at
    random, a requesting untargeted building that is nearest to it in
    Manhattan distance; among equally near ones it takes the one created
    first. *)
Theorem patrol_claims_nearest
    (m : Model) (i : nat) (self : Truck.t) (r : Rng)
    (j0 : nat) (b0 : BuildingAgent.t) :
  trucks m !! i = Some self -> Truck.state self = patrolling ->
  buildings m !! j0 = Some b0 ->
  BuildingAgent.pickup_requested b0 = true ->
  TruckAgent.is_targeted m j0 = false ->
  exists (k : nat) (b : BuildingAgent.t),
    TruckAgent.substep i r m = (update_truck i (Truck.claim k) m, r)
    /\ buildings m !! k = Some b
    /\ BuildingAgent.pickup_requested b = true
    /\ TruckAgent.is_targeted m k = false
    /\ forall (j : nat) (b' : BuildingAgent.t),
         buildings m !! j = Some b' ->
         BuildingAgent.pickup_requested b' = true ->
         TruckAgent.is_targeted m j = false ->
         (TruckAgent._distance_to self (BuildingAgent.pos b)
          < TruckAgent._distance_to self (BuildingAgent.pos b'))%Z
         \/ (TruckAgent._distance_to self (BuildingAgent.pos b)
             = TruckAgent._distance_to self (BuildingAgent.pos b')
             /\ (k <= j)%nat).
Proof.
  intros Hself St Hb0 Hr0 Ht0.
  pose proof (needing_pickup_In m j0 b0 Hb0 Hr0 Ht0) as Hin0.
  unfold TruckAgent.substep. rewrite Hself, St. unfold TruckAgent._patrol.
  assert (Hsorted : StronglySorted (fun a b : nat * BuildingAgent.t => (fst a < fst b)%nat)
                      (TruckAgent.buildings_needing_pickup m)).
  { apply filter_sorted. apply (combine_seq_sorted (buildings m) 0). }
  destruct (TruckAgent.buildings_needing_pickup m) as [| c cs] eqn:Hc;
    [destruct Hin0 |].
  set (key := fun kb : nat * BuildingAgent.t =>
                TruckAgent._distance_to self (BuildingAgent.pos (snd kb))).
  apply StronglySorted_inv in Hsorted as [Hs Hlt].
  destruct (min_by_first_least key fst c cs Hlt Hs) as [H1 H2].
  pose proof (min_by_In key c cs) as Hin. rewrite <- Hc in Hin.
  destruct (min_by key c cs) as [k b] eqn:Hm.
  apply needing_pickup_spec in Hin as (Hb & Hr & Ht).
  exists k, b. simpl. repeat split; try assumption.
  intros j b' Hb' Hr' Ht'.
  pose proof (needing_pickup_In m j b' Hb' Hr' Ht') as Hin'.
  rewrite Hc in Hin'. destruct Hin' as [E | Hin'].
  - rewrite E in H1. exact H1.
  - apply list_elem_of_In in Hin'.
    exact (proj1 (Forall_forall _ _) H2 _ Hin').
Qed.

Lemma patrol_claims_nearest_witness :
  let m := fst (fire (TBuilding 0) []
                  (fst (fire (TBuilding 1) [] (fst (run 6 [] village))))) in
  exists (self : Truck.t) (b : BuildingAgent.t),
    trucks m !! 0%nat = Some self
    /\ TruckAgent.substep 0 [] m = (update_truck 0 (Truck.claim 0) m, [])
    /\ buildings m !! 0%nat = Some b
    /\ forall (j : nat) (b' : BuildingAgent.t),
         buildings m !! j = Some b' ->
         BuildingAgent.pickup_requested b' = true ->
         TruckAgent.is_targeted m j = false ->
         (TruckAgent._distance_to self (BuildingAgent.pos b)
          < TruckAgent._distance_to self (BuildingAgent.pos b'))%Z
         \/ (TruckAgent._distance_to self (BuildingAgent.pos b)
             = TruckAgent._distance_to self (BuildingAgent.pos b')
             /\ (0 <= j)%nat).
Proof.
  intros m.
  destruct (trucks m !! 0%nat) as [self |] eqn:E;
    [| vm_compute in E; discriminate].
  destruct (buildings m !! 1%nat) as [b1 |] eqn:E1;
    [| vm_compute in E1; discriminate].
  destruct (patrol_claims_nearest m 0 self [] 1 b1 E)
    as (k & b & H1 & H2 & _ & _ & H3).
  - vm_compute in E. injection E as <-. reflexivity.
  - exact E1.
  - vm_compute in E1. injection E1 as <-. reflexivity.
  - vm_compute. reflexivity.
  - assert (Hk : k = 0%nat).
    { apply (f_equal (fun x => map Truck.target (trucks (fst x)))) in H1.
      vm_compute in H1. injection H1 as H1. congruence. }
    subst k. exists self, b. auto.
Defined.

(** ** A clear road: whole trips *)

Lemma distance_zero (self : Truck.t) (tp : Pos) :
  TruckAgent._distance_to self tp = 0%Z <-> Truck.pos self = tp.
Proof.
  unfold TruckAgent._distance_to. destruct (Truck.pos self) as [x y], tp as [a b].
  simpl. split.
  - intros H. f_equal; lia.
  - intros H. injection H as -> ->. lia.
Qed.

Lemma clear_road_occupied (m : Model) (i : nat) (self : Truck.t) (tp q : Pos) :
  clear_road m i self tp ->
  MultiGrid.occupied_by_truck m q = true -> q = Truck.pos self \/ q = tp.
Proof.
  intros (Hself & _ & _ & _ & _ & Hothers) Ho.
  unfold MultiGrid.occupied_by_truck in Ho.
  apply existsb_exists in Ho as (t0 & Hin & Hp). apply pos_eqb_eq in Hp.
  apply list_elem_of_In, list_elem_of_lookup in Hin as [j Hj].
  destruct (decide (j = i)) as [-> | Hne].
  - left. congruence.
  - right. rewrite <- Hp. exact (Hothers j t0 Hne Hj).
Qed.

(** On a clear road, a pass away from the destination is one step
    towards it. *)
Lemma clear_road_step (m : Model) (i : nat) (self : Truck.t) (tp : Pos) (r : Rng) :
  clear_road m i self tp -> Truck.pos self <> tp ->
  exists p : Pos,
    TruckAgent.substep i r m = (update_truck i (Truck.moved_to p) m, r)
    /\ clear_road (update_truck i (Truck.moved_to p) m) i (Truck.moved_to p self) tp
    /\ TruckAgent._distance_to (Truck.moved_to p self) tp
       = (TruckAgent._distance_to self tp - 1)%Z.
Proof.
  intros Hroad Hne.
  pose proof Hroad as (Hself & Hg & Hgt & Hdest & Hcol & Hothers).
  destruct (move_towards_closer m i self tp r Hg Hgt Hne
              (fun q => clear_road_occupied m i self tp q Hroad))
    as (p & Hmove & Hdist).
  exists p.
  assert (Hsub : TruckAgent.substep i r m = TruckAgent._move_towards i self tp r m).
  { unfold TruckAgent.substep. rewrite Hself. unfold destination in Hdest.
    destruct (Truck.state self) eqn:St; [discriminate | |].
    - destruct (Hcol eq_refl) as (k & b & Ht & Hb & Hr).
      rewrite Ht, Hb in Hdest. simpl in Hdest. injection Hdest as Hp.
      unfold TruckAgent._collect. rewrite Ht, Hb, Hr. cbn [negb].
      rewrite Hp. destruct (pos_eqb (Truck.pos self) tp) eqn:E;
        [apply pos_eqb_eq in E; contradiction | reflexivity].
    - unfold TruckAgent._return_to_disposal.
      destruct (disposal_site m) as [d |]; [| discriminate].
      simpl in Hdest. injection Hdest as Hp. rewrite Hp.
      destruct (pos_eqb (Truck.pos self) tp) eqn:E;
        [apply pos_eqb_eq in E; contradiction | reflexivity]. }
  rewrite Hsub. split; [exact Hmove | split; [| exact Hdist]].
  assert (Hpg : in_grid (width m) (height m) p).
  { pose proof (move_towards_hop i self tp r m) as Hhop. rewrite Hmove in Hhop.
    simpl in Hhop.
    assert (Hi' : trucks (update_truck i (Truck.moved_to p) m) !! i
                  = Some (Truck.moved_to p self))
      by (simpl; rewrite list_lookup_alter_eq, Hself; reflexivity).
    inversion Hhop as [E | q Hq _ E].
    - rewrite <- E in Hi'. rewrite Hself in Hi'. injection Hi' as Hi'.
      apply (f_equal Truck.distance_traveled) in Hi'. simpl in Hi'. lia.
    - apply (f_equal (fun x => x !! i)) in E.
      rewrite !list_lookup_alter_eq, Hself in E. simpl in E.
      injection E as E. apply in_grid_bounds. rewrite <- E. exact Hq. }
  split; [simpl; rewrite list_lookup_alter_eq, Hself; reflexivity |].
  split; [exact Hpg |]. split; [exact Hgt |]. split; [exact Hdest |].
  split; [exact Hcol |].
  intros j tj Hj Hlook. simpl in Hlook.
  rewrite list_lookup_alter_ne in Hlook by congruence.
  exact (Hothers j tj Hj Hlook).
Qed.

Lemma arrived_here (self : Truck.t) : arrived (Truck.pos self) 0 self = self.
Proof.
  destruct self. unfold arrived. simpl. f_equal. lia.
Qed.

Lemma arrived_moved (p tp : Pos) (n : Z) (self : Truck.t) :
  arrived tp n (Truck.moved_to p self) = arrived tp (1 + n) self.
Proof.
  destruct self. unfold arrived, Truck.moved_to. simpl. f_equal. lia.
Qed.

(** On a clear road the truck reaches its destination in as many passes
    as the distance, each pass one move; nothing else changes and no
    random number is drawn. *)
Lemma clear_road_travel (d : nat) :
  forall (m : Model) (i : nat) (self : Truck.t) (tp : Pos) (r : Rng),
    clear_road m i self tp ->
    TruckAgent._distance_to self tp = Z.of_nat d ->
    exists m' : Model,
      TruckAgent.substeps d i r m = (m', r)
      /\ clear_road m' i (arrived tp (Z.of_nat d) self) tp
      /\ buildings m' = buildings m
      /\ disposal_site m' = disposal_site m.
Proof.
  induction d as [| d IH]; intros m i self tp r Hroad Hd.
  - exists m. apply distance_zero in Hd. subst tp.
    change (Z.of_nat 0) with 0%Z. rewrite arrived_here.
    repeat split; try reflexivity; apply Hroad.
  - assert (Hne : Truck.pos self <> tp)
      by (intros E; apply distance_zero in E; lia).
    destruct (clear_road_step m i self tp r Hroad Hne) as (p & Hsub & Hroad1 & Hd1).
    destruct (IH _ i _ tp r Hroad1 ltac:(lia)) as (m' & Hrun & Hroad' & Hb & Hs).
    exists m'. cbn [TruckAgent.substeps]. rewrite Hsub, Hrun.
    rewrite arrived_moved in Hroad'.
    replace (Z.of_nat (S d)) with (1 + Z.of_nat d)%Z by lia.
    split; [reflexivity |]. split; [exact Hroad' |].
    split; [rewrite Hb | rewrite Hs]; reflexivity.
Qed.

Lemma substeps_add (n k i : nat) (r : Rng) (m : Model) :
  TruckAgent.substeps (n + k) i r m
  = TruckAgent.substeps k i (snd (TruckAgent.substeps n i r m))
      (fst (TruckAgent.substeps n i r m)).
Proof.
  revert r m. induction n as [| n IH]; intros r m; [reflexivity |].
  cbn [Nat.add TruckAgent.substeps].
  destruct (TruckAgent.substep i r m) as [m1 r1]. apply IH.
Qed.

(** X12 ([_return_to_disposal], [_move_towards], [_try_move],
    [receive_trash]).  A full truck with a clear road to the disposal
    site, [d] cells away, needs exactly [d + 1] passes of the loop of
    [TruckAgent.step]: [d] moves and the unloading.  Afterwards it stands
    on the site, empty and patrolling, with one more trip and [d] more
    cells travelled; the site has received the whole load; the buildings
    are untouched and no random number was drawn. *)
Theorem delivery_trip (m : Model) (i : nat) (self : Truck.t) (tp : Pos)
    (r : Rng) (d : nat) :
  clear_road m i self tp ->
  Truck.state self = returning ->
  TruckAgent._distance_to self tp = Z.of_nat d ->
  exists m' : Model,
    TruckAgent.substeps (S d) i r m = (m', r)
    /\ trucks m' !! i = Some (Truck.unloaded (arrived tp (Z.of_nat d) self))
    /\ received m' == received m + Truck.current_load self
    /\ buildings m' = buildings m.
Proof.
  intros Hroad Hst Hd.
  destruct (clear_road_travel d m i self tp r Hroad Hd) as (m1 & Hrun & Hroad1 & Hb & Hs).
  destruct Hroad1 as (Hself1 & _ & _ & Hdest1 & _ & _).
  replace (S d) with (d + 1)%nat by lia.
  rewrite substeps_add, Hrun. cbn [fst snd TruckAgent.substeps].
  unfold TruckAgent.substep. rewrite Hself1. cbn [arrived Truck.state].
  rewrite Hst. unfold destination in Hdest1. cbn [arrived Truck.state] in Hdest1.
  rewrite Hst in Hdest1. unfold TruckAgent._return_to_disposal.
  destruct (disposal_site m1) as [s |] eqn:Hs1; [| discriminate].
  simpl in Hdest1. injection Hdest1 as Hp. cbn [arrived Truck.pos].
  rewrite Hp, pos_eqb_refl. cbn [negb].
  eexists. split; [reflexivity |].
  split; [simpl; rewrite list_lookup_alter_eq, Hself1; reflexivity |].
  split; [| simpl; exact Hb].
  unfold received. simpl. rewrite <- Hs. simpl. reflexivity.
Qed.

(** X13 ([_collect], [_move_towards], [_try_move], [collect_trash]).  A
    collecting truck with a clear road to its building, [d] cells away,
    needs exactly [d + 1] passes: [d] moves and the pickup.  Afterwards
    it stands on the building's cell carrying the building's whole trash
    on top of its load and has dropped its target; the building is
    emptied and its request withdrawn; the disposal site is untouched
    and no random number was drawn. *)
Theorem collection_trip (m : Model) (i : nat) (self : Truck.t) (tp : Pos)
    (r : Rng) (d k : nat) (b : BuildingAgent.t) :
  clear_road m i self tp ->
  Truck.state self = collecting ->
  Truck.target self = Some k ->
  buildings m !! k = Some b ->
  TruckAgent._distance_to self tp = Z.of_nat d ->
  exists m' : Model,
    TruckAgent.substeps (S d) i r m = (m', r)
    /\ trucks m' !! i
       = Some (Truck.loaded (BuildingAgent.trash_level b)
                 (arrived tp (Z.of_nat d) self))
    /\ buildings m' !! k = Some (snd (BuildingAgent.collect_trash b))
    /\ disposal_site m' = disposal_site m.
Proof.
  intros Hroad Hst Ht Hbk Hd.
  destruct (clear_road_travel d m i self tp r Hroad Hd) as (m1 & Hrun & Hroad1 & Hb & Hs).
  destruct Hroad1 as (Hself1 & _ & _ & Hdest1 & Hcol1 & _).
  replace (S d) with (d + 1)%nat by lia.
  rewrite substeps_add, Hrun. cbn [fst snd TruckAgent.substeps].
  unfold TruckAgent.substep. rewrite Hself1. cbn [arrived Truck.state].
  rewrite Hst. unfold destination in Hdest1.
  cbn [arrived Truck.state Truck.target] in Hdest1. rewrite Hst, Ht, Hb, Hbk in Hdest1.
  simpl in Hdest1. injection Hdest1 as Hp.
  destruct (Hcol1 Hst) as (k' & b' & Ht' & Hb' & Hreq).
  cbn [arrived Truck.target] in Ht'. rewrite Ht in Ht'. injection Ht' as <-.
  rewrite Hb, Hbk in Hb'. injection Hb' as <-.
  unfold TruckAgent._collect. cbn [arrived Truck.target Truck.pos].
  rewrite Ht, Hb, Hbk, Hreq, Hp, pos_eqb_refl. cbn [negb].
  eexists. split; [reflexivity |].
  split; [simpl; rewrite list_lookup_alter_eq, Hself1; reflexivity |].
  split; [| simpl; exact Hs].
  simpl. rewrite list_lookup_alter_eq, Hb, Hbk. reflexivity.
Qed.

Lemma delivery_trip_witness :
  let m := fst (run 32 [] hamlet) in
  exists (self : Truck.t) (m' : Model),
    trucks m !! 0%nat = Some self
    /\ TruckAgent.substeps 2 0 [] m = (m', [])
    /\ trucks m' !! 0%nat = Some (Truck.unloaded (arrived (0, 0)%Z 1 self))
    /\ received m' == received m + Truck.current_load self
    /\ buildings m' = buildings m.
Proof.
  intros m.
  destruct (trucks m !! 0%nat) as [self |] eqn:E;
    [| vm_compute in E; discriminate].
  pose proof E as E'. vm_compute in E'. injection E' as E'.
  destruct (delivery_trip m 0 self (0, 0)%Z [] 1) as (m' & H).
  - split; [exact E |]. rewrite <- E'.
    split; [vm_compute; intuition discriminate |].
    split; [vm_compute; intuition discriminate |].
    split; [vm_compute; reflexivity |].
    split; [intros H; discriminate H |].
    intros [| j] tj Hj Hl; [contradiction |].
    apply lookup_lt_Some in Hl. vm_compute in Hl. lia.
  - rewrite <- E'. reflexivity.
  - rewrite <- E'. reflexivity.
  - exists self, m'. split; [reflexivity | exact H].
Defined.

Lemma collection_trip_witness :
  let m := fst (run 5 [] hamlet) in
  exists (self : Truck.t) (b : BuildingAgent.t) (m' : Model),
    trucks m !! 0%nat = Some self
    /\ buildings m !! 0%nat = Some b
    /\ TruckAgent.substeps 3 0 [] m = (m', [])
    /\ trucks m' !! 0%nat
       = Some (Truck.loaded (BuildingAgent.trash_level b)
                 (arrived (1, 0)%Z 2 self))
    /\ buildings m' !! 0%nat = Some (snd (BuildingAgent.collect_trash b))
    /\ disposal_site m' = disposal_site m.
Proof.
  intros m.
  destruct (trucks m !! 0%nat) as [self |] eqn:E;
    [| vm_compute in E; discriminate].
  destruct (buildings m !! 0%nat) as [b |] eqn:Eb;
    [| vm_compute in Eb; discriminate].
  pose proof E as E'. vm_compute in E'. injection E' as E'.
  pose proof Eb as Eb'. vm_compute in Eb'. injection Eb' as Eb'.
  destruct (collection_trip m 0 self (1, 0)%Z [] 2 0 b) as (m' & H).
  - split; [exact E |]. rewrite <- E'.
    split; [vm_compute; intuition discriminate |].
    split; [vm_compute; intuition discriminate |].
    split; [vm_compute; reflexivity |].
    split; [intros _; exists 0%nat, b; split; [reflexivity |];
            split; [exact Eb | rewrite <- Eb'; reflexivity] |].
    intros [| j] tj Hj Hl; [contradiction |].
    apply lookup_lt_Some in Hl. vm_compute in Hl. lia.
  - rewrite <- E'. reflexivity.
  - rewrite <- E'. reflexivity.
  - exact Eb.
  - rewrite <- E'. reflexivity.
  - exists self, b, m'. split; [reflexivity |]. split; [reflexivity | exact H].
Defined.

(** ** The reporter "Average Wait Time" *)

Lemma Qsum_at_least_length (l : list Q) :
  Forall (fun x => 1 <= x) l -> inject_Z (Z.of_nat (length l)) <= Qsum l.
Proof.
  induction 1 as [| x l Hx _ IH].
  - simpl. apply Qle_refl.
  - cbn [length Qsum fold_right]. fold (Qsum l).
    rewrite Nat2Z.inj_succ, <- Z.add_1_l, inject_Z_plus.
    change (inject_Z 1) with 1. lra.
Qed.

Lemma existsb_filter_nil {A : Type} (f : A -> bool) (l : list A) :
  List.existsb f l = false <-> List.filter f l = [].
Proof.
  induction l as [| x l IH]; simpl; [tauto |].
  destruct (f x); simpl; [split; discriminate | exact IH].
Qed.

(** X14 (the reporter "Average Wait Time" of [__init__], with
    [BuildingAgent.step] and [collect_trash]).  In every reachable state
    the reported average wait is 0 exactly when no building requests a
    pickup, and at least 1 otherwise: a request is never reported with a
    zero wait. *)
Theorem average_wait_time_bounds (m : Model) :
  reachable m ->
  (GarbageCollectionModel.buildings_needing_pickup m = 0%nat ->
   average_wait_time m = 0)
  /\ (GarbageCollectionModel.buildings_needing_pickup m <> 0%nat ->
      1 <= average_wait_time m).
Proof.
  intros Hr. destruct (reachable_coherent m Hr) as (_ & Hw & _).
  unfold GarbageCollectionModel.buildings_needing_pickup, average_wait_time.
  split.
  - intros H. apply length_zero_iff_nil, existsb_filter_nil in H.
    rewrite H. reflexivity.
  - intros H.
    destruct (List.existsb BuildingAgent.pickup_requested (buildings m)) eqn:E.
    2:{ apply existsb_filter_nil in E. rewrite E in H. contradiction. }
    set (waiting := List.filter BuildingAgent.pickup_requested (buildings m)) in *.
    assert (Hall : Forall (fun x => 1 <= x)
                     (map (fun b => inject_Z (BuildingAgent.pickup_wait_time b)) waiting)).
    { apply List.Forall_map. apply List.Forall_forall. intros b Hin.
      apply List.filter_In in Hin as [Hin Hreq].
      rewrite List.Forall_forall in Hw. specialize (Hw b Hin).
      unfold building_waits in Hw. rewrite Hreq in Hw.
      change 1 with (inject_Z 1). rewrite <- Zle_Qle. exact Hw. }
    apply Qsum_at_least_length in Hall. rewrite length_map in Hall.
    apply Qle_shift_div_l.
    + change 0 with (inject_Z 0). rewrite <- Zlt_Qlt. lia.
    + lra.
Qed.

Lemma average_wait_time_bounds_witness :
  1 <= average_wait_time (fst (run 9 [] village)).
Proof.
  apply average_wait_time_bounds.
  - exact (village_reachable 9).
  - vm_compute. discriminate.
Defined.

(** ** Conservation up to rounding *)

Lemma drift_zero (u : Q) : drift u 0 == 0.
Proof. unfold drift. simpl. lra. Qed.

Lemma drift_succ (u : Q) (n : nat) :
  0 <= u -> u < 1 ->
  (1 - u) * drift u (S n) == (1 + u) * drift u n + 2 * u.
Proof.
  intros H0 H1. unfold drift.
  assert (Hne : ~ (1 + u) / (1 - u) == 0).
  { intros E. apply (Qmult_inj_r _ _ (1 - u)) in E; [| lra].
    unfold Qdiv in E. rewrite <- Qmult_assoc, (Qmult_comm (/ _)), Qmult_inv_r in E; lra. }
  rewrite Nat2Z.inj_succ, <- Z.add_1_r, Qpower_plus by exact Hne.
  change (((1 + u) / (1 - u)) ^ 1) with ((1 + u) / (1 - u)).
  set (g := ((1 + u) / (1 - u)) ^ Z.of_nat n).
  field. lra.
Qed.

Lemma drift_nonneg (u : Q) (n : nat) : 0 <= u -> u < 1 -> 0 <= drift u n.
Proof.
  intros H0 H1. induction n as [| n IH].
  - rewrite drift_zero. lra.
  - pose proof (drift_succ u n H0 H1) as E.
    assert (0 <= (1 - u) * drift u (S n)) by (rewrite E; nra).
    nra.
Qed.

Lemma drift_mono (u : Q) (n : nat) :
  0 <= u -> u < 1 -> drift u n <= drift u (S n).
Proof.
  intros H0 H1. pose proof (drift_succ u n H0 H1) as E.
  pose proof (drift_nonneg u n H0 H1). pose proof (drift_nonneg u (S n) H0 H1).
  nra.
Qed.

Lemma drift_le (u : Q) (n k : nat) :
  0 <= u -> u < 1 -> (n <= k)%nat -> drift u n <= drift u k.
Proof.
  intros H0 H1. induction 1 as [| k Hle IH]; [lra |].
  pose proof (drift_mono u k H0 H1). lra.
Qed.

Lemma scale_le (u a b : Q) : 0 <= u -> a <= b -> u * a <= u * b.
Proof.
  intros Hu Hab. rewrite !(Qmult_comm u). apply Qmult_le_compat_r; assumption.
Qed.

(** The arithmetic of one rounded addition to both sides. *)
Lemma absorb_generate (u c c' G D l t rho l' t' : Q) :
  0 <= u -> u < 1 -> 0 <= c -> 0 <= c' ->
  (1 - u) * c' == (1 + u) * c + 2 * u ->
  0 <= l -> 0 <= t -> 0 <= rho ->
  - (c * G) <= D <= c * G -> t <= G -> l <= G - D ->
  (l + rho) - u * (l + rho) <= l' <= (l + rho) + u * (l + rho) ->
  (t + rho) - u * (t + rho) <= t' <= (t + rho) + u * (t + rho) ->
  - (c' * (G + (t' - t))) <= D + (t' - t) - (l' - l) <= c' * (G + (t' - t)).
Proof.
  intros Hu0 Hu1 Hc Hc' E Hl Ht Hr [HD1 HD2] HtG HlG [Hl1 Hl2] [Ht1 Ht2].
  assert (HG : 0 <= G) by lra.
  assert (HuG : 0 <= u * G) by (apply Qmult_le_0_compat; lra).
  assert (Hur : 0 <= u * rho) by (apply Qmult_le_0_compat; lra).
  assert (HcG : 0 <= c * G) by lra.
  assert (Hut : u * t <= u * G) by (apply scale_le; lra).
  assert (Hul : u * l <= u * (G + c * G)) by (apply scale_le; lra).
  assert (Hlow : (1 - u) * (G + rho) <= G + (t' - t)) by lra.
  assert (Hc1 : c' * ((1 - u) * (G + rho)) <= c' * (G + (t' - t)))
    by (apply scale_le; lra).
  assert (Hx : c' * ((1 - u) * (G + rho)) == ((1 + u) * c + 2 * u) * (G + rho)).
  { rewrite <- E. ring. }
  assert (Hcr : 0 <= c * rho) by (apply Qmult_le_0_compat; lra).
  assert (Hucr : 0 <= u * (c * rho)) by (apply Qmult_le_0_compat; lra).
  split; lra.
Qed.

(** The arithmetic of one rounded addition to one side only. *)
Lemma absorb_transfer (u c c' G D x e : Q) :
  0 <= u -> u < 1 -> 0 <= c -> 0 <= c' ->
  (1 - u) * c' == (1 + u) * c + 2 * u ->
  0 <= G -> 0 <= x -> - (c * G) <= D <= c * G -> x <= G - D ->
  - (u * x) <= e <= u * x ->
  - (c' * G) <= D - e <= c' * G.
Proof.
  intros Hu0 Hu1 Hc Hc' E HG Hx [HD1 HD2] HxG [He1 He2].
  assert (HcG : 0 <= c * G) by lra.
  assert (Hux : u * x <= u * (G + c * G)) by (apply scale_le; lra).
  assert (HuG : 0 <= u * G) by (apply Qmult_le_0_compat; lra).
  assert (Hc'G : (1 - u) * (c' * G) == ((1 + u) * c + 2 * u) * G).
  { rewrite <- E. ring. }
  assert (0 <= c' * G) by (apply Qmult_le_0_compat; lra).
  assert (0 <= u * (c' * G)) by (apply Qmult_le_0_compat; lra).
  split; lra.
Qed.

Lemma moved_rounded_effect (fl : Q -> Q) (i : nat) (self : Truck.t) (m m' : Model) :
  moved i m m' -> rounded_effect fl i self m m'.
Proof.
  intros [| p]; [constructor |]. apply reff_only. intros t0. auto.
Qed.

Lemma rounded_substep_effect (fl : Q -> Q) (i : nat) (self : Truck.t) (r : Rng)
    (m : Model) :
  trucks m !! i = Some self ->
  rounded_effect fl i self m (fst (Rounded.substep fl i r m)).
Proof.
  intros Hself. unfold Rounded.substep. rewrite Hself.
  destruct (Truck.state self) eqn:St.
  - unfold TruckAgent._patrol.
    destruct (TruckAgent.buildings_needing_pickup m) as [| c cs] eqn:Hc.
    + apply moved_rounded_effect, move_randomly_moved.
    + simpl. apply reff_only. intros t0. auto.
  - unfold Rounded._collect.
    destruct (Truck.target self) as [k |] eqn:Ht.
    + destruct (buildings m !! k) as [b |] eqn:Hb; [| constructor].
      destruct (BuildingAgent.pickup_requested b) eqn:Hr; simpl.
      * destruct (pos_eqb (Truck.pos self) (BuildingAgent.pos b)) eqn:Hp; simpl.
        -- apply (reff_harvest fl i self m k b Hb).
        -- apply moved_rounded_effect, move_towards_moved.
      * apply reff_only. intros t0. auto.
    + apply reff_only. intros t0. auto.
  - unfold Rounded._return_to_disposal.
    destruct (disposal_site m) as [d |] eqn:Hd; [| constructor].
    destruct (pos_eqb (Truck.pos self) (DisposalSiteAgent.pos d)) eqn:Hp; simpl.
    + apply (reff_unload fl i self m d Hd).
    + apply moved_rounded_effect, move_towards_moved.
Qed.

Lemma Qsum_nonneg {A : Type} (g : A -> Q) (l : list A) :
  Forall (fun x => 0 <= g x) l -> 0 <= Qsum (map g l).
Proof.
  induction 1 as [| x l Hx _ IH]; simpl; [lra |]. fold (Qsum (map g l)). lra.
Qed.

Lemma Qsum_member_le {A : Type} (g : A -> Q) (l : list A) (k : nat) (x : A) :
  Forall (fun x => 0 <= g x) l -> l !! k = Some x -> g x <= Qsum (map g l).
Proof.
  intros H. revert k. induction H as [| y l Hy Hl IH]; intros [| k] E;
    simpl in *; try discriminate.
  - injection E as ->. pose proof (Qsum_nonneg g l Hl). fold (Qsum (map g l)). lra.
  - specialize (IH k E). fold (Qsum (map g l)). lra.
Qed.

Lemma alter_missing {A : Type} (f : A -> A) (l : list A) (k : nat) :
  l !! k = None -> alter f k l = l.
Proof.
  intros H. apply list_eq. intros j. destruct (decide (k = j)) as [-> | Hne].
  - rewrite list_lookup_alter_eq, H. reflexivity.
  - apply list_lookup_alter_ne. exact Hne.
Qed.

Lemma building_step_amounts (fl : Q -> Q) (b : BuildingAgent.t) :
  BuildingAgent.trash_level (Rounded.building_step fl b)
  = BuildingAgent.trash_level (Rounded.generate fl b)
  /\ BuildingAgent.total_trash_generated (Rounded.building_step fl b)
     = BuildingAgent.total_trash_generated (Rounded.generate fl b)
  /\ BuildingAgent.trash_generation_rate (Rounded.building_step fl b)
     = BuildingAgent.trash_generation_rate b.
Proof.
  unfold Rounded.building_step, BuildingAgent.count_wait, Rounded.raise_request,
    Rounded.generate.
  destruct (Qlt_bool _ _); simpl;
    destruct (Qle_bool _ _ && negb _)%bool; simpl;
    try destruct (BuildingAgent.pickup_requested b); simpl; auto.
Qed.

Section Rounding.

Variable fl : Q -> Q.
Variable u : Q.
Hypothesis Hfl : rounds fl u.

Lemma fl_bounds (x : Q) : 0 <= x -> x - u * x <= fl x <= x + u * x.
Proof.
  intros Hx. destruct Hfl as (_ & _ & H). specialize (H x).
  rewrite (Qabs_pos x Hx) in H. apply Qabs_diff_Qle_condition in H.
  destruct H as [H1 H2]. split; lra.
Qed.

Lemma fl_nonneg (x : Q) : 0 <= x -> 0 <= fl x.
Proof.
  intros Hx. destruct (fl_bounds x Hx) as [H _].
  destruct Hfl as (H0 & H1 & _).
  assert (0 <= (1 - u) * x) by (apply Qmult_le_0_compat; lra). lra.
Qed.

Lemma balanced_weaken (c c' : Q) (m : Model) :
  c <= c' -> balanced c m -> balanced c' m.
Proof.
  intros Hc [Hn Hb]. split; [exact Hn |].
  assert (HG : 0 <= GarbageCollectionModel.total_trash_generated m).
  { apply Qsum_nonneg. destruct Hn as [HB _].
    eapply Forall_impl; [exact HB |]. simpl. tauto. }
  assert (c * GarbageCollectionModel.total_trash_generated m
          <= c' * GarbageCollectionModel.total_trash_generated m)
    by (apply Qmult_le_compat_r; assumption).
  lra.
Qed.

End Rounding.

Section Absorbing.

Variable fl : Q -> Q.
Variable u : Q.
Hypothesis Hfl : rounds fl u.
Variables c c' : Q.
Hypothesis Hc : 0 <= c.
Hypothesis Hc' : 0 <= c'.
Hypothesis Hnext : (1 - u) * c' == (1 + u) * c + 2 * u.

Lemma next_le : c <= c'.
Proof.
  destruct Hfl as (H0 & H1 & _).
  assert (0 <= u * c) by (apply Qmult_le_0_compat; lra).
  assert (0 <= u * c') by (apply Qmult_le_0_compat; lra).
  lra.
Qed.

Lemma building_step_balanced (k : nat) (m : Model) :
  balanced c m -> balanced c' (update_building k (Rounded.building_step fl) m).
Proof.
  intros Hb.
  destruct (buildings m !! k) as [b |] eqn:Hk.
  2:{ unfold update_building. rewrite (alter_missing _ _ _ Hk).
      apply (balanced_weaken c c'); [apply next_le |].
      destruct m; exact Hb. }
  destruct Hb as [(HB & HT & HR) HD].
  assert (Hb : 0 <= BuildingAgent.trash_level b
               /\ 0 <= BuildingAgent.total_trash_generated b
               /\ 0 <= BuildingAgent.trash_generation_rate b)
    by exact (Forall_lookup_1 _ _ _ _ HB Hk).
  destruct Hb as (Hl & Ht & Hr).
  destruct (building_step_amounts fl b) as (E1 & E2 & E3).
  assert (Hgen : (BuildingAgent.trash_level (Rounded.generate fl b)
                  = BuildingAgent.trash_level b
                  /\ BuildingAgent.total_trash_generated (Rounded.generate fl b)
                     = BuildingAgent.total_trash_generated b)
                 \/ (BuildingAgent.trash_level (Rounded.generate fl b)
                     = fl (BuildingAgent.trash_level b
                           + BuildingAgent.trash_generation_rate b)
                     /\ BuildingAgent.total_trash_generated (Rounded.generate fl b)
                        = fl (BuildingAgent.total_trash_generated b
                              + BuildingAgent.trash_generation_rate b))).
  { unfold Rounded.generate. destruct (Qlt_bool _ _); simpl; auto. }
  split.
  - split; [| split; [exact HT | exact HR]]. simpl.
    apply Forall_alter_inv; [exact HB |]. intros x Hx _.
    rewrite Hk in Hx. injection Hx as <-. rewrite E1, E2, E3.
    destruct Hgen as [[-> ->] | [-> ->]]; [auto |].
    split; [| split; [| exact Hr]]; apply (fl_nonneg fl u Hfl); lra.
  - unfold imbalance, GarbageCollectionModel.total_trash_generated, received,
      loads, levels in *.
    cbn [update_building update_truck set_buildings set_trucks set_disposal_site buildings trucks disposal_site].
    rewrite (Qsum_alter BuildingAgent.total_trash_generated _ _ _ _ Hk).
    rewrite (Qsum_alter BuildingAgent.trash_level _ _ _ _ Hk).
    rewrite E1, E2.
    set (G := Qsum (map BuildingAgent.total_trash_generated (buildings m))) in *.
    set (V := Qsum (map BuildingAgent.trash_level (buildings m))) in *.
    set (L := Qsum (map Truck.current_load (trucks m))) in *.
    set (R := match disposal_site m with
              | Some d => DisposalSiteAgent.total_received d
              | None => 0
              end) in *.
    assert (HtG : BuildingAgent.total_trash_generated b <= G).
    { apply (Qsum_member_le BuildingAgent.total_trash_generated _ k); [| exact Hk].
      eapply Forall_impl; [exact HB |]. simpl. tauto. }
    assert (HlV : BuildingAgent.trash_level b <= V).
    { apply (Qsum_member_le BuildingAgent.trash_level _ k); [| exact Hk].
      eapply Forall_impl; [exact HB |]. simpl. tauto. }
    assert (HL : 0 <= L) by (apply Qsum_nonneg; exact HT).
    apply Qabs_Qle_condition in HD. apply Qabs_Qle_condition.
    destruct Hfl as (H0 & H1 & _).
    destruct Hgen as [[-> ->] | [-> ->]].
    + pose proof next_le as Hle.
      assert (HG : 0 <= G) by lra.
      assert (c * G <= c' * G) by (apply Qmult_le_compat_r; assumption).
      split; lra.
    + pose proof (fl_bounds fl u Hfl
                    (BuildingAgent.trash_level b
                     + BuildingAgent.trash_generation_rate b) ltac:(lra)) as F1.
      pose proof (fl_bounds fl u Hfl
                    (BuildingAgent.total_trash_generated b
                     + BuildingAgent.trash_generation_rate b) ltac:(lra)) as F2.
      pose proof (absorb_generate u c c' G (G - (R + L + V))
                    (BuildingAgent.trash_level b)
                    (BuildingAgent.total_trash_generated b)
                    (BuildingAgent.trash_generation_rate b)
                    _ _ H0 H1 Hc Hc' Hnext Hl Ht Hr HD HtG ltac:(lra) F1 F2) as HA.
      split; lra.
Qed.

Lemma effect_balanced (i : nat) (self : Truck.t) (m m' : Model) :
  trucks m !! i = Some self ->
  rounded_effect fl i self m m' -> balanced c m -> balanced c' m'.
Proof.
  intros Hself Heff Hbal.
  pose proof next_le as Hle.
  destruct Heff as [| f Hf | k b Hk | d Hd].
  - apply (balanced_weaken c c'); assumption.
  - apply (balanced_weaken c c'); [assumption |].
    destruct Hbal as [(HB & HT & HR) HD]. split.
    + split; [exact HB | split; [| exact HR]]. simpl.
      apply Forall_alter_inv; [exact HT |]. intros x _ Hx.
      destruct (Hf x) as [-> _]. exact Hx.
    + unfold imbalance, GarbageCollectionModel.total_trash_generated, received,
        loads, levels in *.
    cbn [update_building update_truck set_buildings set_trucks set_disposal_site buildings trucks disposal_site].
      rewrite (Qsum_alter_same Truck.current_load)
        by (intros x; destruct (Hf x) as [-> _]; reflexivity).
      exact HD.
  - destruct Hbal as [(HB & HT & HR) HD].
    assert (Hb : 0 <= BuildingAgent.trash_level b
                 /\ 0 <= BuildingAgent.total_trash_generated b
                 /\ 0 <= BuildingAgent.trash_generation_rate b)
      by exact (Forall_lookup_1 _ _ _ _ HB Hk).
    destruct Hb as (Hl & Ht & Hr).
    assert (Hload : 0 <= Truck.current_load self)
      by exact (Forall_lookup_1 _ _ _ _ HT Hself).
    split.
    + split; [| split; [| exact HR]]; simpl.
      * apply Forall_alter_inv; [exact HB |]. intros x _ (_ & Hx & Hx').
        simpl. split; [lra | auto].
      * apply Forall_alter_inv; [exact HT |]. intros x _ Hx. simpl.
        apply (fl_nonneg fl u Hfl). lra.
    + unfold imbalance, GarbageCollectionModel.total_trash_generated, received,
        loads, levels in *.
    cbn [update_building update_truck set_buildings set_trucks set_disposal_site buildings trucks disposal_site].
      rewrite (Qsum_alter Truck.current_load _ _ _ _ Hself).
      rewrite (Qsum_alter BuildingAgent.trash_level _ _ _ _ Hk).
      rewrite (Qsum_alter_same BuildingAgent.total_trash_generated)
        by (intros; reflexivity).
      cbn [BuildingAgent.collect_trash snd BuildingAgent.trash_level
           Rounded.loaded Truck.current_load].
      set (G := Qsum (map BuildingAgent.total_trash_generated (buildings m))) in *.
      set (V := Qsum (map BuildingAgent.trash_level (buildings m))) in *.
      set (L := Qsum (map Truck.current_load (trucks m))) in *.
      set (R := match disposal_site m with
                | Some d => DisposalSiteAgent.total_received d
                | None => 0
                end) in *.
      assert (HG : 0 <= G).
      { apply Qsum_nonneg. eapply Forall_impl; [exact HB |]. simpl. tauto. }
      assert (HlV : BuildingAgent.trash_level b <= V).
      { apply (Qsum_member_le BuildingAgent.trash_level _ k); [| exact Hk].
        eapply Forall_impl; [exact HB |]. simpl. tauto. }
      assert (HsL : Truck.current_load self <= L)
        by (apply (Qsum_member_le Truck.current_load _ i); assumption).
      apply Qabs_Qle_condition in HD. apply Qabs_Qle_condition.
      destruct Hfl as (H0 & H1 & _).
      pose proof (fl_bounds fl u Hfl
                    (Truck.current_load self + BuildingAgent.trash_level b)
                    ltac:(lra)) as F.
      pose proof (absorb_transfer u c c' G (G - (R + L + V))
                    (Truck.current_load self + BuildingAgent.trash_level b)
                    (fl (Truck.current_load self + BuildingAgent.trash_level b)
                     - (Truck.current_load self + BuildingAgent.trash_level b))
                    H0 H1 Hc Hc' Hnext HG ltac:(lra) HD ltac:(lra) ltac:(lra)) as HA.
      split; lra.
  - destruct Hbal as [(HB & HT & HR) HD].
    assert (Hload : 0 <= Truck.current_load self)
      by exact (Forall_lookup_1 _ _ _ _ HT Hself).
    unfold received in HR. rewrite Hd in HR.
    split.
    + split; [exact HB | split]; simpl.
      * apply Forall_alter_inv; [exact HT |]. intros x _ Hx. simpl. lra.
      * unfold received. simpl. apply (fl_nonneg fl u Hfl). lra.
    + unfold imbalance, GarbageCollectionModel.total_trash_generated, received,
        loads, levels in *.
    cbn [update_building update_truck set_buildings set_trucks set_disposal_site buildings trucks disposal_site].
      rewrite (Qsum_alter Truck.current_load _ _ _ _ Hself).
      rewrite Hd in HD.
      cbn [Rounded.receive_trash DisposalSiteAgent.total_received
           Truck.unloaded Truck.current_load].
      set (G := Qsum (map BuildingAgent.total_trash_generated (buildings m))) in *.
      set (V := Qsum (map BuildingAgent.trash_level (buildings m))) in *.
      set (L := Qsum (map Truck.current_load (trucks m))) in *.
      set (R := DisposalSiteAgent.total_received d) in *.
      assert (HG : 0 <= G).
      { apply Qsum_nonneg. eapply Forall_impl; [exact HB |]. simpl. tauto. }
      assert (HV : 0 <= V).
      { apply Qsum_nonneg. eapply Forall_impl; [exact HB |]. simpl. tauto. }
      assert (HsL : Truck.current_load self <= L)
        by (apply (Qsum_member_le Truck.current_load _ i); assumption).
      apply Qabs_Qle_condition in HD. apply Qabs_Qle_condition.
      destruct Hfl as (H0 & H1 & _).
      pose proof (fl_bounds fl u Hfl (R + Truck.current_load self) ltac:(lra)) as F.
      pose proof (absorb_transfer u c c' G (G - (R + L + V))
                    (R + Truck.current_load self)
                    (fl (R + Truck.current_load self) - (R + Truck.current_load self))
                    H0 H1 Hc Hc' Hnext HG ltac:(lra) HD ltac:(lra) ltac:(lra)) as HA.
      split; lra.
Qed.

End Absorbing.

Lemma sized_effect (fl : Q -> Q) (i : nat) (self : Truck.t) (m0 m m' : Model) :
  rounded_effect fl i self m m' -> sized m0 m -> sized m0 m'.
Proof.
  intros Heff (HB & HT & HS).
  destruct Heff as [| f Hf | k b Hk | d Hd]; unfold sized;
    cbn [update_building update_truck set_buildings set_trucks set_disposal_site
         buildings trucks disposal_site];
    rewrite ?length_alter.
  - auto.
  - split; [exact HB | split; [exact HT |]].
    apply Forall_alter_inv; [exact HS |]. intros x _ Hx.
    destruct (Hf x) as (_ & _ & ->). exact Hx.
  - split; [exact HB | split; [exact HT |]].
    apply Forall_alter_inv; [exact HS |]. intros x _ Hx. exact Hx.
  - split; [exact HB | split; [exact HT |]].
    apply Forall_alter_inv; [exact HS |]. intros x _ Hx. exact Hx.
Qed.

Lemma cost_schedule (m : Model) :
  list_sum (map cost (schedule_agents m)) = passes m.
Proof.
  unfold schedule_agents, passes. rewrite !map_app, !list_sum_app, !map_map.
  assert (H1 : forall l : list nat,
             list_sum (map (fun x => cost (ABuilding x)) l) = length l).
  { induction l as [| x l IH]; [reflexivity |].
    change (S (list_sum (map (fun x => cost (ABuilding x)) l)) = S (length l)).
    rewrite IH. reflexivity. }
  assert (H2 : forall l : list nat,
             list_sum (map (fun x => cost (ATruck x)) l) = (2 * length l)%nat).
  { induction l as [| x l IH]; [reflexivity |].
    change (S (S (list_sum (map (fun x => cost (ATruck x)) l)))
            = (2 * S (length l))%nat).
    rewrite IH. lia. }
  rewrite H1, H2, !length_seq. destruct (disposal_site m); simpl; lia.
Qed.

(** ** Counting the rounded additions of a run

    [J n m] stands for a property of the states reached with at most [n]
    passes that add amounts. *)

Section Counted.

Variable fl : Q -> Q.
Variable m0 : Model.
Variable J : nat -> Model -> Prop.
Hypothesis J_sized : forall n m, J n m -> sized m0 m.
Hypothesis J_weaken : forall n k m, (n <= k)%nat -> J n m -> J k m.
Hypothesis J_building :
  forall n k m, J n m -> J (S n) (update_building k (Rounded.building_step fl) m).
Hypothesis J_substep :
  forall n i r m, J n m -> J (S n) (fst (Rounded.substep fl i r m)).

Lemma counted_substeps (s n i : nat) (r : Rng) (m : Model) :
  J n m -> J (n + s)%nat (fst (Rounded.substeps fl s i r m)).
Proof.
  revert n r m. induction s as [| s IH]; intros n r m H.
  - simpl. rewrite Nat.add_0_r. exact H.
  - cbn [Rounded.substeps].
    pose proof (J_substep n i r m H) as H1.
    destruct (Rounded.substep fl i r m) as [m' r']. simpl in H1.
    replace (n + S s)%nat with (S n + s)%nat by lia. apply IH. exact H1.
Qed.

Lemma counted_activate (a : AgentRef) (n : nat) (r : Rng) (m : Model) :
  J n m -> J (n + cost a)%nat (fst (Rounded.activate fl a r m)).
Proof.
  intros H. destruct a as [k | i |]; cbn [Rounded.activate cost fst].
  - rewrite Nat.add_1_r. apply J_building. exact H.
  - unfold Rounded.truck_step.
    destruct (trucks m !! i) as [self |] eqn:Hself.
    + assert (Hsp : (Z.to_nat (Truck.speed self) <= 2)%nat).
      { destruct (J_sized n m H) as (_ & _ & HS).
        pose proof (Forall_lookup_1 _ _ _ _ HS Hself) as Hv. simpl in Hv. lia. }
      apply (J_weaken (n + Z.to_nat (Truck.speed self))); [lia |].
      apply counted_substeps. exact H.
    + simpl. apply (J_weaken n); [lia | exact H].
  - rewrite disposal_step_id, Nat.add_0_r. exact H.
Qed.

Lemma counted_activate_all (order : list AgentRef) (n : nat) (r : Rng) (m : Model) :
  J n m ->
  J (n + list_sum (map cost order))%nat (fst (Rounded.activate_all fl order r m)).
Proof.
  revert n r m. induction order as [| a order IH]; intros n r m H.
  - simpl. rewrite Nat.add_0_r. exact H.
  - cbn [Rounded.activate_all].
    change (list_sum (map cost (a :: order)))
      with (cost a + list_sum (map cost order))%nat.
    pose proof (counted_activate a n r m H) as H1.
    destruct (Rounded.activate fl a r m) as [m' r']. simpl in H1.
    rewrite Nat.add_assoc. apply IH. exact H1.
Qed.

Lemma counted_step (n : nat) (r : Rng) (m : Model) :
  J n m -> J (n + passes m0)%nat (fst (Rounded.step fl r m)).
Proof.
  intros H. unfold Rounded.step.
  pose proof (shuffle_Permutation (schedule_agents m) r) as Hperm.
  unfold GarbageCollectionModel.activation_order.
  destruct (shuffle (schedule_agents m) r) as [order r']. simpl in Hperm.
  assert (E : list_sum (map cost order) = passes m0).
  { rewrite Hperm, cost_schedule. unfold passes.
    destruct (J_sized n m H) as (HB & HT & _). rewrite HB, HT. reflexivity. }
  rewrite <- E. apply counted_activate_all. exact H.
Qed.

Lemma counted_run (k n : nat) (r : Rng) (m : Model) :
  J n m -> J (n + k * passes m0)%nat (fst (Rounded.run fl k r m)).
Proof.
  revert n r m. induction k as [| k IH]; intros n r m H.
  - simpl. rewrite Nat.add_0_r. exact H.
  - cbn [Rounded.run].
    pose proof (counted_step n r m H) as H1.
    destruct (Rounded.step fl r m) as [m' r']. simpl in H1.
    replace (n + S k * passes m0)%nat with (n + passes m0 + k * passes m0)%nat by lia.
    apply IH. exact H1.
Qed.

End Counted.

Section Conserving.

Variable fl : Q -> Q.
Variable u : Q.
Hypothesis Hfl : rounds fl u.
Variable m0 : Model.

Lemma within_sized (n : nat) (m : Model) : within u m0 n m -> sized m0 m.
Proof. intros [H _]. exact H. Qed.

Lemma within_weaken (n k : nat) (m : Model) :
  (n <= k)%nat -> within u m0 n m -> within u m0 k m.
Proof.
  intros Hle [Hs Hb]. split; [exact Hs |].
  destruct Hfl as (H0 & H1 & _).
  apply (balanced_weaken (drift u n)); [apply drift_le; assumption | exact Hb].
Qed.

Lemma within_building (n k : nat) (m : Model) :
  within u m0 n m ->
  within u m0 (S n) (update_building k (Rounded.building_step fl) m).
Proof.
  intros [(HB & HT & HS) Hb]. destruct Hfl as (H0 & H1 & _). split.
  - unfold sized. cbn [update_building set_buildings buildings trucks].
    rewrite length_alter. auto.
  - apply (building_step_balanced fl u Hfl (drift u n) (drift u (S n)));
      [apply drift_nonneg | apply drift_nonneg | apply drift_succ | exact Hb];
      assumption.
Qed.

Lemma within_substep (n i : nat) (r : Rng) (m : Model) :
  within u m0 n m -> within u m0 (S n) (fst (Rounded.substep fl i r m)).
Proof.
  intros H. destruct (trucks m !! i) as [self |] eqn:Hself.
  - pose proof (rounded_substep_effect fl i self r m Hself) as Heff.
    destruct H as [Hs Hb]. destruct Hfl as (H0 & H1 & _). split.
    + exact (sized_effect fl i self m0 m _ Heff Hs).
    + apply (effect_balanced fl u Hfl (drift u n) (drift u (S n))
               ltac:(apply drift_nonneg; assumption)
               ltac:(apply drift_nonneg; assumption)
               ltac:(apply drift_succ; assumption) i self m _ Hself Heff Hb).
  - unfold Rounded.substep. rewrite Hself. simpl.
    apply (within_weaken n); [lia | exact H].
Qed.

Lemma within_run (k : nat) (r : Rng) (m : Model) :
  within u m0 0 m ->
  within u m0 (k * passes m0) (fst (Rounded.run fl k r m)).
Proof.
  apply (counted_run fl m0 (within u m0) within_sized within_weaken
           within_building within_substep k 0 r m).
Qed.

Lemma fresh_within : fresh m0 -> within u m0 0 m0.
Proof.
  intros (HB & HT & HR). split; [| split].
  - split; [reflexivity | split; [reflexivity |]].
    eapply Forall_impl; [exact HT |]. intros t0 (_ & _ & _ & _ & Hv). simpl. lia.
  - split; [| split].
    + eapply Forall_impl; [exact HB |]. intros b (Hl & Ht & _ & _ & Hg).
      simpl. rewrite Hl, Ht. repeat split; lra.
    + eapply Forall_impl; [exact HT |]. intros t0 (Hl & _). simpl. rewrite Hl. lra.
    + rewrite HR. lra.
  - unfold imbalance, GarbageCollectionModel.total_trash_generated, loads, levels.
    rewrite HR.
    rewrite (Qsum_zero BuildingAgent.total_trash_generated),
      (Qsum_zero BuildingAgent.trash_level), (Qsum_zero Truck.current_load).
    + rewrite drift_zero. vm_compute. discriminate.
    + eapply Forall_impl; [exact HT |]. intros x Hx. apply Hx.
    + eapply Forall_impl; [exact HB |]. intros x Hx. apply Hx.
    + eapply Forall_impl; [exact HB |]. intros x Hx. apply Hx.
Qed.

End Conserving.

(** ** binary64 rounds with relative error [2 ^ -53] *)

Lemma nearest_even_close (x : Q) :
  Qabs (inject_Z (nearest_even x) - x) <= 1 # 2.
Proof.
  unfold nearest_even.
  pose proof (Qfloor_le x) as H1. pose proof (Qlt_floor x) as H2.
  rewrite inject_Z_plus in H2. change (inject_Z 1) with 1 in H2.
  apply Qabs_Qle_condition.
  destruct (Qcompare (x - inject_Z (Qfloor x)) (1 # 2)) eqn:E.
  - apply Qeq_alt in E.
    destruct (Z.even (Qfloor x));
      rewrite ?inject_Z_plus; change (inject_Z 1) with 1; split; lra.
  - apply Qlt_alt in E. split; lra.
  - apply Qgt_alt in E. rewrite inject_Z_plus. change (inject_Z 1) with 1.
    split; lra.
Qed.

Lemma two_power_pos (e : Z) : 0 < 2 ^ e.
Proof. apply Qpower_0_lt. reflexivity. Qed.

Lemma log2_lower (a : Q) :
  0 < a -> 2 ^ (Z.log2 (Qnum a) - Z.log2 (Zpos (Qden a)) - 1) <= a.
Proof.
  destruct a as [n d]. intros Ha. cbn [Qnum Qden].
  assert (Hn : (0 < n)%Z).
  { unfold Qlt in Ha. simpl in Ha. lia. }
  destruct (Z.log2_spec n Hn) as [Hn1 _].
  destruct (Z.log2_spec (Zpos d) ltac:(lia)) as [_ Hd2].
  pose proof (Z.log2_nonneg n) as Hln. pose proof (Z.log2_nonneg (Zpos d)) as Hld.
  set (ln := Z.log2 n) in *. set (ld := Z.log2 (Zpos d)) in *.
  replace (ln - ld - 1)%Z with (ln - (ld + 1))%Z by lia.
  rewrite Qpower_minus by discriminate.
  rewrite <- (Zpower_Qpower 2 ln) by exact Hln.
  rewrite <- (Zpower_Qpower 2 (ld + 1)) by lia.
  rewrite (Qmake_Qdiv n d).
  assert (HA : inject_Z (2 ^ ln) <= inject_Z n) by (rewrite <- Zle_Qle; exact Hn1).
  assert (HB : inject_Z (Zpos d) <= inject_Z (2 ^ (ld + 1)))
    by (rewrite <- Zle_Qle; lia).
  assert (Hd0 : 0 < inject_Z (Zpos d)) by (change 0 with (inject_Z 0); rewrite <- Zlt_Qlt; lia).
  assert (Hp0 : 0 < inject_Z (2 ^ ln)).
  { change 0 with (inject_Z 0). rewrite <- Zlt_Qlt. apply Z.pow_pos_nonneg; lia. }
  set (A := inject_Z (2 ^ ln)) in *. set (N := inject_Z n) in *.
  set (D := inject_Z (Zpos d)) in *. set (B := inject_Z (2 ^ (ld + 1))) in *.
  apply Qle_shift_div_l; [exact Hd0 |].
  unfold Qdiv. rewrite <- Qmult_assoc, (Qmult_comm (/ B)), Qmult_assoc.
  apply Qle_shift_div_r; [lra |].
  assert (A * D <= N * D) by (apply Qmult_le_compat_r; lra).
  assert (N * D <= N * B) by (apply scale_le; lra).
  lra.
Qed.

(** The significand is at least [2 ^ 52]. *)
Lemma binary64_exponent (a : Q) :
  0 < a ->
  let e0 := (Z.log2 (Qnum a) - Z.log2 (Zpos (Qden a)) - 52)%Z in
  let e := if Qle_bool (2 ^ 52) (a / 2 ^ e0) then e0 else (e0 - 1)%Z in
  2 ^ 52 * 2 ^ e <= a.
Proof.
  intros Ha e0 e. subst e.
  destruct (Qle_bool (2 ^ 52) (a / 2 ^ e0)) eqn:E.
  - apply Qle_bool_iff in E.
    apply (Qmult_le_compat_r _ _ (2 ^ e0)) in E; [| apply Qlt_le_weak, two_power_pos].
    unfold Qdiv in E. rewrite <- Qmult_assoc, (Qmult_comm (/ _)), Qmult_inv_r, Qmult_1_r in E;
      [exact E |].
    pose proof (two_power_pos e0). lra.
  - pose proof (log2_lower a Ha) as H.
    rewrite <- Qpower_plus by discriminate.
    replace (52 + (e0 - 1))%Z
      with (Z.log2 (Qnum a) - Z.log2 (Zpos (Qden a)) - 1)%Z by (subst e0; lia).
    exact H.
Qed.

Lemma binary64_rounds : rounds binary64 (1 # 9007199254740992).
Proof.
  split; [discriminate | split; [reflexivity |]]. intros x.
  unfold binary64.
  destruct (Qeq_bool x 0) eqn:E0.
  - apply Qeq_bool_iff in E0. rewrite E0. vm_compute. discriminate.
  - assert (Hx : ~ x == 0) by (intros H; apply Qeq_bool_iff in H; congruence).
    assert (Ha : 0 < Qabs x).
    { pose proof (Qabs_nonneg x). destruct (Qeq_dec (Qabs x) 0) as [H0 | H0]; [| lra].
      exfalso. apply Hx.
      destruct (Qabs_Qle_condition x 0) as [H1 _].
      destruct H1; [lra |]. lra. }
    pose proof (binary64_exponent (Qabs x) Ha) as He. cbn zeta in He.
    set (e := if Qle_bool (2 ^ 52)
                   (Qabs x / 2 ^ (Z.log2 (Qnum (Qabs x))
                                  - Z.log2 (Zpos (Qden (Qabs x))) - 52))
              then (Z.log2 (Qnum (Qabs x)) - Z.log2 (Zpos (Qden (Qabs x))) - 52)%Z
              else (Z.log2 (Qnum (Qabs x)) - Z.log2 (Zpos (Qden (Qabs x))) - 52 - 1)%Z)
      in *.
    pose proof (two_power_pos e) as Hp.
    pose proof (nearest_even_close (Qabs x / 2 ^ e)) as Hs.
    set (s := inject_Z (nearest_even (Qabs x / 2 ^ e))) in *.
    assert (Hv : Qabs (s * 2 ^ e - Qabs x) <= (1 # 9007199254740992) * Qabs x).
    { assert (E : s * 2 ^ e - Qabs x == (s - Qabs x / 2 ^ e) * 2 ^ e)
        by (field; lra).
      rewrite E, Qabs_Qmult, (Qabs_pos (2 ^ e)) by lra.
      assert (Qabs (s - Qabs x / 2 ^ e) * 2 ^ e <= (1 # 2) * 2 ^ e)
        by (apply Qmult_le_compat_r; lra).
      change (2 ^ 52) with 4503599627370496 in He. lra. }
    destruct (Qle_bool 0 x) eqn:Es; rewrite Qred_correct.
    + apply Qle_bool_iff in Es. rewrite (Qabs_pos x Es) in Hv |- *. exact Hv.
    + assert (Hneg : x <= 0).
      { destruct (Qlt_le_dec 0 x) as [H | H]; [| exact H].
        apply Qlt_le_weak, Qle_bool_iff in H. congruence. }
      rewrite (Qabs_neg x Hneg) in Hv |- *.
      assert (E : - (s * 2 ^ e) - x == - (s * 2 ^ e - - x)) by ring.
      rewrite E, Qabs_opp. exact Hv.
Qed.

(** ** Exact arithmetic is rounding with the identity *)

Lemma rounded_substeps_exact (n i : nat) (r : Rng) (m : Model) :
  Rounded.substeps (fun x => x) n i r m = TruckAgent.substeps n i r m.
Proof.
  revert r m. induction n as [| n IH]; intros r m; [reflexivity |].
  cbn [Rounded.substeps TruckAgent.substeps].
  change (Rounded.substep (fun x => x) i r m) with (TruckAgent.substep i r m).
  destruct (TruckAgent.substep i r m) as [m' r']. apply IH.
Qed.

Lemma rounded_activate_exact (a : AgentRef) (r : Rng) (m : Model) :
  Rounded.activate (fun x => x) a r m = GarbageCollectionModel.activate a r m.
Proof.
  destruct a as [k | i |]; [reflexivity | | reflexivity].
  cbn [Rounded.activate GarbageCollectionModel.activate].
  unfold Rounded.truck_step, TruckAgent.step.
  destruct (trucks m !! i); [apply rounded_substeps_exact | reflexivity].
Qed.

Lemma rounded_activate_all_exact (order : list AgentRef) (r : Rng) (m : Model) :
  Rounded.activate_all (fun x => x) order r m
  = GarbageCollectionModel.activate_all order r m.
Proof.
  revert r m. induction order as [| a order IH]; intros r m; [reflexivity |].
  cbn [Rounded.activate_all GarbageCollectionModel.activate_all].
  rewrite rounded_activate_exact.
  destruct (GarbageCollectionModel.activate a r m) as [m' r']. apply IH.
Qed.

Lemma rounded_run_exact (n : nat) (r : Rng) (m : Model) :
  Rounded.run (fun x => x) n r m = run n r m.
Proof.
  revert r m. induction n as [| n IH]; intros r m; [reflexivity |].
  cbn [Rounded.run run].
  assert (E : Rounded.step (fun x => x) r m = GarbageCollectionModel.step r m).
  { unfold Rounded.step, GarbageCollectionModel.step.
    destruct (GarbageCollectionModel.activation_order r m) as [order r'].
    apply rounded_activate_all_exact. }
  rewrite E. destruct (GarbageCollectionModel.step r m) as [m' r']. apply IH.
Qed.

Lemma drift_exact (u : Q) (n : nat) : u == 0 -> drift u n == 0.
Proof.
  intros Hu. induction n as [| n IH]; [apply drift_zero |].
  pose proof (drift_succ u n ltac:(lra) ltac:(lra)) as E.
  assert (H0 : forall c : Q, u * c == 0) by (intros c; rewrite Hu; ring).
  pose proof (H0 (drift u (S n))). pose proof (H0 (drift u n)). lra.
Qed.

(** C1, as stated, fails.  The amounts are floats.  The building of this
    town generates the float 1.1 per tick; the truck empties it in the
    twelfth tick, taking 10.999999999999998.  After the thirteenth tick
    the building has generated 13.199999999999998 in all, the truck
    carries 10.999999999999998 and the building holds 2.2: the two sides
    differ, whether the right-hand side is added exactly or in floats
    (13.2). *)
Lemma conservation_fails_in_floats :
  let m := fst (Rounded.run binary64 13 [] float_hamlet) in
  ~ conservation m
  /\ ~ GarbageCollectionModel.total_trash_generated m
       == binary64 (binary64 (received m + loads m) + levels m).
Proof.
  split; vm_compute; discriminate.
Qed.

(** C1, amended.  The amounts are floats, and the two sides of the
    conservation law are accumulated by different sequences of rounded
    additions.  Whatever the rounding [fl], of relative error at most [u]
    (for binary64, [u] is the inverse of [2 ^ 53]), after [n] calls to
    the model's [step()] on a freshly constructed model the total
    generated differs from received plus carried plus stored by at most
    [((1 + u) / (1 - u)) ^ N - 1] times the total generated, where [N]
    is [n] times the number of buildings plus twice the number of
    trucks.  With exact arithmetic ([u] is 0) the two sides are equal. *)
Theorem conservation_up_to_rounding
    (fl : Q -> Q) (u : Q) (m0 : Model) (n : nat) (r : Rng) :
  rounds fl u -> fresh m0 ->
  let m := fst (Rounded.run fl n r m0) in
  Qabs (GarbageCollectionModel.total_trash_generated m
        - (received m + loads m + levels m))
  <= drift u (n * passes m0) * GarbageCollectionModel.total_trash_generated m
  /\ (u == 0 -> conservation m).
Proof.
  intros Hfl Hfresh m.
  pose proof (within_run fl u Hfl m0 n r m0 (fresh_within u m0 Hfresh)) as [_ [_ H]].
  split; [exact H |].
  intros Hu. fold m in H. unfold imbalance in H.
  rewrite (drift_exact u _ Hu) in H.
  apply Qabs_Qle_condition in H. unfold conservation. lra.
Qed.

Lemma conservation_up_to_rounding_witness :
  let m := fst (Rounded.run binary64 13 [] float_hamlet) in
  Qabs (GarbageCollectionModel.total_trash_generated m
        - (received m + loads m + levels m))
  <= drift (1 # 9007199254740992) (13 * passes float_hamlet)
     * GarbageCollectionModel.total_trash_generated m.
Proof.
  refine (proj1 (conservation_up_to_rounding binary64 (1 # 9007199254740992)
                   float_hamlet 13 [] binary64_rounds _)).
  split; [| split].
  - apply List.Forall_cons; [| apply List.Forall_nil].
    vm_compute. intuition discriminate.
  - apply List.Forall_cons; [| apply List.Forall_nil].
    vm_compute. intuition discriminate.
  - reflexivity.
Defined.

(** ** Truck accounting up to rounding *)

Lemma accounted_weaken (c c' : Q) (m : Model) :
  c <= c' -> accounted c m -> accounted c' m.
Proof.
  intros Hc [Hn Hb]. split; [exact Hn |].
  assert (HG : 0 <= GarbageCollectionModel.total_trash_collected m)
    by (apply Qsum_nonneg; exact Hn).
  assert (c * GarbageCollectionModel.total_trash_collected m
          <= c' * GarbageCollectionModel.total_trash_collected m)
    by (apply Qmult_le_compat_r; assumption).
  lra.
Qed.

Section Accounting.

Variable fl : Q -> Q.
Variable u : Q.
Hypothesis Hfl : rounds fl u.
Variable m0 : Model.

Lemma effect_accounted (c c' : Q) (i : nat) (self : Truck.t) (m m' : Model) :
  0 <= c -> 0 <= c' -> (1 - u) * c' == (1 + u) * c + 2 * u ->
  trucks m !! i = Some self ->
  rounded_effect fl i self m m' ->
  amounts_nonneg m -> accounted c m -> accounted c' m'.
Proof.
  intros Hc Hc' Hnext Hself Heff (HB & HT & HR) Hacc.
  pose proof (next_le fl u Hfl c c' Hc Hc' Hnext) as Hle.
  destruct Heff as [| f Hf | k b Hk | d Hd].
  - apply (accounted_weaken c c'); assumption.
  - apply (accounted_weaken c c'); [assumption |].
    destruct Hacc as [HC HD]. split.
    + cbn [update_truck set_trucks trucks].
      apply Forall_alter_inv; [exact HC |]. intros x _ Hx.
      destruct (Hf x) as (_ & -> & _). exact Hx.
    + unfold GarbageCollectionModel.total_trash_collected, received, loads in *.
      cbn [update_truck set_trucks trucks disposal_site].
      rewrite (Qsum_alter_same Truck.current_load)
        by (intros x; destruct (Hf x) as [-> _]; reflexivity).
      rewrite (Qsum_alter_same Truck.total_collected)
        by (intros x; destruct (Hf x) as (_ & -> & _); reflexivity).
      exact HD.
  - destruct Hacc as [HC HD].
    assert (Hl : 0 <= BuildingAgent.trash_level b).
    { pose proof (Forall_lookup_1 _ _ _ _ HB Hk) as H. simpl in H. tauto. }
    assert (Hload : 0 <= Truck.current_load self)
      by exact (Forall_lookup_1 _ _ _ _ HT Hself).
    assert (Htc : 0 <= Truck.total_collected self)
      by exact (Forall_lookup_1 _ _ _ _ HC Hself).
    split.
    + cbn [update_building update_truck set_buildings set_trucks trucks].
      apply Forall_alter_inv; [exact HC |]. intros x _ Hx. simpl.
      apply (fl_nonneg fl u Hfl). lra.
    + unfold GarbageCollectionModel.total_trash_collected, received, loads in *.
      cbn [update_building update_truck set_buildings set_trucks trucks
           disposal_site].
      rewrite (Qsum_alter Truck.current_load _ _ _ _ Hself).
      rewrite (Qsum_alter Truck.total_collected _ _ _ _ Hself).
      cbn [Rounded.loaded Truck.current_load Truck.total_collected].
      set (G := Qsum (map Truck.total_collected (trucks m))) in *.
      set (L := Qsum (map Truck.current_load (trucks m))) in *.
      set (R := match disposal_site m with
                | Some d => DisposalSiteAgent.total_received d
                | None => 0
                end) in *.
      assert (HtG : Truck.total_collected self <= G)
        by (apply (Qsum_member_le Truck.total_collected _ i); assumption).
      assert (HsL : Truck.current_load self <= L)
        by (apply (Qsum_member_le Truck.current_load _ i); assumption).
      apply Qabs_Qle_condition in HD. apply Qabs_Qle_condition.
      destruct Hfl as (H0 & H1 & _).
      pose proof (fl_bounds fl u Hfl
                    (Truck.current_load self + BuildingAgent.trash_level b)
                    ltac:(lra)) as F1.
      pose proof (fl_bounds fl u Hfl
                    (Truck.total_collected self + BuildingAgent.trash_level b)
                    ltac:(lra)) as F2.
      pose proof (absorb_generate u c c' G (G - (R + L))
                    (Truck.current_load self) (Truck.total_collected self)
                    (BuildingAgent.trash_level b)
                    _ _ H0 H1 Hc Hc' Hnext Hload Htc Hl HD HtG ltac:(lra) F1 F2) as HA.
      split; lra.
  - destruct Hacc as [HC HD].
    assert (Hload : 0 <= Truck.current_load self)
      by exact (Forall_lookup_1 _ _ _ _ HT Hself).
    unfold received in HR. rewrite Hd in HR.
    split.
    + cbn [update_truck set_disposal_site set_trucks trucks].
      apply Forall_alter_inv; [exact HC |]. intros x _ Hx. exact Hx.
    + unfold GarbageCollectionModel.total_trash_collected, received, loads in *.
      cbn [update_truck set_disposal_site set_trucks trucks disposal_site].
      rewrite (Qsum_alter Truck.current_load _ _ _ _ Hself).
      rewrite (Qsum_alter_same Truck.total_collected) by (intros; reflexivity).
      rewrite Hd in HD.
      cbn [Rounded.receive_trash DisposalSiteAgent.total_received
           Truck.unloaded Truck.current_load].
      set (G := Qsum (map Truck.total_collected (trucks m))) in *.
      set (L := Qsum (map Truck.current_load (trucks m))) in *.
      set (R := DisposalSiteAgent.total_received d) in *.
      assert (HG : 0 <= G) by (apply Qsum_nonneg; exact HC).
      assert (HsL : Truck.current_load self <= L)
        by (apply (Qsum_member_le Truck.current_load _ i); assumption).
      apply Qabs_Qle_condition in HD. apply Qabs_Qle_condition.
      destruct Hfl as (H0 & H1 & _).
      pose proof (fl_bounds fl u Hfl (R + Truck.current_load self) ltac:(lra)) as F.
      pose proof (absorb_transfer u c c' G (G - (R + L))
                    (R + Truck.current_load self)
                    (fl (R + Truck.current_load self) - (R + Truck.current_load self))
                    H0 H1 Hc Hc' Hnext HG ltac:(lra) HD ltac:(lra) ltac:(lra)) as HA.
      split; lra.
Qed.

Lemma accounts_sized (n : nat) (m : Model) :
  within_accounts u m0 n m -> sized m0 m.
Proof. intros [[H _] _]. exact H. Qed.

Lemma accounts_weaken (n k : nat) (m : Model) :
  (n <= k)%nat -> within_accounts u m0 n m -> within_accounts u m0 k m.
Proof.
  intros Hle [Hw Ha]. split; [apply (within_weaken fl u Hfl m0 n); assumption |].
  destruct Hfl as (H0 & H1 & _).
  apply (accounted_weaken (drift u n)); [apply drift_le; assumption | exact Ha].
Qed.

Lemma accounts_building (n k : nat) (m : Model) :
  within_accounts u m0 n m ->
  within_accounts u m0 (S n) (update_building k (Rounded.building_step fl) m).
Proof.
  intros [Hw Ha]. split; [apply within_building; assumption |].
  destruct Hfl as (H0 & H1 & _).
  apply (accounted_weaken (drift u n)); [apply drift_mono; assumption |].
  exact Ha.
Qed.

Lemma accounts_substep (n i : nat) (r : Rng) (m : Model) :
  within_accounts u m0 n m ->
  within_accounts u m0 (S n) (fst (Rounded.substep fl i r m)).
Proof.
  intros [Hw Ha]. split; [apply within_substep; assumption |].
  destruct Hfl as (H0 & H1 & _).
  destruct (trucks m !! i) as [self |] eqn:Hself.
  - pose proof (rounded_substep_effect fl i self r m Hself) as Heff.
    destruct Hw as [_ [Hn _]].
    apply (effect_accounted (drift u n) (drift u (S n)) i self m _
             ltac:(apply drift_nonneg; assumption)
             ltac:(apply drift_nonneg; assumption)
             ltac:(apply drift_succ; assumption) Hself Heff Hn Ha).
  - unfold Rounded.substep. rewrite Hself. simpl.
    apply (accounted_weaken (drift u n)); [apply drift_mono; assumption | exact Ha].
Qed.

Lemma accounts_run (k : nat) (r : Rng) (m : Model) :
  within_accounts u m0 0 m ->
  within_accounts u m0 (k * passes m0) (fst (Rounded.run fl k r m)).
Proof.
  apply (counted_run fl m0 (within_accounts u m0) accounts_sized accounts_weaken
           accounts_building accounts_substep k 0 r m).
Qed.

Lemma fresh_accounts :
  fresh m0 -> Forall (fun t0 => Truck.total_collected t0 = 0) (trucks m0) ->
  within_accounts u m0 0 m0.
Proof.
  intros Hf HC. split; [apply fresh_within; exact Hf |].
  destruct Hf as (HB & HT & HR). split.
  - eapply Forall_impl; [exact HC |]. intros t0 Ht. simpl. rewrite Ht. lra.
  - unfold GarbageCollectionModel.total_trash_collected, loads. rewrite HR.
    rewrite (Qsum_zero Truck.total_collected), (Qsum_zero Truck.current_load).
    + rewrite drift_zero. vm_compute. discriminate.
    + eapply Forall_impl; [exact HT |]. intros x Hx. apply Hx.
    + exact HC.
Qed.

End Accounting.

(** In floats the accounts do not agree exactly.  In this run the truck
    has made eleven pickups of 10.999999999999998 and two deliveries
    after 114 ticks: it has collected 120.99999999999999 in all, the site
    has received 87.99999999999999 and the truck carries
    32.99999999999999, which add up to 120.99999999999997 in floats. *)
Lemma accounting_fails_in_floats :
  let m := fst (Rounded.run binary64 114 [] float_hamlet) in
  ~ accounting m
  /\ ~ GarbageCollectionModel.total_trash_collected m
       == binary64 (received m + loads m).
Proof.
  split; vm_compute; discriminate.
Qed.

(** X2. Truck accounting, up to rounding.  The amounts are floats.
    Whatever the rounding [fl], of relative error at most [u] (for
    binary64, the inverse of [2 ^ 53]), after [n] calls to the model's
    [step()] on a freshly constructed model the sum of the trucks'
    [total_collected] (the reporter "Total Trash Collected") differs from
    what the disposal site received plus what the trucks carry by at most
    [((1 + u) / (1 - u)) ^ N - 1] times that sum, where [N] is [n] times
    the number of buildings plus twice the number of trucks.  With exact
    arithmetic ([u] is 0) the two are equal. *)
Theorem collected_is_delivered_plus_carried
    (fl : Q -> Q) (u : Q) (m0 : Model) (n : nat) (r : Rng) :
  rounds fl u -> fresh m0 ->
  Forall (fun t0 => Truck.total_collected t0 = 0) (trucks m0) ->
  let m := fst (Rounded.run fl n r m0) in
  Qabs (GarbageCollectionModel.total_trash_collected m - (received m + loads m))
  <= drift u (n * passes m0) * GarbageCollectionModel.total_trash_collected m
  /\ (u == 0 ->
      GarbageCollectionModel.total_trash_collected m == received m + loads m).
Proof.
  intros Hfl Hfresh Hzero m.
  pose proof (accounts_run fl u Hfl m0 n r m0 (fresh_accounts u m0 Hfresh Hzero))
    as [_ [_ H]].
  split; [exact H |].
  intros Hu. fold m in H. rewrite (drift_exact u _ Hu) in H.
  apply Qabs_Qle_condition in H. lra.
Qed.

Lemma collected_is_delivered_plus_carried_witness :
  let m := fst (Rounded.run binary64 114 [] float_hamlet) in
  Qabs (GarbageCollectionModel.total_trash_collected m - (received m + loads m))
  <= drift (1 # 9007199254740992) (114 * passes float_hamlet)
     * GarbageCollectionModel.total_trash_collected m.
Proof.
  refine (proj1 (collected_is_delivered_plus_carried binary64
                   (1 # 9007199254740992) float_hamlet 114 []
                   binary64_rounds _ _)).
  - split; [| split].
    + apply List.Forall_cons; [| apply List.Forall_nil].
      vm_compute. intuition discriminate.
    + apply List.Forall_cons; [| apply List.Forall_nil].
      vm_compute. intuition discriminate.
    + reflexivity.
  - apply List.Forall_cons; [reflexivity | apply List.Forall_nil].
Defined.
